(** * photo-editor: the pixel-editing core, embedded and verified

    The repository holds three snapshots of one React component
    ([App]): v1.2.0 and v2.1.0 (both in [src/unnamed/part_000]) and
    v1.3.0 ([src/unnamed/part_001]).  Each snapshot gets a module of
    its own ([V12], [V13], [V21]), so that every definition keeps the
    name it has in the source.  The pixel operations ([applyMosaicEffect],
    [draw], [applyCrop]) are those of v2.1.0, with the mosaic of v1.2.0
    ([V12.applyMosaic]) beside them.

    Numbers.  A JavaScript [number] is an IEEE 754 double, and the
    embedding has it twice.  Where rounding decides what is true (the
    six inequalities of the crop rectangle, the edges a drag leaves in
    place, the products of [applyCrop]) the code is embedded on the
    kernel's binary64 floats, operation for operation ([F64], [V21d],
    [V12d], [V13d]); [F64.value] is the rational a double stands for.
    Elsewhere (pixel arithmetic, strokes, what the specification states
    "within floating rounding") a coordinate or a percentage is an
    exact rational ([Q]), without [NaN], infinities or rounding, and
    "equal" is [Qeq] ([==]); the two embeddings of the crop updates
    agree whenever no addition or subtraction rounds
    ([V21d_newRect_value], [V12d_newRect_value], [V13d_newRect_value]).
    Quantities the platform keeps integral (canvas dimensions, colour
    bytes, the brush size set by the slider through [Math.round]) are
    in [Z].  A division in [Q] is exact only for a non-zero divisor:
    the theorems in [Q] on v1.2.0 and v1.3.0, which divide by the
    container's size without a guard, assume a container of non-zero
    size, and the theorems on the obfuscation filter assume a positive
    brush size (the slider ranges over 5..80).

    Hook state.  [useState]/[useRef] cells are fields of an explicit
    state record, threaded through the handlers; a handler is a function
    from the event (and the state) to the next state.

    The file has two parts: the embedding (the canvas platform, the three
    snapshots, the notions the theorems use and sample inputs), then the
    lemmas and the theorems. *)

From Stdlib Require Import ZArith QArith Qminmax Qround Qabs List Bool Lia Lqa.
From Stdlib Require Import Floats.
From Stdlib Require Uint63.
Import ListNotations.

Local Open Scope Q_scope.

(* ================================================================== *)
(** * The crop rectangle *)
(* ================================================================== *)

(** [cropRect]: percentages of the bitmap's display box. *)
Record CropRect : Type := mkRect { x : Q; y : Q; w : Q; h : Q }.

(** The reset value, [{ x: 0, y: 0, w: 100, h: 100 }]. *)
Definition fullFrame : CropRect := mkRect 0 0 100 100.

(** The six inequalities of the data model. *)
Definition validRect (minSize : Q) (r : CropRect) : Prop :=
  0 <= x r /\ 0 <= y r /\ x r + w r <= 100 /\ y r + h r <= 100 /\
  minSize <= w r /\ minSize <= h r.

(** Equality of rectangles up to the representation of the fractions. *)
Definition rect_eq (r1 r2 : CropRect) : Prop :=
  x r1 == x r2 /\ y r1 == y r2 /\ w r1 == w r2 /\ h r1 == h r2.

(** Position of the right and of the bottom edge. *)
Definition right (r : CropRect) : Q := x r + w r.
Definition bottom (r : CropRect) : Q := y r + h r.

(** The spec's [clamp(v, lo, hi)]. *)
Definition clamp (v lo hi : Q) : Q := Qmin (Qmax v lo) hi.

(** A pointer position ([clientX], [clientY]). *)
Record Pos : Type := mkPos { clientX : Q; clientY : Q }.

(** The part of [getBoundingClientRect()] the handlers read. *)
Record DOMRect : Type :=
  mkDOMRect { left : Q; top : Q; width : Q; height : Q }.

(** Case analysis on every [Qmin]/[Qmax] of the goal, then linear
    arithmetic. *)
Ltac split_max a b :=
  let m := fresh "m" in let Hm := fresh "Hm" in
  destruct (Q.max_spec a b) as [[? Hm] | [? Hm]];
  set (m := Qmax a b) in *; clearbody m.

Ltac split_min a b :=
  let m := fresh "m" in let Hm := fresh "Hm" in
  destruct (Q.min_spec a b) as [[? Hm] | [? Hm]];
  set (m := Qmin a b) in *; clearbody m.

Ltac split_minmax :=
  repeat match goal with
  | |- context [Qmax ?a ?b] => split_max a b
  | |- context [Qmin ?a ?b] => split_min a b
  | _ : context [Qmax ?a ?b] |- _ => split_max a b
  | _ : context [Qmin ?a ?b] |- _ => split_min a b
  end.

Ltac minmax_lra := split_minmax; lra.

(** Case analysis on every integer comparison of the goal. *)
Ltac z_compare :=
  repeat match goal with
  | |- context [Z.leb ?a ?b] => destruct (Z.leb_spec a b)
  | |- context [Z.ltb ?a ?b] => destruct (Z.ltb_spec a b)
  end; cbn [andb orb]; try reflexivity; try lia.

(* ================================================================== *)
(** * The canvas: bitmaps, compositing, rasterisation *)
(* ================================================================== *)

(** The 2D canvas API is the platform the editor draws with.  It is
    modelled after the HTML standard, on unpremultiplied 8-bit RGBA
    pixels:
    - a bitmap is a row-major list of pixels;
    - drawing composites with [source-over], the default
      [globalCompositeOperation] (the source never changes it);
    - a shape covers a pixel fully, not at all, or partly; what a partly
      covered pixel becomes (anti-aliasing), how a scaled or unaligned
      image is resampled and how a stroked line is rasterised are the
      platform's choice and are left as parameters ([Rasterizer]);
    - [getImageData] converts its arguments to [long] by truncation and
      throws [IndexSizeError] on a zero width or height;
    - PNG encoding ([toDataURL]) and decoding are lossless;
    - a canvas stores colours multiplied by alpha, which is exact for
      opaque and for transparent black pixels: what a canvas holds
      after an image was drawn on it is stated for images of such
      pixels ([withoutBlending]). *)

Local Open Scope Z_scope.

Record Pixel : Type := mkPixel { red : Z; green : Z; blue : Z; alpha : Z }.

Definition transparentBlack : Pixel := mkPixel 0 0 0 0.

Definition byte (v : Z) : Prop := 0 <= v <= 255.

(** A canvas pixel: four bytes, and no colour under a zero alpha (the
    backing store is premultiplied). *)
Definition wf_pixel (p : Pixel) : Prop :=
  byte (red p) /\ byte (green p) /\ byte (blue p) /\ byte (alpha p) /\
  (alpha p = 0 -> red p = 0 /\ green p = 0 /\ blue p = 0).

Definition opaque (p : Pixel) : Prop := alpha p = 255.

Module Bitmap.

Record t : Type := mk { width : Z; height : Z; pixels : list Pixel }.

Definition inside (s : t) (px py : Z) : bool :=
  (0 <=? px) && (px <? width s) && (0 <=? py) && (py <? height s).

(** The pixel at column [px], row [py]; transparent black off the
    bitmap. *)
Definition getPixel (s : t) (px py : Z) : Pixel :=
  if inside s px py
  then nth (Z.to_nat (py * width s + px)) (pixels s) transparentBlack
  else transparentBlack.

Definition wf (s : t) : Prop :=
  0 <= width s /\ 0 <= height s /\
  length (pixels s) = Z.to_nat (width s * height s) /\
  Forall wf_pixel (pixels s).

(** A bitmap of one colour. *)
Definition uniform (w h : Z) (p : Pixel) : t :=
  mk w h (repeat p (Z.to_nat (w * h))).

(** Setting [canvas.width]/[canvas.height] clears the bitmap to
    transparent black. *)
Definition blank (w h : Z) : t := uniform w h transparentBlack.

(** Rewrite every pixel from its coordinates and its old value. *)
Definition mapPixels (f : Z -> Z -> Pixel -> Pixel) (s : t) : t :=
  mk (width s) (height s)
     (map (fun ip : nat * Pixel =>
             f (Z.of_nat (fst ip) mod width s) (Z.of_nat (fst ip) / width s)
               (snd ip))
          (combine (seq 0 (length (pixels s))) (pixels s))).

End Bitmap.

(** Porter-Duff [source-over] of [src] onto [dst]. *)
Definition source_over (src dst : Pixel) : Pixel :=
  let n := alpha src * 255 + alpha dst * (255 - alpha src) in
  if n =? 0 then transparentBlack
  else
    let mix cs cb :=
      (cs * alpha src * 255 + cb * alpha dst * (255 - alpha src)) / n in
    mkPixel (mix (red src) (red dst)) (mix (green src) (green dst))
            (mix (blue src) (blue dst)) (n / 255).

(** How much of the pixel square [[px, px+1] x [py, py+1]] a shape
    covers. *)
Inductive Coverage : Type := Covered | Outside | Edge.

Inductive Shape : Type :=
| Rect (rx ry rw rh : Q)
| Disc (cx cy radius : Q)
| Inter (a b : Shape).

Definition sq (q : Q) : Q := (q * q)%Q.

Definition coverRect (rx ry rw rh : Q) (px py : Z) : Coverage :=
  let x0 := Qmin rx (rx + rw) in let x1 := Qmax rx (rx + rw) in
  let y0 := Qmin ry (ry + rh) in let y1 := Qmax ry (ry + rh) in
  let pxq := inject_Z px in let pyq := inject_Z py in
  if Qeq_bool rw 0 || Qeq_bool rh 0 then Outside
  else if Qle_bool x0 pxq && Qle_bool (pxq + 1) x1 &&
          Qle_bool y0 pyq && Qle_bool (pyq + 1) y1 then Covered
  else if Qle_bool (pxq + 1) x0 || Qle_bool x1 pxq ||
          Qle_bool (pyq + 1) y0 || Qle_bool y1 pyq then Outside
  else Edge.

Definition inDisc (cx cy radius qx qy : Q) : bool :=
  Qle_bool (sq (qx - cx) + sq (qy - cy)) (sq radius).

Definition coverDisc (cx cy radius : Q) (px py : Z) : Coverage :=
  let pxq := inject_Z px in let pyq := inject_Z py in
  let nx := Qmax pxq (Qmin (pxq + 1) cx) in
  let ny := Qmax pyq (Qmin (pyq + 1) cy) in
  if inDisc cx cy radius pxq pyq && inDisc cx cy radius (pxq + 1) pyq &&
     inDisc cx cy radius pxq (pyq + 1) &&
     inDisc cx cy radius (pxq + 1) (pyq + 1) then Covered
  else if Qle_bool (sq radius) (sq (nx - cx) + sq (ny - cy)) then Outside
  else Edge.

Definition meet (a b : Coverage) : Coverage :=
  match a, b with
  | Outside, _ | _, Outside => Outside
  | Covered, Covered => Covered
  | _, _ => Edge
  end.

Fixpoint coverage (sh : Shape) (px py : Z) : Coverage :=
  match sh with
  | Rect rx ry rw rh => coverRect rx ry rw rh px py
  | Disc cx cy radius => coverDisc cx cy radius px py
  | Inter a b => meet (coverage a px py) (coverage b px py)
  end.

(** What the standard leaves to the implementation. *)
Class Rasterizer : Type := {
  (** a partly covered pixel: shape, pixel, source colour, old value *)
  antialias : Shape -> Z -> Z -> Pixel -> Pixel -> Pixel;
  (** the source colour of a destination pixel when [drawImage] scales
      or is not aligned to the pixel grid: image, source rectangle,
      destination rectangle, destination pixel *)
  resample : Bitmap.t -> Q -> Q -> Q -> Q -> Q -> Q -> Q -> Q ->
             Z -> Z -> Pixel;
  (** [stroke()] of a round-capped, round-joined line: from, to, colour,
      width *)
  strokeLine : Q * Q -> Q * Q -> Pixel -> Z -> Bitmap.t -> Bitmap.t
}.

Section CanvasOperations.

Context {platform : Rasterizer}.

(** Composite the colour [src px py] through the shape [sh]. *)
Definition paint (sh : Shape) (src : Z -> Z -> Pixel) (s : Bitmap.t)
  : Bitmap.t :=
  Bitmap.mapPixels
    (fun px py old =>
       match coverage sh px py with
       | Covered => source_over (src px py) old
       | Outside => old
       | Edge => antialias sh px py (src px py) old
       end) s.

(** [ctx.fillRect(x, y, w, h)] with [fillStyle = colour]. *)
Definition fillRect (colour : Pixel) (rx ry rw rh : Q) (s : Bitmap.t)
  : Bitmap.t :=
  paint (Rect rx ry rw rh) (fun _ _ => colour) s.

(** [beginPath(); arc(cx, cy, radius, 0, 2 * Math.PI); fill()]. *)
Definition fillDisc (colour : Pixel) (cx cy radius : Q) (s : Bitmap.t)
  : Bitmap.t :=
  paint (Disc cx cy radius) (fun _ _ => colour) s.

Definition imageRect (img : Bitmap.t) (dx dy : Z) : Shape :=
  Rect (inject_Z dx) (inject_Z dy)
       (inject_Z (Bitmap.width img)) (inject_Z (Bitmap.height img)).

(** [ctx.drawImage(img, dx, dy)] at the image's own size, through the
    current clipping region ([None]: no [clip()] in effect). *)
Definition drawImage (img : Bitmap.t) (dx dy : Z) (clip : option Shape)
  (s : Bitmap.t) : Bitmap.t :=
  let sh := match clip with
            | Some c => Inter c (imageRect img dx dy)
            | None => imageRect img dx dy
            end in
  paint sh (fun px py => Bitmap.getPixel img (px - dx) (py - dy)) s.

Definition isInteger (q : Q) : bool := Qeq_bool q (inject_Z (Qfloor q)).

(** [ctx.drawImage(img, sx, sy, sw, sh, dx, dy, dw, dh)].  An empty
    source rectangle draws nothing; a copy at scale 1 on the pixel grid
    moves pixels, clipped to the image; anything else is resampled. *)
Definition drawImage9 (img : Bitmap.t) (sx sy sw sh dx dy dw dh : Q)
  (s : Bitmap.t) : Bitmap.t :=
  if Qeq_bool sw 0 || Qeq_bool sh 0 then s
  else if isInteger sx && isInteger sy && isInteger dx && isInteger dy &&
          isInteger sw && isInteger sh && Qeq_bool sw dw && Qeq_bool sh dh &&
          Qle_bool 0 sw && Qle_bool 0 sh
  then
    let ox := Qfloor dx - Qfloor sx in
    let oy := Qfloor dy - Qfloor sy in
    paint (Inter (Rect dx dy dw dh) (imageRect img ox oy))
          (fun px py => Bitmap.getPixel img (px - ox) (py - oy)) s
  else
    paint (Rect dx dy dw dh)
          (fun px py => resample img sx sy sw sh dx dy dw dh px py) s.

End CanvasOperations.

(** What a call into the platform can do besides returning. *)
Inductive DOMException : Type := IndexSizeError.

Inductive Outcome (A : Type) : Type :=
| Returned (a : A)
| Thrown (e : DOMException).
Arguments Returned {A} a.
Arguments Thrown {A} e.

(** WebIDL conversion to [long]: the integer part. *)
Definition toLong (q : Q) : Z :=
  if Qle_bool 0 q then Qfloor q else Qceiling q.

(** WebIDL conversion to [unsigned long]. *)
Definition toUnsignedLong (q : Q) : Z := toLong q mod 2 ^ 32.

Definition bytes (p : Pixel) : list Z := [red p; green p; blue p; alpha p].

Definition seqZ (n : Z) : list Z := map Z.of_nat (seq 0 (Z.to_nat n)).

(** The pixels of the [w] by [h] rectangle at [(x0, y0)], row by row. *)
Definition regionPixels (s : Bitmap.t) (x0 y0 w h : Z) : list Pixel :=
  flat_map
    (fun j => map (fun i => Bitmap.getPixel s (x0 + i) (y0 + j)) (seqZ w))
    (seqZ h).

(** The [data] of [ctx.getImageData(sx, sy, sw, sh)]: RGBA bytes, row by
    row; a negative size spans to the other side of the origin. *)
Definition getImageData (s : Bitmap.t) (sx sy sw sh : Q) : Outcome (list Z) :=
  let lx := toLong sx in let ly := toLong sy in
  let lw := toLong sw in let lh := toLong sh in
  if (lw =? 0) || (lh =? 0) then Thrown IndexSizeError
  else
    let x0 := if lw <? 0 then lx + lw else lx in
    let y0 := if lh <? 0 then ly + lh else ly in
    Returned (flat_map bytes (regionPixels s x0 y0 (Z.abs lw) (Z.abs lh))).

(** A rasteriser without anti-aliasing, for running the model on
    examples: a partly covered pixel keeps its value, a resampled pixel
    takes its nearest source pixel, a stroke stamps a dot at its end. *)
Definition aliased : Rasterizer := {|
  antialias := fun _ _ _ _ old => old;
  resample := fun img sx sy sw sh dx dy dw dh px py =>
    Bitmap.getPixel img
      (Qfloor (sx + (inject_Z px + (1 # 2) - dx) * sw / dw))
      (Qfloor (sy + (inject_Z py + (1 # 2) - dy) * sh / dh));
  strokeLine := fun _ to colour width s =>
    Bitmap.mapPixels
      (fun px py old =>
         match coverDisc (fst to) (snd to) (inject_Z width / 2) px py with
         | Covered => source_over colour old
         | _ => old
         end) s
|}.

Local Open Scope Q_scope.

(* ================================================================== *)
(** * v2.1.0: the crop overlay with pointer events, and the editor *)
(* ================================================================== *)

Module V21.

(** ** The editor of v2.1.0 *)

Local Open Scope Z_scope.

Inductive Tool : Type := none | brush | mosaic | eraser | crop.

Inductive MosaicType : Type := pixel | blur.

(** The state of [App] the pixel operations read and write.  [canvas]
    is the bitmap of [canvasRef.current]; [imageSrc], a PNG data URL, is
    represented by the bitmap it encodes. *)
Record App : Type := mkApp {
  imageSrc : option Bitmap.t;
  originalImageObj : option Bitmap.t;
  activeTool : Tool;
  isSettingsOpen : bool;
  brushColor : Pixel;
  brushSize : Z;
  mosaicType : MosaicType;
  appCropRect : CropRect;
  canvas : option Bitmap.t;
  isDrawing : bool;
  lastPos : option (Q * Q)
}.

(** [const multiplier = 4]. *)
Definition multiplier : Z := 4.

Definition effectSizeOf (size : Z) : Q := inject_Z (size * multiplier).

(** [startX] (or [startY]) after the boundary check: snapped to the grid
    in [pixel] mode, centred on the point in [blur] mode, and not below
    zero. *)
Definition startOf (type : MosaicType) (v effectSize : Q) : Q :=
  let start :=
    match type with
    | pixel => (inject_Z (Qfloor (v / effectSize)) * effectSize)%Q
    | blur => (v - effectSize / 2)%Q
    end in
  if Qle_bool 0 start then start else 0%Q.

(** [sampleW = Math.min(effectSize, ctx.canvas.width - startX)]. *)
Definition sampleOf (effectSize : Q) (extent : Z) (start : Q) : Q :=
  Qmin effectSize (inject_Z extent - start).

(** The values [i] takes in [for (let i = 0; i < data.length; i += 16)]. *)
Definition loopIndices (len : nat) : list nat :=
  map (fun k => (16 * k)%nat) (seq 0 ((len + 15) / 16)).

(** [r], [g], [b] and [count] when the loop ends. *)
Definition sumLoop (data : list Z) : Z * Z * Z * Z :=
  fold_left
    (fun (acc : Z * Z * Z * Z) (i : nat) =>
       let '(r, g, b, count) := acc in
       (r + nth i data 0, g + nth (i + 1) data 0, b + nth (i + 2) data 0,
        count + 1))
    (loopIndices (length data)) (0, 0, 0, 0).

(** [r], [g], [b] after [if (count > 0) { r = Math.floor(r / count); ... }]. *)
Definition averageOf (data : list Z) : Z * Z * Z :=
  let '(r, g, b, count) := sumLoop data in
  if 0 <? count then (r / count, g / count, b / count) else (r, g, b).

Definition clampByte (v : Z) : Z := Z.max 0 (Z.min 255 v).

(** The colour that the CSS string [rgb(r,g,b)] denotes. *)
Definition rgb (c : Z * Z * Z) : Pixel :=
  let '(r, g, b) := c in mkPixel (clampByte r) (clampByte g) (clampByte b) 255.

Section Editor.

Context {platform : Rasterizer}.

Definition applyMosaicEffect (ctx : Bitmap.t) (x y : Q) (size : Z)
  (type : MosaicType) : Outcome Bitmap.t :=
  let effectSize := effectSizeOf size in
  let startX := startOf type x effectSize in
  let startY := startOf type y effectSize in
  let sampleW := sampleOf effectSize (Bitmap.width ctx) startX in
  let sampleH := sampleOf effectSize (Bitmap.height ctx) startY in
  if Qle_bool sampleW 0 || Qle_bool sampleH 0 then Returned ctx
  else
    match getImageData ctx startX startY sampleW sampleH with
    | Thrown e => Thrown e
    | Returned data =>
        let fillStyle := rgb (averageOf data) in
        match type with
        | pixel =>
            Returned (fillRect fillStyle startX startY effectSize effectSize ctx)
        | blur => Returned (fillDisc fillStyle x y (effectSize / 2) ctx)
        end
    end.

Definition setCanvas (c : Bitmap.t) (p : Q * Q) (st : App) : App :=
  mkApp (imageSrc st) (originalImageObj st) (activeTool st)
        (isSettingsOpen st) (brushColor st) (brushSize st) (mosaicType st)
        (appCropRect st) (Some c) (isDrawing st) (Some p).

(** [const eraserMultiplier = 5]. *)
Definition eraserMultiplier : Z := 5.

(** [draw(e)], where [(x, y)] is [getCanvasCoordinates(e)].  [arc]
    throws [IndexSizeError] on a negative radius. *)
Definition draw (x y : Q) (st : App) : Outcome App :=
  match isDrawing st, canvas st, lastPos st with
  | true, Some ctx, Some last =>
      match activeTool st, originalImageObj st with
      | brush, _ =>
          Returned (setCanvas (strokeLine last (x, y) (brushColor st)
                                          (brushSize st) ctx) (x, y) st)
      | mosaic, _ =>
          match applyMosaicEffect ctx x y (brushSize st) (mosaicType st) with
          | Returned ctx' => Returned (setCanvas ctx' (x, y) st)
          | Thrown e => Thrown e
          end
      | eraser, Some img =>
          let effectiveEraserSize := brushSize st * eraserMultiplier in
          if effectiveEraserSize <? 0 then Thrown IndexSizeError
          else
            Returned
              (setCanvas
                 (drawImage img 0 0
                    (Some (Disc x y (inject_Z effectiveEraserSize))) ctx)
                 (x, y) st)
      | _, _ => Returned (setCanvas ctx (x, y) st)
      end
  | _, _, _ => Returned st
  end.

(** The effect on [[imageSrc, originalImageObj]]: size the canvas to the
    image and draw the image on it. *)
Definition renderImage (st : App) : App :=
  match imageSrc st, canvas st, originalImageObj st with
  | Some _, Some _, Some img =>
      mkApp (imageSrc st) (originalImageObj st) (activeTool st)
            (isSettingsOpen st) (brushColor st) (brushSize st)
            (mosaicType st) (appCropRect st)
            (Some (drawImage img 0 0 None
                     (Bitmap.blank (Bitmap.width img) (Bitmap.height img))))
            (isDrawing st) (lastPos st)
  | _, _, _ => st
  end.

(** [applyCrop()], up to and including the [onload] of the new image and
    the render effect it triggers.  A canvas of zero width or height
    encodes to [data:,], which does not load: [onload] never runs. *)
Definition applyCrop (st : App) : App :=
  match canvas st, originalImageObj st with
  | Some cv, Some _ =>
      let rc := appCropRect st in
      let cropX := ((x rc / 100) * inject_Z (Bitmap.width cv))%Q in
      let cropY := ((y rc / 100) * inject_Z (Bitmap.height cv))%Q in
      let cropW := ((w rc / 100) * inject_Z (Bitmap.width cv))%Q in
      let cropH := ((h rc / 100) * inject_Z (Bitmap.height cv))%Q in
      let tempW := toUnsignedLong cropW in
      let tempH := toUnsignedLong cropH in
      let tempCanvas :=
        drawImage9 cv cropX cropY cropW cropH 0 0 cropW cropH
                   (Bitmap.blank tempW tempH) in
      if (tempW =? 0) || (tempH =? 0) then st
      else
        renderImage
          (mkApp (Some tempCanvas) (Some tempCanvas) none false
                 (brushColor st) (brushSize st) (mosaicType st)
                 (appCropRect st) (canvas st) (isDrawing st) (lastPos st))
  | _, _ => st
  end.

(** The refs and the panel as [startDrawing] leaves them when it calls
    [draw]: the settings panel closed, [isDrawing.current = true],
    [lastPos.current = { x, y }]. *)
Definition beginStroke (x y : Q) (st : App) : App :=
  mkApp (imageSrc st) (originalImageObj st) (activeTool st) false
        (brushColor st) (brushSize st) (mosaicType st) (appCropRect st)
        (canvas st) true (Some (x, y)).

(** [startDrawing(e)], where [(x, y)] is [getCanvasCoordinates(e)]. *)
Definition startDrawing (x y : Q) (st : App) : Outcome App :=
  match activeTool st with
  | none | crop => Returned st
  | _ => draw x y (beginStroke x y st)
  end.

Definition stopDrawing (st : App) : App :=
  mkApp (imageSrc st) (originalImageObj st) (activeTool st)
        (isSettingsOpen st) (brushColor st) (brushSize st) (mosaicType st)
        (appCropRect st) (canvas st) false None.

(** What the canvas element hears: [onTouchStart]/[onMouseDown],
    [onTouchMove]/[onMouseMove], and
    [onTouchEnd]/[onMouseUp]/[onMouseLeave]. *)
Inductive StrokeEvent : Type :=
| StartDrawing (x y : Q)
| Draw (x y : Q)
| StopDrawing.

(** The editor after one event.  An exception ends the handler where it
    is thrown: the refs keep what the handler had written by then. *)
Definition strokeStep (ev : StrokeEvent) (st : App) : App :=
  match ev with
  | StartDrawing x y =>
      match startDrawing x y st with
      | Returned st' => st'
      | Thrown _ => beginStroke x y st
      end
  | Draw x y =>
      match draw x y st with
      | Returned st' => st'
      | Thrown _ => st
      end
  | StopDrawing => stopDrawing st
  end.

Definition strokeRun (evs : list StrokeEvent) (st : App) : App :=
  fold_left (fun s ev => strokeStep ev s) evs st.

(** [handleFileChange] up to the [onload] of the decoded image and the
    render effect: [file] is the bitmap the chosen file decodes to
    ([None]: no file chosen, or data that does not decode, for which
    [onload] never runs).  The canvas element appears with the first
    image, 300 by 150 and cleared, before the effect sizes it. *)
Definition handleFileChange (file : option Bitmap.t) (st : App) : App :=
  match file with
  | None => st
  | Some img =>
      renderImage
        (mkApp (Some img) (Some img) none false (brushColor st)
               (brushSize st) (mosaicType st) (appCropRect st)
               (match canvas st with
                | Some c => Some c
                | None => Some (Bitmap.blank 300 150)
                end)
               (isDrawing st) (lastPos st))
  end.

End Editor.

(** ** Tool selection and the slider of v2.1.0 *)

Definition Tool_eqb (a b : Tool) : bool :=
  match a, b with
  | none, none | brush, brush | mosaic, mosaic | eraser, eraser
  | crop, crop => true
  | _, _ => false
  end.

(** [handleToolSelect(tool)]. *)
Definition handleToolSelect (tool : Tool) (st : App) : App :=
  if Tool_eqb (activeTool st) tool then
    mkApp (imageSrc st) (originalImageObj st) (activeTool st)
          (negb (isSettingsOpen st)) (brushColor st) (brushSize st)
          (mosaicType st) (appCropRect st) (canvas st) (isDrawing st)
          (lastPos st)
  else
    mkApp (imageSrc st) (originalImageObj st) tool true (brushColor st)
          (brushSize st) (mosaicType st)
          (match tool with crop => fullFrame | _ => appCropRect st end)
          (canvas st) (isDrawing st) (lastPos st).

(** [TouchSlider]: [value] is the state the parent gave and [onChange]
    sets (the brush size), [isDragging] the ref of the slider. *)
Module TouchSlider.

Record State : Type := mkState { isDragging : bool; value : Z }.

(** [Math.round]: the nearest integer, a half going up. *)
Definition round (q : Q) : Z := Qfloor (q + (1 # 2)).

(** The argument [calculateAndSetValue] gives to [onChange]; without the
    element ([sliderRef.current] null) nothing is set. *)
Definition calculateAndSetValue (sliderRef : option DOMRect) (min max : Q)
  (clientX : Q) (st : State) : State :=
  match sliderRef with
  | None => st
  | Some rect =>
      let percentage := ((clientX - left rect) / width rect)%Q in
      let percentage := Qmax 0 (Qmin 1 percentage) in
      mkState (isDragging st) (round (min + percentage * (max - min)))
  end.

Definition handlePointerDown (sliderRef : option DOMRect) (min max : Q)
  (clientX : Q) (st : State) : State :=
  calculateAndSetValue sliderRef min max clientX (mkState true (value st)).

Definition handlePointerMove (sliderRef : option DOMRect) (min max : Q)
  (clientX : Q) (st : State) : State :=
  if isDragging st then calculateAndSetValue sliderRef min max clientX st
  else st.

Definition handlePointerUp (st : State) : State :=
  if isDragging st then mkState false (value st) else st.

(** [SubToolBar] is declared inside [App]: a render of [App] makes it a
    new component and the slider under it is mounted anew, its ref
    [isDragging] back at [false]; the value is the parent's. *)
Definition remount (st : State) : State := mkState false (value st).

Inductive Event : Type :=
| PointerDown (clientX : Q) (sliderRef : option DOMRect)
| PointerMove (clientX : Q) (sliderRef : option DOMRect)
| PointerUp
| Remount.

Definition handle (min max : Q) (ev : Event) (st : State) : State :=
  match ev with
  | PointerDown cx ref => handlePointerDown ref min max cx st
  | PointerMove cx ref => handlePointerMove ref min max cx st
  | PointerUp => handlePointerUp st
  | Remount => remount st
  end.

Definition run (min max : Q) (evs : list Event) (st : State) : State :=
  fold_left (fun s ev => handle min max ev s) evs st.

(** The events whose division the model computes exactly: those over a
    slider of non-zero width. *)
Definition sized (ev : Event) : Prop :=
  match ev with
  | PointerDown _ (Some rect) | PointerMove _ (Some rect) =>
      ~ (width rect == 0)%Q
  | _ => True
  end.

End TouchSlider.

(** ** The crop overlay of v2.1.0 *)

(** The overlay on exact numbers; [V21d] below has it in doubles. *)

Local Open Scope Q_scope.

(** [type HandleType = 'tl' | 'tr' | 'bl' | 'br' | 't' | 'b' | 'l' | 'r'];
    this snapshot has no [move] handle. *)
Inductive HandleType : Type := tl | tr | bl | br | t | b | l | r.

(** [const minSize = 1]. *)
Definition minSize : Q := 1.

(** The hooks of [CropOverlay] together with the [cropRect] cell of
    [App] that [setCropRect] writes. *)
Record CropOverlay : Type := mkOverlay {
  activeHandle : option HandleType;
  startPosRef : option Pos;
  startRectRef : CropRect;
  cropRect : CropRect
}.

(** The [switch (activeHandle)] of [handlePointerMove]: [newRect] starts
    as a copy of [startRectRef.current] and each case overwrites the
    fields it resizes. *)
Definition newRect (hd : HandleType) (s : CropRect) (dX dY : Q) : CropRect :=
  match hd with
  | l =>
      let newXL := Qmin (Qmax 0 (x s + dX)) (x s + w s - minSize) in
      mkRect newXL (y s) (w s - (newXL - x s)) (h s)
  | r =>
      mkRect (x s) (y s) (Qmax minSize (Qmin (100 - x s) (w s + dX))) (h s)
  | t =>
      let newYT := Qmin (Qmax 0 (y s + dY)) (y s + h s - minSize) in
      mkRect (x s) newYT (w s) (h s - (newYT - y s))
  | b =>
      mkRect (x s) (y s) (w s) (Qmax minSize (Qmin (100 - y s) (h s + dY)))
  | tl =>
      let newXTL := Qmin (Qmax 0 (x s + dX)) (x s + w s - minSize) in
      let newYTL := Qmin (Qmax 0 (y s + dY)) (y s + h s - minSize) in
      mkRect newXTL newYTL (w s - (newXTL - x s)) (h s - (newYTL - y s))
  | tr =>
      let newYTR := Qmin (Qmax 0 (y s + dY)) (y s + h s - minSize) in
      mkRect (x s) newYTR
             (Qmax minSize (Qmin (100 - x s) (w s + dX)))
             (h s - (newYTR - y s))
  | bl =>
      let newXBL := Qmin (Qmax 0 (x s + dX)) (x s + w s - minSize) in
      mkRect newXBL (y s) (w s - (newXBL - x s))
             (Qmax minSize (Qmin (100 - y s) (h s + dY)))
  | br =>
      mkRect (x s) (y s)
             (Qmax minSize (Qmin (100 - x s) (w s + dX)))
             (Qmax minSize (Qmin (100 - y s) (h s + dY)))
  end.

(** The pointer delta in percent of the container's on-screen size. *)
Definition dXof (e start : Pos) (c : DOMRect) : Q :=
  ((clientX e - clientX start) / width c) * 100.
Definition dYof (e start : Pos) (c : DOMRect) : Q :=
  ((clientY e - clientY start) / height c) * 100.

Definition handlePointerDown (type : HandleType) (e : Pos)
  (st : CropOverlay) : CropOverlay :=
  mkOverlay (Some type) (Some e) (cropRect st) (cropRect st).

(** [container] is [containerRef.current] (absent before the image is
    shown), reduced to its bounding rectangle. *)
Definition handlePointerMove (e : Pos) (container : option DOMRect)
  (st : CropOverlay) : CropOverlay :=
  match activeHandle st, startPosRef st, container with
  | Some hd, Some start, Some c =>
      if Qeq_bool (width c) 0 || Qeq_bool (height c) 0 then st
      else
        mkOverlay (activeHandle st) (startPosRef st) (startRectRef st)
                  (newRect hd (startRectRef st) (dXof e start c) (dYof e start c))
  | _, _, _ => st
  end.

Definition handlePointerUp (st : CropOverlay) : CropOverlay :=
  match activeHandle st with
  | Some _ => mkOverlay None None (startRectRef st) (cropRect st)
  | None => st
  end.

(** [CropOverlay] is mounted when the crop tool is selected, and
    [handleToolSelect] resets [cropRect] to the full frame then. *)
Definition mount : CropOverlay := mkOverlay None None fullFrame fullFrame.

(** [CropOverlay] is declared in the body of [App], so when [App]
    renders again React mounts a fresh overlay: the hooks restart from
    their initial values, around the [cropRect] of that moment. *)
Definition remount (st : CropOverlay) : CropOverlay :=
  mkOverlay None None (cropRect st) (cropRect st).

(** The pointer events the overlay's handles receive, and the re-mount,
    which may come between any two of them. *)
Inductive Event : Type :=
| PointerDown (type : HandleType) (e : Pos)
| PointerMove (e : Pos) (container : option DOMRect)
| PointerUp
| Remount.

Definition handle (ev : Event) (st : CropOverlay) : CropOverlay :=
  match ev with
  | PointerDown type e => handlePointerDown type e st
  | PointerMove e c => handlePointerMove e c st
  | PointerUp => handlePointerUp st
  | Remount => remount st
  end.

(** The overlay after a sequence of events, oldest first. *)
Definition run (evs : list Event) (st : CropOverlay) : CropOverlay :=
  fold_left (fun s ev => handle ev s) evs st.

(** One drag session: press on a handle, move once, release. *)
Definition dragSession (type : HandleType) (down move : Pos)
  (container : option DOMRect) (st : CropOverlay) : CropOverlay :=
  run [PointerDown type down; PointerMove move container; PointerUp] st.


End V21.

(* ================================================================== *)
(** * v1.2.0: [CropOverlay] with mouse and touch events *)
(* ================================================================== *)

Module V12.

(** [r], [g], [b] when [for (let i = 0; i < data.length; i += 4)] ends. *)
Definition sumAll (data : list Z) : Z * Z * Z :=
  fold_left
    (fun (acc : Z * Z * Z) (i : nat) =>
       let '(r, g, b) := acc in
       (r + nth i data 0, g + nth (i + 1) data 0, b + nth (i + 2) data 0)%Z)
    (map (fun k => (4 * k)%nat) (seq 0 ((length data + 3) / 4)))
    (0, 0, 0)%Z.

(** [applyMosaic(ctx, x, y, size)]: no boundary check and no guard; the
    sample is the whole [pixelSize] square, off the canvas too. *)
Definition applyMosaic {platform : Rasterizer} (ctx : Bitmap.t) (x y : Q)
  (size : Z) : Outcome Bitmap.t :=
  let pixelSize := inject_Z (size * 2) in
  let startX := inject_Z (Qfloor (x / pixelSize)) * pixelSize in
  let startY := inject_Z (Qfloor (y / pixelSize)) * pixelSize in
  match getImageData ctx startX startY pixelSize pixelSize with
  | Thrown e => Thrown e
  | Returned data =>
      let '(r, g, b) := sumAll data in
      let pixelCount := (Z.of_nat (length data) / 4)%Z in
      Returned
        (fillRect (V21.rgb (r / pixelCount, g / pixelCount, b / pixelCount)%Z)
                  startX startY pixelSize pixelSize ctx)
  end.

(** [type Mode = 'move' | 'tl' | ... | 'r' | null]; [null] is [None]. *)
Inductive Mode : Type := move | tl | tr | bl | br | t | b | l | r.

(** [const minSize = 5]. *)
Definition minSize : Q := 5.

Record CropOverlay : Type := mkOverlay {
  interactionMode : option Mode;
  startPos : option Pos;
  startRect : CropRect;
  cropRect : CropRect
}.

(** The [if ... else if] chain of [handleMove]; [newRect] is a copy of
    [startRect], so a field read through [newRect] before it is written
    is the field of [startRect]. *)
Definition newRect (mode : Mode) (s : CropRect) (dX dY : Q) : CropRect :=
  match mode with
  | move =>
      mkRect (Qmax 0 (Qmin (100 - w s) (x s + dX)))
             (Qmax 0 (Qmin (100 - h s) (y s + dY))) (w s) (h s)
  | br =>
      mkRect (x s) (y s)
             (Qmax minSize (Qmin (100 - x s) (w s + dX)))
             (Qmax minSize (Qmin (100 - y s) (h s + dY)))
  | bl =>
      let maxDX := w s - minSize in
      let effectiveDX := Qmax (- x s) (Qmin maxDX dX) in
      mkRect (x s + effectiveDX) (y s) (w s - effectiveDX)
             (Qmax minSize (Qmin (100 - y s) (h s + dY)))
  | tr =>
      let maxDY := h s - minSize in
      let effectiveDY := Qmax (- y s) (Qmin maxDY dY) in
      mkRect (x s) (y s + effectiveDY)
             (Qmax minSize (Qmin (100 - x s) (w s + dX)))
             (h s - effectiveDY)
  | tl =>
      let maxDX := w s - minSize in
      let effectiveDX := Qmax (- x s) (Qmin maxDX dX) in
      let maxDY := h s - minSize in
      let effectiveDY := Qmax (- y s) (Qmin maxDY dY) in
      mkRect (x s + effectiveDX) (y s + effectiveDY)
             (w s - effectiveDX) (h s - effectiveDY)
  | r =>
      mkRect (x s) (y s) (Qmax minSize (Qmin (100 - x s) (w s + dX))) (h s)
  | l =>
      let maxDX := w s - minSize in
      let effectiveDX := Qmax (- x s) (Qmin maxDX dX) in
      mkRect (x s + effectiveDX) (y s) (w s - effectiveDX) (h s)
  | b =>
      mkRect (x s) (y s) (w s) (Qmax minSize (Qmin (100 - y s) (h s + dY)))
  | t =>
      let maxDY := h s - minSize in
      let effectiveDY := Qmax (- y s) (Qmin maxDY dY) in
      mkRect (x s) (y s + effectiveDY) (w s) (h s - effectiveDY)
  end.

Definition dXof (e start : Pos) (c : DOMRect) : Q :=
  ((clientX e - clientX start) / width c) * 100.
Definition dYof (e start : Pos) (c : DOMRect) : Q :=
  ((clientY e - clientY start) / height c) * 100.

Definition handleStart (mode : option Mode) (e : Pos)
  (st : CropOverlay) : CropOverlay :=
  mkOverlay mode (Some e) (cropRect st) (cropRect st).

(** This snapshot divides by the container's size without a guard. *)
Definition handleMove (e : Pos) (container : option DOMRect)
  (st : CropOverlay) : CropOverlay :=
  match interactionMode st, startPos st, container with
  | Some mode, Some start, Some c =>
      mkOverlay (interactionMode st) (startPos st) (startRect st)
                (newRect mode (startRect st) (dXof e start c) (dYof e start c))
  | _, _, _ => st
  end.

Definition handleEnd (st : CropOverlay) : CropOverlay :=
  mkOverlay None None (startRect st) (cropRect st).

(** The [useEffect] on [activeTool] resets [cropRect] when the crop tool
    is entered, and the overlay is mounted with it. *)
Definition mount : CropOverlay := mkOverlay None None fullFrame fullFrame.

(** A fresh overlay, mounted when [App] renders again. *)
Definition remount (st : CropOverlay) : CropOverlay :=
  mkOverlay None None (cropRect st) (cropRect st).

Inductive Event : Type :=
| Start (mode : option Mode) (e : Pos)
| Move (e : Pos) (container : option DOMRect)
| End_
| Remount.

Definition handle (ev : Event) (st : CropOverlay) : CropOverlay :=
  match ev with
  | Start mode e => handleStart mode e st
  | Move e c => handleMove e c st
  | End_ => handleEnd st
  | Remount => remount st
  end.

Definition run (evs : list Event) (st : CropOverlay) : CropOverlay :=
  fold_left (fun s ev => handle ev s) evs st.

End V12.

(* ================================================================== *)
(** * v1.3.0: [CropOverlay] resizing by absolute pointer position *)
(* ================================================================== *)

Module V13.

Inductive Mode : Type := move | tl | tr | bl | br | t | b | l | r.

Definition minSize : Q := 1.

Record CropOverlay : Type := mkOverlay {
  interactionMode : option Mode;
  startRect : CropRect;
  startPosRef : option Pos;
  startRectRef : CropRect;
  cropRect : CropRect
}.

(** The pointer position as a percentage of the container, clamped to
    [0..100]. *)
Definition mouseXPct (e : Pos) (c : DOMRect) : Q :=
  Qmax 0 (Qmin 100 (((clientX e - left c) / width c) * 100)).
Definition mouseYPct (e : Pos) (c : DOMRect) : Q :=
  Qmax 0 (Qmin 100 (((clientY e - top c) / height c) * 100)).

(** The [switch (interactionMode)] of [handleMove], over the live
    [cropRect] [s]. *)
Definition newRect (mode : Mode) (s : CropRect) (mx my : Q) : CropRect :=
  let currentRight := x s + w s in
  let currentBottom := y s + h s in
  match mode with
  | move => s
  | l =>
      let newLeftL := Qmin mx (currentRight - minSize) in
      mkRect newLeftL (y s) (currentRight - newLeftL) (h s)
  | r =>
      let newRightR := Qmax (x s + minSize) mx in
      mkRect (x s) (y s) (newRightR - x s) (h s)
  | t =>
      let newTopT := Qmin my (currentBottom - minSize) in
      mkRect (x s) newTopT (w s) (currentBottom - newTopT)
  | b =>
      let newBottomB := Qmax (y s + minSize) my in
      mkRect (x s) (y s) (w s) (newBottomB - y s)
  | tl =>
      let newLeftTL := Qmin mx (currentRight - minSize) in
      let newTopTL := Qmin my (currentBottom - minSize) in
      mkRect newLeftTL newTopTL (currentRight - newLeftTL)
             (currentBottom - newTopTL)
  | tr =>
      let newRightTR := Qmax (x s + minSize) mx in
      let newTopTR := Qmin my (currentBottom - minSize) in
      mkRect (x s) newTopTR (newRightTR - x s) (currentBottom - newTopTR)
  | bl =>
      let newLeftBL := Qmin mx (currentRight - minSize) in
      let newBottomBL := Qmax (y s + minSize) my in
      mkRect newLeftBL (y s) (currentRight - newLeftBL) (newBottomBL - y s)
  | br =>
      let newRightBR := Qmax (x s + minSize) mx in
      let newBottomBR := Qmax (y s + minSize) my in
      mkRect (x s) (y s) (newRightBR - x s) (newBottomBR - y s)
  end.

Definition setCropRect (rc : CropRect) (st : CropOverlay) : CropOverlay :=
  mkOverlay (interactionMode st) (startRect st) (startPosRef st)
            (startRectRef st) rc.

Definition handleMove (e : Pos) (container : option DOMRect)
  (st : CropOverlay) : CropOverlay :=
  match interactionMode st, container with
  | Some mode, Some c =>
      let rc := newRect mode (cropRect st) (mouseXPct e c) (mouseYPct e c) in
      match mode, startPosRef st with
      | move, Some _ => st
      | _, _ => setCropRect rc st
      end
  | _, _ => st
  end.

Definition handleStart (mode : option Mode) (e : Pos)
  (st : CropOverlay) : CropOverlay :=
  mkOverlay mode (startRect st) (Some e) (cropRect st) (cropRect st).

Definition dXof (e start : Pos) (c : DOMRect) : Q :=
  ((clientX e - clientX start) / width c) * 100.
Definition dYof (e start : Pos) (c : DOMRect) : Q :=
  ((clientY e - clientY start) / height c) * 100.

Definition handleMoveWithMode (e : Pos) (container : option DOMRect)
  (st : CropOverlay) : CropOverlay :=
  match interactionMode st with
  | None => st
  | Some mode =>
      match mode, startPosRef st, container with
      | move, Some start, Some c =>
          let s := startRectRef st in
          setCropRect
            (mkRect (Qmax 0 (Qmin (100 - w s) (x s + dXof e start c)))
                    (Qmax 0 (Qmin (100 - h s) (y s + dYof e start c)))
                    (w s) (h s)) st
      | _, _, _ => handleMove e container st
      end
  end.

Definition handleEnd (st : CropOverlay) : CropOverlay :=
  mkOverlay None (startRect st) (startPosRef st) (startRectRef st)
            (cropRect st).

End V13.

(* ================================================================== *)
(** * The crop arithmetic in IEEE doubles *)
(* ================================================================== *)

(** A JavaScript [number] is an IEEE 754 binary64 value and [+], [-],
    [*], [/] round to nearest.  Where a statement depends on that
    rounding, the overlay arithmetic is embedded once more, operation
    for operation in the order of the source, on the kernel's binary64
    floats. *)

Module F64.

Local Open Scope float_scope.

Module Math.

(** [Math.max(a, b)]: [NaN] when an argument is [NaN]; [+0] is larger
    than [-0]. *)
Definition max (a b : float) : float :=
  if is_nan a || is_nan b then nan
  else if a <? b then b
  else if b <? a then a
  else if is_zero a && get_sign a then b else a.

(** [Math.min(a, b)]: [NaN] when an argument is [NaN]; [-0] is smaller
    than [+0]. *)
Definition min (a b : float) : float :=
  if is_nan a || is_nan b then nan
  else if a <? b then a
  else if b <? a then b
  else if is_zero a && get_sign a then a else b.

End Math.

Record CropRect : Type := mkRect { x : float; y : float; w : float; h : float }.

Definition fullFrame : CropRect := mkRect 0 0 100 100.

Record Pos : Type := mkPos { clientX : float; clientY : float }.

Record DOMRect : Type :=
  mkDOMRect { left : float; top : float; width : float; height : float }.

(** The double of an integer ([canvas.width], a pixel count). *)
Definition ofZ (z : Z) : float := of_uint63 (Uint63.of_Z z).

(** The number a double stands for is written over the denominator
    [2^1074]: a finite double is [(-1)^s * m * 2^e] with [-1074 <= e],
    and its numerator is [(-1)^s * m * 2^(e + 1074)].  The zeros have
    the numerator [0] (and so have, by convention, the infinities and
    [NaN]). *)
Definition numerator (f : spec_float) : Z :=
  match f with
  | S754_finite s m e => (if s then Z.neg m else Z.pos m) * 2 ^ (e + 1074)
  | _ => 0
  end.

Definition value (f : float) : Q := Qmake (numerator (Prim2SF f)) (2 ^ 1074).

(** [x + w], the right edge, as the code would compute it. *)
Definition right (r : CropRect) : float := x r + w r.
Definition bottom (r : CropRect) : float := y r + h r.

(** A double that is a number: neither an infinity nor [NaN]. *)
Definition isNumber (f : spec_float) : bool :=
  match f with
  | S754_zero _ | S754_finite _ _ _ => true
  | _ => false
  end.

Definition finite (f : float) : bool := isNumber (Prim2SF f).

Definition finiteRect (r : CropRect) : bool :=
  finite (x r) && finite (y r) && finite (w r) && finite (h r).

(** An addition, a subtraction that does not round: the result is a
    number, and it stands for the exact sum, the exact difference. *)
Definition exactAdd (a b : float) : Prop :=
  finite (a + b) = true /\ (value (a + b) == value a + value b)%Q.

Definition exactSub (a b : float) : Prop :=
  finite (a - b) = true /\ (value (a - b) == value a - value b)%Q.

End F64.

(** The rectangle of rationals a rectangle of doubles stands for. *)
Definition rectValue (r : F64.CropRect) : CropRect :=
  mkRect (F64.value (F64.x r)) (F64.value (F64.y r))
         (F64.value (F64.w r)) (F64.value (F64.h r)).

(** The six inequalities of a rectangle of doubles: its fields are
    numbers, and these numbers satisfy the inequalities. *)
Definition validRect64 (minSize : Q) (r : F64.CropRect) : Prop :=
  F64.finiteRect r = true /\ validRect minSize (rectValue r).

(** ** v2.1.0 *)

Module V21d.

Import F64.
Local Open Scope float_scope.

Definition minSize : float := 1.

Record CropOverlay : Type := mkOverlay {
  activeHandle : option V21.HandleType;
  startPosRef : option Pos;
  startRectRef : CropRect;
  cropRect : CropRect
}.

(** The [switch (activeHandle)] of [handlePointerMove], over the
    anchored rectangle [s = startRectRef.current]. *)
Definition newRect (hd : V21.HandleType) (s : CropRect) (dX dY : float)
  : CropRect :=
  match hd with
  | V21.l =>
      let newXL := Math.min (Math.max 0 (x s + dX)) (x s + w s - minSize) in
      mkRect newXL (y s) (w s - (newXL - x s)) (h s)
  | V21.r =>
      mkRect (x s) (y s) (Math.max minSize (Math.min (100 - x s) (w s + dX)))
             (h s)
  | V21.t =>
      let newYT := Math.min (Math.max 0 (y s + dY)) (y s + h s - minSize) in
      mkRect (x s) newYT (w s) (h s - (newYT - y s))
  | V21.b =>
      mkRect (x s) (y s) (w s)
             (Math.max minSize (Math.min (100 - y s) (h s + dY)))
  | V21.tl =>
      let newXTL := Math.min (Math.max 0 (x s + dX)) (x s + w s - minSize) in
      let newYTL := Math.min (Math.max 0 (y s + dY)) (y s + h s - minSize) in
      mkRect newXTL newYTL (w s - (newXTL - x s)) (h s - (newYTL - y s))
  | V21.tr =>
      let newYTR := Math.min (Math.max 0 (y s + dY)) (y s + h s - minSize) in
      mkRect (x s) newYTR
             (Math.max minSize (Math.min (100 - x s) (w s + dX)))
             (h s - (newYTR - y s))
  | V21.bl =>
      let newXBL := Math.min (Math.max 0 (x s + dX)) (x s + w s - minSize) in
      mkRect newXBL (y s) (w s - (newXBL - x s))
             (Math.max minSize (Math.min (100 - y s) (h s + dY)))
  | V21.br =>
      mkRect (x s) (y s)
             (Math.max minSize (Math.min (100 - x s) (w s + dX)))
             (Math.max minSize (Math.min (100 - y s) (h s + dY)))
  end.

(** [dX = (deltaXPix / containerW) * 100]. *)
Definition dXof (e start : Pos) (c : DOMRect) : float :=
  ((clientX e - clientX start) / width c) * 100.
Definition dYof (e start : Pos) (c : DOMRect) : float :=
  ((clientY e - clientY start) / height c) * 100.

Definition handlePointerDown (type : V21.HandleType) (e : Pos)
  (st : CropOverlay) : CropOverlay :=
  mkOverlay (Some type) (Some e) (cropRect st) (cropRect st).

Definition handlePointerMove (e : Pos) (container : option DOMRect)
  (st : CropOverlay) : CropOverlay :=
  match activeHandle st, startPosRef st, container with
  | Some hd, Some start, Some c =>
      if (width c =? 0) || (height c =? 0) then st
      else
        mkOverlay (activeHandle st) (startPosRef st) (startRectRef st)
                  (newRect hd (startRectRef st) (dXof e start c) (dYof e start c))
  | _, _, _ => st
  end.

Definition handlePointerUp (st : CropOverlay) : CropOverlay :=
  match activeHandle st with
  | Some _ => mkOverlay None None (startRectRef st) (cropRect st)
  | None => st
  end.

Definition mount : CropOverlay := mkOverlay None None fullFrame fullFrame.

Definition remount (st : CropOverlay) : CropOverlay :=
  mkOverlay None None (cropRect st) (cropRect st).

(** The six inequalities, on the doubles as the code holds them. *)
Definition valid (r : CropRect) : bool :=
  (0 <=? x r) && (0 <=? y r) && (right r <=? 100) && (bottom r <=? 100) &&
  (minSize <=? w r) && (minSize <=? h r).

(** No operation of the rule for the left (top) edge rounds: [p] is the
    anchored position, [len] the anchored extent, [d] the delta. *)
Definition exactLow (p len d : float) : Prop :=
  exactAdd p d /\ exactAdd p len /\ exactSub (p + len) minSize /\
  let n := Math.min (Math.max 0 (p + d)) (p + len - minSize) in
  exactSub n p /\ exactSub len (n - p).

(** No operation of the rule for the right (bottom) edge rounds. *)
Definition exactHigh (p len d : float) : Prop :=
  exactSub 100 p /\ exactAdd len d.

(** No operation of [newRect] rounds. *)
Definition exactUpdate (hd : V21.HandleType) (s : CropRect) (dX dY : float)
  : Prop :=
  match hd with
  | V21.l => exactLow (x s) (w s) dX
  | V21.r => exactHigh (x s) (w s) dX
  | V21.t => exactLow (y s) (h s) dY
  | V21.b => exactHigh (y s) (h s) dY
  | V21.tl => exactLow (x s) (w s) dX /\ exactLow (y s) (h s) dY
  | V21.tr => exactHigh (x s) (w s) dX /\ exactLow (y s) (h s) dY
  | V21.bl => exactLow (x s) (w s) dX /\ exactHigh (y s) (h s) dY
  | V21.br => exactHigh (x s) (w s) dX /\ exactHigh (y s) (h s) dY
  end.

Inductive Event : Type :=
| PointerDown (type : V21.HandleType) (e : Pos)
| PointerMove (e : Pos) (container : option DOMRect)
| PointerUp
| Remount.

Definition handle (ev : Event) (st : CropOverlay) : CropOverlay :=
  match ev with
  | PointerDown type e => handlePointerDown type e st
  | PointerMove e c => handlePointerMove e c st
  | PointerUp => handlePointerUp st
  | Remount => remount st
  end.

Definition run (evs : list Event) (st : CropOverlay) : CropOverlay :=
  fold_left (fun s ev => handle ev s) evs st.

(** The update this event makes, if it makes one, does not round. *)
Definition exactEvent (ev : Event) (st : CropOverlay) : Prop :=
  match ev, activeHandle st, startPosRef st with
  | PointerMove e (Some c), Some hd, Some start =>
      (width c =? 0) || (height c =? 0) = false ->
      exactUpdate hd (startRectRef st) (dXof e start c) (dYof e start c)
  | _, _, _ => True
  end.

(** No update of the run rounds. *)
Fixpoint exactRun (evs : list Event) (st : CropOverlay) : Prop :=
  match evs with
  | [] => True
  | ev :: rest => exactEvent ev st /\ exactRun rest (handle ev st)
  end.

(** [cropX], [cropY], [cropW], [cropH] of [applyCrop]: the products as
    the doubles they are, from the [cropRect] state and the size of the
    canvas. *)
Definition cropX (rc : CropRect) (canvas : Bitmap.t) : float :=
  (x rc / 100) * ofZ (Bitmap.width canvas).
Definition cropY (rc : CropRect) (canvas : Bitmap.t) : float :=
  (y rc / 100) * ofZ (Bitmap.height canvas).
Definition cropW (rc : CropRect) (canvas : Bitmap.t) : float :=
  (w rc / 100) * ofZ (Bitmap.width canvas).
Definition cropH (rc : CropRect) (canvas : Bitmap.t) : float :=
  (h rc / 100) * ofZ (Bitmap.height canvas).

Section Editor.

Context {platform : Rasterizer}.

(** [applyCrop()] as [V21.applyCrop], with the [cropRect] state [rc]
    and the four products in doubles.  The canvas operations receive
    the numbers these doubles stand for.  [drawImage] returns without
    drawing when one of its arguments is not a number, and the [width]
    and [height] of a canvas are set to [0] by such an argument. *)
Definition applyCrop (rc : CropRect) (st : V21.App) : V21.App :=
  match V21.canvas st, V21.originalImageObj st with
  | Some cv, Some _ =>
      let cropX := cropX rc cv in
      let cropY := cropY rc cv in
      let cropW := cropW rc cv in
      let cropH := cropH rc cv in
      let tempW := toUnsignedLong (value cropW) in
      let tempH := toUnsignedLong (value cropH) in
      let tempCanvas :=
        if finite cropX && finite cropY && finite cropW && finite cropH
        then drawImage9 cv (value cropX) (value cropY) (value cropW)
                        (value cropH) 0 0 (value cropW) (value cropH)
                        (Bitmap.blank tempW tempH)
        else Bitmap.blank tempW tempH in
      if (tempW =? 0)%Z || (tempH =? 0)%Z then st
      else
        V21.renderImage
          (V21.mkApp (Some tempCanvas) (Some tempCanvas) V21.none false
                     (V21.brushColor st) (V21.brushSize st)
                     (V21.mosaicType st) (V21.appCropRect st)
                     (V21.canvas st) (V21.isDrawing st) (V21.lastPos st))
  | _, _ => st
  end.

End Editor.

End V21d.

(** ** v1.2.0 *)

Module V12d.

Import F64.
Local Open Scope float_scope.

Definition minSize : float := 5.

(** The [if]-chain of [handleMove], over the anchored rectangle
    [s = startRect]. *)
Definition newRect (mode : V12.Mode) (s : CropRect) (dX dY : float)
  : CropRect :=
  match mode with
  | V12.move =>
      mkRect (Math.max 0 (Math.min (100 - w s) (x s + dX)))
             (Math.max 0 (Math.min (100 - h s) (y s + dY))) (w s) (h s)
  | V12.br =>
      mkRect (x s) (y s)
             (Math.max minSize (Math.min (100 - x s) (w s + dX)))
             (Math.max minSize (Math.min (100 - y s) (h s + dY)))
  | V12.bl =>
      let maxDX := w s - minSize in
      let effectiveDX := Math.max (- x s) (Math.min maxDX dX) in
      mkRect (x s + effectiveDX) (y s) (w s - effectiveDX)
             (Math.max minSize (Math.min (100 - y s) (h s + dY)))
  | V12.tr =>
      let maxDY := h s - minSize in
      let effectiveDY := Math.max (- y s) (Math.min maxDY dY) in
      mkRect (x s) (y s + effectiveDY)
             (Math.max minSize (Math.min (100 - x s) (w s + dX)))
             (h s - effectiveDY)
  | V12.tl =>
      let maxDX := w s - minSize in
      let effectiveDX := Math.max (- x s) (Math.min maxDX dX) in
      let maxDY := h s - minSize in
      let effectiveDY := Math.max (- y s) (Math.min maxDY dY) in
      mkRect (x s + effectiveDX) (y s + effectiveDY)
             (w s - effectiveDX) (h s - effectiveDY)
  | V12.r =>
      mkRect (x s) (y s) (Math.max minSize (Math.min (100 - x s) (w s + dX)))
             (h s)
  | V12.l =>
      let maxDX := w s - minSize in
      let effectiveDX := Math.max (- x s) (Math.min maxDX dX) in
      mkRect (x s + effectiveDX) (y s) (w s - effectiveDX) (h s)
  | V12.b =>
      mkRect (x s) (y s) (w s)
             (Math.max minSize (Math.min (100 - y s) (h s + dY)))
  | V12.t =>
      let maxDY := h s - minSize in
      let effectiveDY := Math.max (- y s) (Math.min maxDY dY) in
      mkRect (x s) (y s + effectiveDY) (w s) (h s - effectiveDY)
  end.

Definition dXof (e start : Pos) (c : DOMRect) : float :=
  ((clientX e - clientX start) / width c) * 100.
Definition dYof (e start : Pos) (c : DOMRect) : float :=
  ((clientY e - clientY start) / height c) * 100.

Record CropOverlay : Type := mkOverlay {
  interactionMode : option V12.Mode;
  startPos : option Pos;
  startRect : CropRect;
  cropRect : CropRect
}.

Definition handleStart (mode : option V12.Mode) (e : Pos)
  (st : CropOverlay) : CropOverlay :=
  mkOverlay mode (Some e) (cropRect st) (cropRect st).

Definition handleMove (e : Pos) (container : option DOMRect)
  (st : CropOverlay) : CropOverlay :=
  match interactionMode st, startPos st, container with
  | Some mode, Some start, Some c =>
      mkOverlay (interactionMode st) (startPos st) (startRect st)
                (newRect mode (startRect st) (dXof e start c) (dYof e start c))
  | _, _, _ => st
  end.

Definition handleEnd (st : CropOverlay) : CropOverlay :=
  mkOverlay None None (startRect st) (cropRect st).

Definition mount : CropOverlay := mkOverlay None None fullFrame fullFrame.

Definition remount (st : CropOverlay) : CropOverlay :=
  mkOverlay None None (cropRect st) (cropRect st).

Definition valid (r : CropRect) : bool :=
  (0 <=? x r) && (0 <=? y r) && (right r <=? 100) && (bottom r <=? 100) &&
  (minSize <=? w r) && (minSize <=? h r).

(** No operation of the [move] rule rounds, on one axis. *)
Definition exactMove (p len d : float) : Prop :=
  exactSub 100 len /\ exactAdd p d.

(** No operation of the rule for the left (top) edge rounds, and its
    inputs are numbers. *)
Definition exactLow (p len d : float) : Prop :=
  finite p = true /\ finite d = true /\ exactSub len minSize /\
  let effectiveD := Math.max (- p) (Math.min (len - minSize) d) in
  exactAdd p effectiveD /\ exactSub len effectiveD.

Definition exactHigh (p len d : float) : Prop :=
  exactSub 100 p /\ exactAdd len d.

(** No operation of [newRect] rounds. *)
Definition exactUpdate (mode : V12.Mode) (s : CropRect) (dX dY : float)
  : Prop :=
  match mode with
  | V12.move => exactMove (x s) (w s) dX /\ exactMove (y s) (h s) dY
  | V12.l => exactLow (x s) (w s) dX
  | V12.r => exactHigh (x s) (w s) dX
  | V12.t => exactLow (y s) (h s) dY
  | V12.b => exactHigh (y s) (h s) dY
  | V12.tl => exactLow (x s) (w s) dX /\ exactLow (y s) (h s) dY
  | V12.tr => exactHigh (x s) (w s) dX /\ exactLow (y s) (h s) dY
  | V12.bl => exactLow (x s) (w s) dX /\ exactHigh (y s) (h s) dY
  | V12.br => exactHigh (x s) (w s) dX /\ exactHigh (y s) (h s) dY
  end.

Inductive Event : Type :=
| Start (mode : option V12.Mode) (e : Pos)
| Move (e : Pos) (container : option DOMRect)
| End_
| Remount.

Definition handle (ev : Event) (st : CropOverlay) : CropOverlay :=
  match ev with
  | Start mode e => handleStart mode e st
  | Move e c => handleMove e c st
  | End_ => handleEnd st
  | Remount => remount st
  end.

Definition run (evs : list Event) (st : CropOverlay) : CropOverlay :=
  fold_left (fun s ev => handle ev s) evs st.

Definition exactEvent (ev : Event) (st : CropOverlay) : Prop :=
  match ev, interactionMode st, startPos st with
  | Move e (Some c), Some mode, Some start =>
      exactUpdate mode (startRect st) (dXof e start c) (dYof e start c)
  | _, _, _ => True
  end.

Fixpoint exactRun (evs : list Event) (st : CropOverlay) : Prop :=
  match evs with
  | [] => True
  | ev :: rest => exactEvent ev st /\ exactRun rest (handle ev st)
  end.

End V12d.

(** ** v1.3.0 *)

Module V13d.

Import F64.
Local Open Scope float_scope.

Definition minSize : float := 1.

Record CropOverlay : Type := mkOverlay {
  interactionMode : option V13.Mode;
  startRect : CropRect;
  startPosRef : option Pos;
  startRectRef : CropRect;
  cropRect : CropRect
}.

(** [((clientX - left) / width) * 100]: the pointer position as a
    percentage of the container, before it is clamped. *)
Definition rawXPct (e : Pos) (c : DOMRect) : float :=
  ((clientX e - left c) / width c) * 100.
Definition rawYPct (e : Pos) (c : DOMRect) : float :=
  ((clientY e - top c) / height c) * 100.

Definition mouseXPct (e : Pos) (c : DOMRect) : float :=
  Math.max 0 (Math.min 100 (rawXPct e c)).
Definition mouseYPct (e : Pos) (c : DOMRect) : float :=
  Math.max 0 (Math.min 100 (rawYPct e c)).

(** The [switch (interactionMode)] of [handleMove], over the live
    [cropRect] [s]. *)
Definition newRect (mode : V13.Mode) (s : CropRect) (mx my : float)
  : CropRect :=
  let currentRight := x s + w s in
  let currentBottom := y s + h s in
  match mode with
  | V13.move => s
  | V13.l =>
      let newLeftL := Math.min mx (currentRight - minSize) in
      mkRect newLeftL (y s) (currentRight - newLeftL) (h s)
  | V13.r =>
      let newRightR := Math.max (x s + minSize) mx in
      mkRect (x s) (y s) (newRightR - x s) (h s)
  | V13.t =>
      let newTopT := Math.min my (currentBottom - minSize) in
      mkRect (x s) newTopT (w s) (currentBottom - newTopT)
  | V13.b =>
      let newBottomB := Math.max (y s + minSize) my in
      mkRect (x s) (y s) (w s) (newBottomB - y s)
  | V13.tl =>
      let newLeftTL := Math.min mx (currentRight - minSize) in
      let newTopTL := Math.min my (currentBottom - minSize) in
      mkRect newLeftTL newTopTL (currentRight - newLeftTL)
             (currentBottom - newTopTL)
  | V13.tr =>
      let newRightTR := Math.max (x s + minSize) mx in
      let newTopTR := Math.min my (currentBottom - minSize) in
      mkRect (x s) newTopTR (newRightTR - x s) (currentBottom - newTopTR)
  | V13.bl =>
      let newLeftBL := Math.min mx (currentRight - minSize) in
      let newBottomBL := Math.max (y s + minSize) my in
      mkRect newLeftBL (y s) (currentRight - newLeftBL) (newBottomBL - y s)
  | V13.br =>
      let newRightBR := Math.max (x s + minSize) mx in
      let newBottomBR := Math.max (y s + minSize) my in
      mkRect (x s) (y s) (newRightBR - x s) (newBottomBR - y s)
  end.

Definition setCropRect (rc : CropRect) (st : CropOverlay) : CropOverlay :=
  mkOverlay (interactionMode st) (startRect st) (startPosRef st)
            (startRectRef st) rc.

Definition handleMove (e : Pos) (container : option DOMRect)
  (st : CropOverlay) : CropOverlay :=
  match interactionMode st, container with
  | Some mode, Some c =>
      let rc := newRect mode (cropRect st) (mouseXPct e c) (mouseYPct e c) in
      match mode, startPosRef st with
      | V13.move, Some _ => st
      | _, _ => setCropRect rc st
      end
  | _, _ => st
  end.

Definition handleStart (mode : option V13.Mode) (e : Pos)
  (st : CropOverlay) : CropOverlay :=
  mkOverlay mode (startRect st) (Some e) (cropRect st) (cropRect st).

Definition dXof (e start : Pos) (c : DOMRect) : float :=
  ((clientX e - clientX start) / width c) * 100.
Definition dYof (e start : Pos) (c : DOMRect) : float :=
  ((clientY e - clientY start) / height c) * 100.

(** The [move] rule of [handleMoveWithMode], over the anchored
    rectangle [s]. *)
Definition moved (s : CropRect) (dX dY : float) : CropRect :=
  mkRect (Math.max 0 (Math.min (100 - w s) (x s + dX)))
         (Math.max 0 (Math.min (100 - h s) (y s + dY))) (w s) (h s).

Definition handleMoveWithMode (e : Pos) (container : option DOMRect)
  (st : CropOverlay) : CropOverlay :=
  match interactionMode st with
  | None => st
  | Some mode =>
      match mode, startPosRef st, container with
      | V13.move, Some start, Some c =>
          setCropRect
            (moved (startRectRef st) (dXof e start c) (dYof e start c)) st
      | _, _, _ => handleMove e container st
      end
  end.

Definition handleEnd (st : CropOverlay) : CropOverlay :=
  mkOverlay None (startRect st) (startPosRef st) (startRectRef st)
            (cropRect st).

Definition mount : CropOverlay :=
  mkOverlay None fullFrame None fullFrame fullFrame.

Definition remount (st : CropOverlay) : CropOverlay :=
  mkOverlay None (cropRect st) None (cropRect st) (cropRect st).

Inductive Event : Type :=
| Start (mode : option V13.Mode) (e : Pos)
| Move (e : Pos) (container : option DOMRect)
| End_
| Remount.

Definition handle (ev : Event) (st : CropOverlay) : CropOverlay :=
  match ev with
  | Start mode e => handleStart mode e st
  | Move e c => handleMoveWithMode e c st
  | End_ => handleEnd st
  | Remount => remount st
  end.

Definition run (evs : list Event) (st : CropOverlay) : CropOverlay :=
  fold_left (fun s ev => handle ev s) evs st.

(** No operation of the rule for the left (top) edge rounds: [p] is the
    live position, [len] the live extent, [m] the pointer. *)
Definition exactLow (p len m : float) : Prop :=
  finite m = true /\ exactAdd p len /\ exactSub (p + len) minSize /\
  exactSub (p + len) (Math.min m (p + len - minSize)).

(** No operation of the rule for the right (bottom) edge rounds. *)
Definition exactHigh (p len m : float) : Prop :=
  finite m = true /\ exactAdd p minSize /\
  exactSub (Math.max (p + minSize) m) p.

Definition exactUpdate (mode : V13.Mode) (s : CropRect) (mx my : float)
  : Prop :=
  match mode with
  | V13.move => True
  | V13.l => exactLow (x s) (w s) mx
  | V13.r => exactHigh (x s) (w s) mx
  | V13.t => exactLow (y s) (h s) my
  | V13.b => exactHigh (y s) (h s) my
  | V13.tl => exactLow (x s) (w s) mx /\ exactLow (y s) (h s) my
  | V13.tr => exactHigh (x s) (w s) mx /\ exactLow (y s) (h s) my
  | V13.bl => exactLow (x s) (w s) mx /\ exactHigh (y s) (h s) my
  | V13.br => exactHigh (x s) (w s) mx /\ exactHigh (y s) (h s) my
  end.

(** No operation of the [move] rule rounds. *)
Definition exactMoved (s : CropRect) (dX dY : float) : Prop :=
  (exactSub 100 (w s) /\ exactAdd (x s) dX) /\
  (exactSub 100 (h s) /\ exactAdd (y s) dY).

(** The update this event makes, if it makes one, does not round, and
    the pointer's percentages are numbers. *)
Definition exactEvent (ev : Event) (st : CropOverlay) : Prop :=
  match ev, interactionMode st with
  | Move e (Some c), Some V13.move =>
      match startPosRef st with
      | Some start =>
          exactMoved (startRectRef st) (dXof e start c) (dYof e start c)
      | None => True
      end
  | Move e (Some c), Some mode =>
      finite (rawXPct e c) = true /\ finite (rawYPct e c) = true /\
      exactUpdate mode (cropRect st) (mouseXPct e c) (mouseYPct e c)
  | _, _ => True
  end.

Fixpoint exactRun (evs : list Event) (st : CropOverlay) : Prop :=
  match evs with
  | [] => True
  | ev :: rest => exactEvent ev st /\ exactRun rest (handle ev st)
  end.

End V13d.

(* ================================================================== *)
(** * Crop geometry: the notions the theorems use *)
(* ================================================================== *)



Definition V13d_inv (st : V13d.CropOverlay) : Prop :=
  validRect64 V13.minSize (V13d.cropRect st) /\
  validRect64 V13.minSize (V13d.startRectRef st).

(** A percentage that is a number of the frame. *)
Definition inFrame (m : float) : Prop :=
  F64.finite m = true /\ (0 <= F64.value m <= 100)%Q.

(** A corner handle composes a horizontal and a vertical edge rule:
    its [x], [w] are the doubles of the horizontal edge's rule
    (whatever the vertical delta) and its [y], [h] those of the
    vertical edge's rule (whatever the horizontal delta). *)
Definition V21d_composes (corner hEdge vEdge : V21.HandleType) : Prop :=
  forall (s : F64.CropRect) (dX dY dX' dY' : float),
    F64.x (V21d.newRect corner s dX dY) = F64.x (V21d.newRect hEdge s dX dY') /\
    F64.w (V21d.newRect corner s dX dY) = F64.w (V21d.newRect hEdge s dX dY') /\
    F64.y (V21d.newRect corner s dX dY) = F64.y (V21d.newRect vEdge s dX' dY) /\
    F64.h (V21d.newRect corner s dX dY) = F64.h (V21d.newRect vEdge s dX' dY).

(* ================================================================== *)
(** * The obfuscation filter: the notions the theorems use *)
(* ================================================================== *)

(** [pixel] mode works on integers: the clamped origin of the grid
    cell of [v], and the clamped sample size along an axis of the given
    extent. *)
Definition gridStart (v : Q) (size : Z) : Z :=
  Z.max 0 (Qfloor (v / V21.effectSizeOf size) * (size * 4)).

Definition gridSample (extent : Z) (v : Q) (size : Z) : Z :=
  Z.min (size * 4) (extent - gridStart v size).

(** The clamped sample rectangle of a call, as [applyMosaicEffect]
    computes it. *)
Definition sampleWOf (ctx : Bitmap.t) (x : Q) (size : Z)
  (type : V21.MosaicType) : Q :=
  V21.sampleOf (V21.effectSizeOf size) (Bitmap.width ctx)
               (V21.startOf type x (V21.effectSizeOf size)).

Definition sampleHOf (ctx : Bitmap.t) (y : Q) (size : Z)
  (type : V21.MosaicType) : Q :=
  V21.sampleOf (V21.effectSizeOf size) (Bitmap.height ctx)
               (V21.startOf type y (V21.effectSizeOf size)).

(** The sample is non-empty: it passes the guard of the source. *)
Definition sampleNonEmpty (ctx : Bitmap.t) (x y : Q) (size : Z)
  (type : V21.MosaicType) : Prop :=
  (0 < sampleWOf ctx x size type /\ 0 < sampleHOf ctx y size type)%Q.

(** The sample is at least one pixel wide and one pixel high. *)
Definition sampleWholePixel (ctx : Bitmap.t) (x y : Q) (size : Z)
  (type : V21.MosaicType) : Prop :=
  (1 <= sampleWOf ctx x size type /\ 1 <= sampleHOf ctx y size type)%Q.

(** The averaging loop of a call runs at least once and yields a
    colour: [getImageData] returns, [count > 0] when the loop ends, the
    division is by that positive [count], and the channels of the fill
    colour are bytes. *)
Definition fillColourWellFormed (ctx : Bitmap.t) (x y : Q) (size : Z)
  (type : V21.MosaicType) : Prop :=
  let effectSize := V21.effectSizeOf size in
  exists (data : list Z) (r g b count : Z),
    getImageData ctx (V21.startOf type x effectSize)
                 (V21.startOf type y effectSize)
                 (sampleWOf ctx x size type) (sampleHOf ctx y size type) =
      Returned data /\
    V21.sumLoop data = (r, g, b, count) /\
    (0 < count)%Z /\
    V21.averageOf data = (r / count, g / count, b / count)%Z /\
    byte (r / count) /\ byte (g / count) /\ byte (b / count) /\
    V21.rgb (V21.averageOf data) =
      mkPixel (r / count) (g / count) (b / count) 255.

(** The spec's words for the average: "reading every 4th pixel of the
    sample", that is the pixels at positions 0, 4, 8, ... of the sample
    taken row by row, and the floor of the mean of each channel. *)
Definition everyFourth (ps : list Pixel) : list Pixel :=
  map (fun k => nth (4 * k) ps transparentBlack)
      (seq 0 ((length ps + 3) / 4)).

Definition sumZ (l : list Z) : Z := fold_right Z.add 0%Z l.

Definition meanEveryFourth (ps : list Pixel) : Z * Z * Z :=
  let sel := everyFourth ps in
  let n := Z.of_nat (length sel) in
  (sumZ (map red sel) / n, sumZ (map green sel) / n,
   sumZ (map blue sel) / n)%Z.

(** What the claim on [pixel] mode says of one call, for the block at
    [(startX, startY)] of side [effectSize]: the call returns a bitmap
    of the same size in which every pixel of the block is the opaque
    mean colour of the clamped sample, and every other pixel is
    untouched. *)
Definition mosaicBlock {platform : Rasterizer} (ctx : Bitmap.t) (x y : Q)
  (size startX startY effectSize : Z) : Prop :=
  let sampleW := Z.min effectSize (Bitmap.width ctx - startX) in
  let sampleH := Z.min effectSize (Bitmap.height ctx - startY) in
  exists ctx',
    V21.applyMosaicEffect ctx x y size V21.pixel = Returned ctx' /\
    Bitmap.width ctx' = Bitmap.width ctx /\
    Bitmap.height ctx' = Bitmap.height ctx /\
    length (Bitmap.pixels ctx') = length (Bitmap.pixels ctx) /\
    forall px py, Bitmap.inside ctx px py = true ->
      if ((startX <=? px) && (px <? startX + effectSize) &&
          (startY <=? py) && (py <? startY + effectSize))%Z
      then
        (0 < sampleW)%Z /\ (0 < sampleH)%Z /\
        let '(r, g, b) :=
          meanEveryFourth (regionPixels ctx startX startY sampleW sampleH) in
        byte r /\ byte g /\ byte b /\
        Bitmap.getPixel ctx' px py = mkPixel r g b 255
      else Bitmap.getPixel ctx' px py = Bitmap.getPixel ctx px py.

(* ================================================================== *)
(** * The eraser: the notions the theorems use *)
(* ================================================================== *)

(** The square of pixel [(px, py)] lies within the closed disc. *)
Definition squareInDisc (cx cy radius : Q) (px py : Z) : Prop :=
  forall qx qy : Q,
    inject_Z px <= qx <= inject_Z px + 1 ->
    inject_Z py <= qy <= inject_Z py + 1 ->
    sq (qx - cx) + sq (qy - cy) <= sq radius.

(** No point of the square of pixel [(px, py)] is inside the disc. *)
Definition squareOffDisc (cx cy radius : Q) (px py : Z) : Prop :=
  forall qx qy : Q,
    inject_Z px <= qx <= inject_Z px + 1 ->
    inject_Z py <= qy <= inject_Z py + 1 ->
    sq radius <= sq (qx - cx) + sq (qy - cy).

(** One eraser step at [(x, y)], as the claim on the eraser states it:
    the step returns, and every pixel within the circle of radius
    [brushSize * 5], whatever the original holds there, becomes the
    original's pixel. *)
Definition eraserRestoresAll {platform : Rasterizer} (st : V21.App)
  (ctx img : Bitmap.t) (x y : Q) : Prop :=
  exists st' ctx',
    V21.draw x y st = Returned st' /\ V21.canvas st' = Some ctx' /\
    forall px py,
      Bitmap.inside ctx px py = true -> Bitmap.inside img px py = true ->
      squareInDisc x y (inject_Z (V21.brushSize st * 5)) px py ->
      Bitmap.getPixel ctx' px py = Bitmap.getPixel img px py.

(* ================================================================== *)
(** * Further notions: strokes, the v1.2.0 mosaic, loading and cropping *)
(* ================================================================== *)

(** The floored channel means over all of [ps]. *)
Definition meanAll (ps : list Pixel) : Z * Z * Z :=
  let n := Z.of_nat (length ps) in
  (sumZ (map red ps) / n, sumZ (map green ps) / n, sumZ (map blue ps) / n)%Z.

(** The line segments through [pts], begun at [last], stroked one after
    the other. *)
Fixpoint polyline {platform : Rasterizer} (colour : Pixel) (size : Z)
  (last : Q * Q) (pts : list (Q * Q)) (ctx : Bitmap.t) : Bitmap.t :=
  match pts with
  | [] => ctx
  | p :: rest =>
      polyline colour size p rest (strokeLine last p colour size ctx)
  end.

(** The events that change nothing while no drag is under way. *)
Definition sliderIdle (ev : V21.TouchSlider.Event) : Prop :=
  match ev with
  | V21.TouchSlider.PointerDown _ _ => False
  | _ => True
  end.

Definition overlayIdle (ev : V21.Event) : Prop :=
  match ev with
  | V21.PointerDown _ _ => False
  | _ => True
  end.

(** The fields no stroke handler writes. *)
Definition sameSettings (a b : V21.App) : Prop :=
  V21.imageSrc a = V21.imageSrc b /\
  V21.originalImageObj a = V21.originalImageObj b /\
  V21.activeTool a = V21.activeTool b /\
  V21.brushColor a = V21.brushColor b /\
  V21.brushSize a = V21.brushSize b /\
  V21.mosaicType a = V21.mosaicType b /\
  V21.appCropRect a = V21.appCropRect b.

(** A bitmap with the same frame as another. *)
Definition sameFrame (a b : Bitmap.t) : Prop :=
  Bitmap.width a = Bitmap.width b /\ Bitmap.height a = Bitmap.height b /\
  length (Bitmap.pixels a) = length (Bitmap.pixels b).

(** A pixel a canvas holds as it was decoded: opaque, or transparent
    black.  (The canvas stores colours multiplied by alpha, so the
    colour of a partly transparent pixel can come back changed, and
    that of a fully transparent one comes back black.) *)
Definition opaqueOrClear (p : Pixel) : bool :=
  (alpha p =? 255) ||
  ((alpha p =? 0) && (red p =? 0) && (green p =? 0) && (blue p =? 0)).

Definition withoutBlending (img : Bitmap.t) : bool :=
  forallb opaqueOrClear (Bitmap.pixels img).

(** The double [f] is the integer [z]. *)
Definition isPixel (f : float) (z : Z) : Prop :=
  F64.finite f = true /\ (F64.value f == inject_Z z)%Q.

(** An event that does not grab a handle, in doubles. *)
Definition overlayIdle64 (ev : V21d.Event) : Prop :=
  match ev with
  | V21d.PointerDown _ _ => False
  | _ => True
  end.

(* ================================================================== *)
(** * Sample inputs *)
(* ================================================================== *)

(** Sample inputs of the canvas theorems. *)
Definition grey : Pixel := mkPixel 128 128 128 255.
Definition opaqueRed : Pixel := mkPixel 255 0 0 255.

Definition bitmap_4x2 : Bitmap.t :=
  Bitmap.mk 4 2
    [mkPixel 10 20 30 255; mkPixel 40 50 60 255;
     mkPixel 70 80 90 255; mkPixel 100 110 120 255;
     mkPixel 130 140 150 255; mkPixel 160 170 180 255;
     mkPixel 190 200 210 255; mkPixel 220 230 240 128].

Definition bitmap_200x100 : Bitmap.t := Bitmap.uniform 200 100 grey.

(** An editor in the middle of a stroke with the given tool. *)
Definition strokingApp (tool : V21.Tool) (size : Z) (type : V21.MosaicType)
  (original : option Bitmap.t) (ctx : Bitmap.t) : V21.App :=
  V21.mkApp (Some ctx) original tool false opaqueRed size type fullFrame
            (Some ctx) true (Some (0, 0)).

(** An original with a transparent left pixel, and the canvas after a
    red brush stroke over both pixels. *)
Definition original_2x1 : Bitmap.t := Bitmap.mk 2 1 [transparentBlack; grey].
Definition painted_2x1 : Bitmap.t := Bitmap.mk 2 1 [opaqueRed; opaqueRed].

(** Sample inputs of the crop theorems. *)
Definition rect_10_10_50_50 : CropRect := mkRect 10 10 50 50.
Definition rect_20_10_60_50 : CropRect := mkRect 20 10 60 50.
Definition container_200_100 : DOMRect := mkDOMRect 0 0 200 100.
Definition slider_rect : DOMRect := mkDOMRect 40 600 150 40.
Definition idleApp (tool : V21.Tool) (ctx : Bitmap.t) : V21.App :=
  V21.mkApp (Some ctx) (Some ctx) tool true opaqueRed 20 V21.pixel fullFrame
            (Some ctx) false None.
Definition rect_25_0_50_50 : CropRect := mkRect 25 0 50 50.

(** Sample inputs in doubles. *)
Definition rect64_10_10_50_50 : F64.CropRect := F64.mkRect 10 10 50 50.
Definition rect64_20_10_40_50 : F64.CropRect := F64.mkRect 20 10 40 50.
Definition rect64_25_0_50_50 : F64.CropRect := F64.mkRect 25 0 50 50.
Definition container64_200_100 : F64.DOMRect := F64.mkDOMRect 0 0 200 100.
Definition container64_300_300 : F64.DOMRect := F64.mkDOMRect 0 0 300 300.

(** A gesture on a handle of the v2.1.0 overlay: the press, one move,
    the re-mount the move causes, the release. *)
Definition gesture64 (hd : V21.HandleType) (down e : F64.Pos)
  (c : F64.DOMRect) : list V21d.Event :=
  [V21d.PointerDown hd down; V21d.PointerMove e (Some c); V21d.Remount;
   V21d.PointerUp].




(** The same of the top left corner. *)
Definition nudge64_tl : list V21d.Event :=
  gesture64 V21.tl (F64.mkPos 0 0) (F64.mkPos 1 1) container64_300_300.
Definition nudge64_tl_again : list V21d.Event :=
  gesture64 V21.tl (F64.mkPos 1 1) (F64.mkPos 2 2) container64_300_300.


(** In v1.3.0: the left edge dragged to a quarter of the frame, then
    the rectangle moved up and to the left. *)
Definition drag13 : list V13d.Event :=
  [V13d.Start (Some V13.l) (F64.mkPos 0 50);
   V13d.Move (F64.mkPos 50 50) (Some container64_200_100);
   V13d.Remount; V13d.End_;
   V13d.Start (Some V13.move) (F64.mkPos 100 50);
   V13d.Move (F64.mkPos 50 75) (Some container64_200_100);
   V13d.Remount; V13d.End_].

(** A picture of opaque pixels. *)
Definition photo_4x2 : Bitmap.t :=
  Bitmap.mk 4 2
    [mkPixel 10 20 30 255; mkPixel 40 50 60 255;
     mkPixel 70 80 90 255; mkPixel 100 110 120 255;
     mkPixel 130 140 150 255; mkPixel 160 170 180 255;
     mkPixel 190 200 210 255; mkPixel 220 230 240 255].
Definition croppingApp (rc : CropRect) (ctx : Bitmap.t) : V21.App :=
  V21.mkApp (Some ctx) (Some ctx) V21.crop true opaqueRed 20 V21.pixel rc
            (Some ctx) false None.

Local Open Scope Q_scope.

(* ================================================================== *)
(** * Crop geometry on exact numbers: the invariant *)
(* ================================================================== *)

(** On exact numbers every update keeps the six inequalities.  The
    updates in doubles inherit this when they do not round (below). *)



Lemma fullFrame_valid (minSize : Q) :
  minSize <= 100 -> validRect minSize fullFrame.
Proof. unfold validRect, fullFrame; simpl; intros; repeat split; lra. Qed.

(* ================================================================== *)
(** * Doubles: the numbers they stand for *)
(* ================================================================== *)

Local Open Scope Z_scope.

(** The comparison of two doubles that are numbers is the comparison of
    their numerators; [Math.max] and [Math.min] of such doubles are
    [Qmax] and [Qmin] of the numbers they stand for. *)
Lemma digits2_pos_bounds (m : positive) :
  2 ^ (Z.pos (digits2_pos m) - 1) <= Z.pos m < 2 ^ Z.pos (digits2_pos m).
Proof.
  induction m as [m IH | m IH |]; cbn [digits2_pos].
  - rewrite Pos2Z.inj_succ. change (Z.pos m~1) with (2 * Z.pos m + 1).
    replace (Z.succ (Z.pos (digits2_pos m)) - 1)
      with (Z.succ (Z.pos (digits2_pos m) - 1)) by lia.
    rewrite !Z.pow_succ_r by lia.
    set (a := 2 ^ (Z.pos (digits2_pos m) - 1)) in *.
    set (b := 2 ^ Z.pos (digits2_pos m)) in *. clearbody a b. lia.
  - rewrite Pos2Z.inj_succ. change (Z.pos m~0) with (2 * Z.pos m).
    replace (Z.succ (Z.pos (digits2_pos m)) - 1)
      with (Z.succ (Z.pos (digits2_pos m) - 1)) by lia.
    rewrite !Z.pow_succ_r by lia.
    set (a := 2 ^ (Z.pos (digits2_pos m) - 1)) in *.
    set (b := 2 ^ Z.pos (digits2_pos m)) in *. clearbody a b. lia.
  - cbn. lia.
Qed.

Lemma valid_finite_bounds (s : bool) (m : positive) (e : Z) :
  valid_binary (S754_finite s m e) = true ->
  -1074 <= e /\ Z.pos m < 2 ^ 53 /\ (-1074 < e -> 2 ^ 52 <= Z.pos m).
Proof.
  unfold SpecFloat.valid_binary, bounded, canonical_mantissa, fexp,
    SpecFloat.emin, prec, emax.
  intros H. apply andb_true_iff in H. destruct H as [H _].
  apply Z.eqb_eq in H.
  assert (D := digits2_pos_bounds m).
  set (d := Z.pos (digits2_pos m)) in *.
  assert (Hd : d <= 53 /\ -1074 <= e /\ (-1074 < e -> d = 53)) by lia.
  destruct Hd as (Hd & He & Hd').
  split; [exact He |]. split.
  - assert (2 ^ d <= 2 ^ 53) by (apply Z.pow_le_mono_r; lia). lia.
  - intros Hlt. rewrite (Hd' Hlt) in D. exact (proj1 D).
Qed.

Lemma scaled_lt (m1 m2 : positive) (e1 e2 : Z) :
  -1074 <= e1 -> e1 < e2 -> Z.pos m1 < 2 ^ 53 -> 2 ^ 52 <= Z.pos m2 ->
  Z.pos m1 * 2 ^ (e1 + 1074) < Z.pos m2 * 2 ^ (e2 + 1074).
Proof.
  intros He He' Hm1 Hm2.
  replace (e2 + 1074) with ((e1 + 1074) + (e2 - e1)) by lia.
  rewrite (Z.pow_add_r 2 (e1 + 1074) (e2 - e1)) by lia.
  assert (P : 0 < 2 ^ (e1 + 1074)) by (apply Z.pow_pos_nonneg; lia).
  assert (T : 2 ^ 1 <= 2 ^ (e2 - e1)) by (apply Z.pow_le_mono_r; lia).
  change (2 ^ 1) with 2 in T. change (2 ^ 53) with (2 * 2 ^ 52) in Hm1.
  set (p := 2 ^ (e1 + 1074)) in *. set (t := 2 ^ (e2 - e1)) in *.
  assert (H52 : 0 < 2 ^ 52) by reflexivity.
  set (h := 2 ^ 52) in *.
  clearbody p t h.
  assert (A1 : Z.pos m1 * p < 2 * h * p) by nia.
  assert (A2 : 0 <= h * p <= Z.pos m2 * p) by nia.
  assert (A3 : (h * p) * 2 <= (Z.pos m2 * p) * t) by nia.
  lia.
Qed.

Lemma SFcompare_num (f1 f2 : spec_float) :
  F64.isNumber f1 = true -> F64.isNumber f2 = true ->
  valid_binary f1 = true -> valid_binary f2 = true ->
  SFcompare f1 f2 = Some (F64.numerator f1 ?= F64.numerator f2).
Proof.
  destruct f1 as [s1 | s1 | | s1 m1 e1]; try discriminate;
    destruct f2 as [s2 | s2 | | s2 m2 e2]; try discriminate;
    intros _ _ V1 V2; cbn [SFcompare F64.numerator].
  - reflexivity.
  - apply valid_finite_bounds in V2. destruct V2 as (He & _).
    assert (P : 0 < 2 ^ (e2 + 1074)) by (apply Z.pow_pos_nonneg; lia).
    f_equal. symmetry. destruct s2.
    + apply Z.compare_gt_iff. nia.
    + apply Z.compare_lt_iff. nia.
  - apply valid_finite_bounds in V1. destruct V1 as (He & _).
    assert (P : 0 < 2 ^ (e1 + 1074)) by (apply Z.pow_pos_nonneg; lia).
    f_equal. symmetry. destruct s1.
    + apply Z.compare_lt_iff. nia.
    + apply Z.compare_gt_iff. nia.
  - apply valid_finite_bounds in V1, V2.
    destruct V1 as (He1 & Hm1 & Hn1). destruct V2 as (He2 & Hm2 & Hn2).
    assert (P1 : 0 < 2 ^ (e1 + 1074)) by (apply Z.pow_pos_nonneg; lia).
    assert (P2 : 0 < 2 ^ (e2 + 1074)) by (apply Z.pow_pos_nonneg; lia).
    f_equal. symmetry.
    destruct s1, s2.
    + destruct (Z.compare_spec e1 e2) as [-> | Hlt | Hgt].
      * change (Z.neg m1) with (- Z.pos m1). change (Z.neg m2) with (- Z.pos m2).
        rewrite !Z.mul_opp_l, Z.compare_opp.
        rewrite <- Zmult_compare_compat_r by lia.
        change (Z.pos m2 ?= Z.pos m1) with (Pos.compare m2 m1).
        rewrite Pos.compare_antisym. reflexivity.
      * apply Z.compare_gt_iff.
        assert (S := scaled_lt m1 m2 e1 e2 He1 Hlt Hm1 (Hn2 ltac:(lia))). lia.
      * apply Z.compare_lt_iff.
        assert (S := scaled_lt m2 m1 e2 e1 He2 ltac:(lia) Hm2 (Hn1 ltac:(lia))). lia.
    + apply Z.compare_lt_iff. nia.
    + apply Z.compare_gt_iff. nia.
    + destruct (Z.compare_spec e1 e2) as [-> | Hlt | Hgt].
      * rewrite <- Zmult_compare_compat_r by lia. reflexivity.
      * apply Z.compare_lt_iff.
        exact (scaled_lt m1 m2 e1 e2 He1 Hlt Hm1 (Hn2 ltac:(lia))).
      * apply Z.compare_gt_iff.
        exact (scaled_lt m2 m1 e2 e1 He2 ltac:(lia) Hm2 (Hn1 ltac:(lia))).
Qed.

Lemma finite_not_nan (f : float) : F64.finite f = true -> is_nan f = false.
Proof.
  unfold F64.finite, Prim2SF. destruct (is_nan f); [discriminate | reflexivity].
Qed.

Lemma ltb_numerator (a b : float) :
  F64.finite a = true -> F64.finite b = true ->
  (a <? b)%float =
  (F64.numerator (Prim2SF a) <? F64.numerator (Prim2SF b)).
Proof.
  intros Ha Hb. rewrite ltb_spec. unfold SFltb.
  rewrite (SFcompare_num _ _ Ha Hb (Prim2SF_valid a) (Prim2SF_valid b)).
  unfold Z.ltb. destruct (_ ?= _); reflexivity.
Qed.

Lemma value_le (a b : float) :
  F64.numerator (Prim2SF a) <= F64.numerator (Prim2SF b) ->
  (F64.value a <= F64.value b)%Q.
Proof.
  intros H. unfold Qle, F64.value. cbn [Qnum Qden].
  apply Z.mul_le_mono_nonneg_r; [apply Pos2Z.is_nonneg | exact H].
Qed.

Lemma max_value (a b : float) :
  F64.finite a = true -> F64.finite b = true ->
  F64.finite (F64.Math.max a b) = true /\
  (F64.value (F64.Math.max a b) == Qmax (F64.value a) (F64.value b))%Q.
Proof.
  intros Ha Hb. unfold F64.Math.max.
  rewrite (finite_not_nan a Ha), (finite_not_nan b Hb). cbn [orb].
  rewrite (ltb_numerator a b Ha Hb), (ltb_numerator b a Hb Ha).
  destruct (Z.ltb_spec (F64.numerator (Prim2SF a)) (F64.numerator (Prim2SF b))).
  - split; [exact Hb |]. rewrite Q.max_r; [reflexivity |].
    apply value_le. lia.
  - destruct (Z.ltb_spec (F64.numerator (Prim2SF b))
                         (F64.numerator (Prim2SF a))).
    + split; [exact Ha |]. rewrite Q.max_l; [reflexivity |].
      apply value_le. lia.
    + destruct (is_zero a && get_sign a).
      * split; [exact Hb |]. rewrite Q.max_r; [reflexivity |].
        apply value_le. lia.
      * split; [exact Ha |]. rewrite Q.max_l; [reflexivity |].
        apply value_le. lia.
Qed.

Lemma min_value (a b : float) :
  F64.finite a = true -> F64.finite b = true ->
  F64.finite (F64.Math.min a b) = true /\
  (F64.value (F64.Math.min a b) == Qmin (F64.value a) (F64.value b))%Q.
Proof.
  intros Ha Hb. unfold F64.Math.min.
  rewrite (finite_not_nan a Ha), (finite_not_nan b Hb). cbn [orb].
  rewrite (ltb_numerator a b Ha Hb), (ltb_numerator b a Hb Ha).
  destruct (Z.ltb_spec (F64.numerator (Prim2SF a)) (F64.numerator (Prim2SF b))).
  - split; [exact Ha |]. rewrite Q.min_l; [reflexivity |].
    apply value_le. lia.
  - destruct (Z.ltb_spec (F64.numerator (Prim2SF b))
                         (F64.numerator (Prim2SF a))).
    + split; [exact Hb |]. rewrite Q.min_r; [reflexivity |].
      apply value_le. lia.
    + destruct (is_zero a && get_sign a).
      * split; [exact Ha |]. rewrite Q.min_l; [reflexivity |].
        apply value_le. lia.
      * split; [exact Hb |]. rewrite Q.min_r; [reflexivity |].
        apply value_le. lia.
Qed.


Lemma value_0 : (F64.value 0%float == 0)%Q.
Proof. reflexivity. Qed.
Lemma value_1 : (F64.value 1%float == 1)%Q.
Proof. vm_compute. reflexivity. Qed.
Lemma value_100 : (F64.value 100%float == 100)%Q.
Proof. vm_compute. reflexivity. Qed.

Local Open Scope Q_scope.

Lemma finite_0 : F64.finite 0%float = true. Proof. reflexivity. Qed.
Lemma finite_1 : F64.finite 1%float = true. Proof. reflexivity. Qed.
Lemma finite_100 : F64.finite 100%float = true. Proof. reflexivity. Qed.

(* ================================================================== *)
(** * Crop geometry in doubles: the invariant, the corners *)
(* ================================================================== *)

(** When no addition or subtraction rounds, the update in doubles
    gives numbers, and they are those of the update on the numbers the
    doubles stand for. *)
Lemma V21d_low_value (p len d : float) :
  V21d.exactLow p len d ->
  let n := F64.Math.min (F64.Math.max 0 (p + d)) (p + len - V21d.minSize) in
  (F64.finite n = true /\ F64.finite (len - (n - p)) = true) /\
  F64.value n ==
    Qmin (Qmax 0 (F64.value p + F64.value d))
         (F64.value p + F64.value len - V21.minSize) /\
  F64.value (len - (n - p)) ==
    F64.value len - (F64.value n - F64.value p).
Proof.
  unfold V21d.exactLow, F64.exactAdd, F64.exactSub. cbv zeta.
  intros ((Fa & Ea) & (Fb & Eb) & (Fc & Ec) & (Fd & Ed) & (Fe & Ee)).
  destruct (max_value 0 (p + d) finite_0 Fa) as [Fm Em].
  destruct (min_value _ _ Fm Fc) as [Fn En].
  split; [split; assumption |]. split.
  - rewrite En, Em, Ec, Eb, Ea, value_0.
    unfold V21d.minSize, V21.minSize. rewrite value_1. reflexivity.
  - rewrite Ee, Ed. reflexivity.
Qed.

Lemma V21d_high_value (p len d : float) :
  V21d.exactHigh p len d ->
  let n := F64.Math.max V21d.minSize (F64.Math.min (100 - p) (len + d)) in
  F64.finite n = true /\
  F64.value n ==
    Qmax V21.minSize (Qmin (100 - F64.value p) (F64.value len + F64.value d)).
Proof.
  unfold V21d.exactHigh, F64.exactAdd, F64.exactSub. cbv zeta.
  intros ((Fa & Ea) & (Fb & Eb)).
  destruct (min_value _ _ Fa Fb) as [Fm Em].
  destruct (max_value V21d.minSize _ finite_1 Fm) as [Fn En].
  split; [exact Fn |].
  rewrite En, Em, Ea, Eb, value_100.
  unfold V21d.minSize, V21.minSize. rewrite value_1. reflexivity.
Qed.

Lemma finiteRect_fields (r : F64.CropRect) :
  F64.finiteRect r = true <->
  F64.finite (F64.x r) = true /\ F64.finite (F64.y r) = true /\
  F64.finite (F64.w r) = true /\ F64.finite (F64.h r) = true.
Proof.
  unfold F64.finiteRect. rewrite !andb_true_iff. tauto.
Qed.

(** Where no operation rounds, the doubles compute what the exact
    rules compute. *)
Lemma V21d_newRect_value (hd : V21.HandleType) (s : F64.CropRect)
  (dX dY : float) :
  V21d.exactUpdate hd s dX dY ->
  rect_eq (rectValue (V21d.newRect hd s dX dY))
          (V21.newRect hd (rectValue s) (F64.value dX) (F64.value dY)).
Proof.
  unfold rect_eq.
  destruct hd; cbn [V21d.exactUpdate]; intros E;
    try match type of E with _ /\ _ => destruct E as [E1 E2] end;
    cbn [V21d.newRect V21.newRect rectValue x y w h F64.x F64.y F64.w F64.h];
    cbv zeta;
    repeat match goal with
    | H : V21d.exactLow _ _ _ |- _ =>
        apply V21d_low_value in H; cbv zeta in H; destruct H as (_ & ? & ?)
    | H : V21d.exactHigh _ _ _ |- _ =>
        apply V21d_high_value in H; cbv zeta in H; destruct H as [_ ?]
    end;
    repeat split; try reflexivity; try assumption;
    try match goal with
    | Hw : F64.value ?t == _ |- F64.value ?t == _ => rewrite Hw
    end;
    match goal with
    | Hn : F64.value ?n == Qmin _ _ |- context [F64.value ?n] => rewrite Hn
    end; reflexivity.
Qed.


Lemma V12d_move_value (p len d : float) :
  V12d.exactMove p len d ->
  let n := F64.Math.max 0 (F64.Math.min (100 - len) (p + d)) in
  F64.finite n = true /\
  F64.value n ==
    Qmax 0 (Qmin (100 - F64.value len) (F64.value p + F64.value d)).
Proof.
  unfold V12d.exactMove, F64.exactAdd, F64.exactSub. cbv zeta.
  intros ((Fa & Ea) & (Fb & Eb)).
  destruct (min_value _ _ Fa Fb) as [Fm Em].
  destruct (max_value 0 _ finite_0 Fm) as [Fn En].
  split; [exact Fn |].
  rewrite En, Em, Ea, Eb, value_100, value_0. reflexivity.
Qed.





Lemma validRect_rect_eq (minSize : Q) (r1 r2 : CropRect) :
  rect_eq r1 r2 -> validRect minSize r2 -> validRect minSize r1.
Proof.
  unfold rect_eq, validRect. intros (Ex & Ey & Ew & Eh) V.
  rewrite Ex, Ey, Ew, Eh. exact V.
Qed.

Lemma fullFrame64_valid (minSize : Q) :
  minSize <= 100 -> validRect64 minSize F64.fullFrame.
Proof.
  intros H. split; [reflexivity |].
  apply (validRect_rect_eq _ _ fullFrame).
  - unfold rect_eq. cbn [rectValue F64.fullFrame F64.x F64.y F64.w F64.h
                         fullFrame x y w h].
    repeat split; first [exact value_0 | exact value_100].
  - apply fullFrame_valid, H.
Qed.










Lemma V21d_corners_compose :
  V21d_composes V21.tl V21.l V21.t /\ V21d_composes V21.tr V21.r V21.t /\
  V21d_composes V21.bl V21.l V21.b /\ V21d_composes V21.br V21.r V21.b.
Proof. repeat split. Qed.

(** C7 (as the code has it).  Dragging the [tl] corner of
    [{x:10, y:10, w:50, h:50}] by [dX = -5], [dY = -5] percent gives
    [{x:5, y:5, w:55, h:55}]; each corner handle applies its two edge
    rules independently per axis; and a [tl] drag none of whose
    additions and subtractions rounds gives a rectangle of numbers and
    leaves the right edge [x + w] and the bottom edge [y + h] where
    they were. *)
Theorem corner_tl_drag
  (st : V21d.CropOverlay) (e start : F64.Pos) (c : F64.DOMRect)
  (s : F64.CropRect) (dX dY : float) :
  V21d.activeHandle st = Some V21.tl ->
  V21d.startPosRef st = Some start ->
  V21d.startRectRef st = rect64_10_10_50_50 ->
  (F64.width c =? 0)%float || (F64.height c =? 0)%float = false ->
  V21d.dXof e start c = (-5)%float -> V21d.dYof e start c = (-5)%float ->
  V21d.exactUpdate V21.tl s dX dY ->
  V21d.cropRect (V21d.handlePointerMove e (Some c) st) =
    F64.mkRect 5 5 55 55 /\
  (V21d_composes V21.tl V21.l V21.t /\ V21d_composes V21.tr V21.r V21.t /\
   V21d_composes V21.bl V21.l V21.b /\ V21d_composes V21.br V21.r V21.b) /\
  F64.finiteRect (V21d.newRect V21.tl s dX dY) = true /\
  right (rectValue (V21d.newRect V21.tl s dX dY)) == right (rectValue s) /\
  bottom (rectValue (V21d.newRect V21.tl s dX dY)) == bottom (rectValue s).
Proof.
  intros Hh Hp Hs Hg HdX HdY E.
  split; [| split; [exact V21d_corners_compose |]].
  - unfold V21d.handlePointerMove. rewrite Hh, Hp, Hs, Hg, HdX, HdY.
    vm_compute. reflexivity.
  - split.
    + destruct E as [E1 E2].
      apply V21d_low_value in E1. apply V21d_low_value in E2.
      cbv zeta in E1, E2.
      destruct E1 as ((F1 & F2) & _). destruct E2 as ((F3 & F4) & _).
      apply finiteRect_fields. cbn [V21d.newRect F64.x F64.y F64.w F64.h].
      repeat split; assumption.
    + destruct (V21d_newRect_value V21.tl s dX dY E) as (Ex & Ey & Ew & Eh).
      unfold right, bottom. rewrite Ex, Ey, Ew, Eh.
      cbn [V21.newRect x y w h]. split; lra.
Qed.

Lemma corner_tl_drag_witness :
  V21d.cropRect
    (V21d.handlePointerMove (F64.mkPos 90 95) (Some container64_200_100)
       (V21d.handlePointerDown V21.tl (F64.mkPos 100 100)
          (V21d.mkOverlay None None F64.fullFrame rect64_10_10_50_50))) =
    F64.mkRect 5 5 55 55 /\
  (V21d_composes V21.tl V21.l V21.t /\ V21d_composes V21.tr V21.r V21.t /\
   V21d_composes V21.bl V21.l V21.b /\ V21d_composes V21.br V21.r V21.b) /\
  F64.finiteRect (V21d.newRect V21.tl rect64_20_10_40_50 3 (-7)) = true /\
  right (rectValue (V21d.newRect V21.tl rect64_20_10_40_50 3 (-7))) ==
    right (rectValue rect64_20_10_40_50) /\
  bottom (rectValue (V21d.newRect V21.tl rect64_20_10_40_50 3 (-7))) ==
    bottom (rectValue rect64_20_10_40_50).
Proof.
  apply (corner_tl_drag
           (V21d.handlePointerDown V21.tl (F64.mkPos 100 100)
              (V21d.mkOverlay None None F64.fullFrame rect64_10_10_50_50))
           (F64.mkPos 90 95) (F64.mkPos 100 100) container64_200_100
           rect64_20_10_40_50 3 (-7));
    try reflexivity; try (vm_compute; reflexivity).
  repeat split; vm_compute; reflexivity.
Defined.

(** Against C7 as stated: once an operation rounds, a [tl] drag moves
    the opposite edges.  The top left corner of the full frame nudged
    by one pixel each way over a container of 300 by 300 pixels gives
    [x = y = 0.33333333333333337], [w = h = 99.666666666666671], so
    [x + w] and [y + h] are no longer the number 100 (their sums in
    doubles still are); the same nudge once more moves [x + w] and
    [y + h], as the code would compute them, from 100 to
    [100.00000000000001]. *)
Lemma corner_tl_drag_rounding :
  right (rectValue F64.fullFrame) == 100 /\
  V21d.cropRect (V21d.run nudge64_tl V21d.mount) =
    V21d.newRect V21.tl F64.fullFrame
      (V21d.dXof (F64.mkPos 1 1) (F64.mkPos 0 0) container64_300_300)
      (V21d.dYof (F64.mkPos 1 1) (F64.mkPos 0 0) container64_300_300) /\
  ~ right (rectValue (V21d.cropRect (V21d.run nudge64_tl V21d.mount))) ==
    right (rectValue F64.fullFrame) /\
  ~ bottom (rectValue (V21d.cropRect (V21d.run nudge64_tl V21d.mount))) ==
    bottom (rectValue F64.fullFrame) /\
  V21d.cropRect (V21d.run (nudge64_tl ++ nudge64_tl_again) V21d.mount) =
    V21d.newRect V21.tl (V21d.cropRect (V21d.run nudge64_tl V21d.mount))
      (V21d.dXof (F64.mkPos 2 2) (F64.mkPos 1 1) container64_300_300)
      (V21d.dYof (F64.mkPos 2 2) (F64.mkPos 1 1) container64_300_300) /\
  (F64.right (V21d.cropRect (V21d.run nudge64_tl V21d.mount)) <?
   F64.right
     (V21d.cropRect (V21d.run (nudge64_tl ++ nudge64_tl_again) V21d.mount)))%float
    = true /\
  (F64.bottom (V21d.cropRect (V21d.run nudge64_tl V21d.mount)) <?
   F64.bottom
     (V21d.cropRect (V21d.run (nudge64_tl ++ nudge64_tl_again) V21d.mount)))%float
    = true.
Proof.
  split; [vm_compute; reflexivity |].
  split; [vm_compute; reflexivity |].
  split; [intros H; vm_compute in H; discriminate H |].
  split; [intros H; vm_compute in H; discriminate H |].
  split; [vm_compute; reflexivity |].
  split; vm_compute; reflexivity.
Qed.

Local Open Scope Q_scope.

(* ================================================================== *)
(** * Crop geometry: corners, move, reversibility *)
(* ================================================================== *)

(** C8.  In [move] mode a pointer move by [(dX, dY)] sets
    [x' = clamp(anchor.x + dX, 0, 100 - anchor.w)] and
    [y' = clamp(anchor.y + dY, 0, 100 - anchor.h)] and leaves [w] and [h]
    exactly those of the anchored rectangle: [handleMove] of v1.2.0 and
    [handleMoveWithMode] of v1.3.0. *)
Theorem move_keeps_size
  (st12 : V12.CropOverlay) (st13 : V13.CropOverlay)
  (e start : Pos) (c : DOMRect) (a : CropRect) :
  V12.interactionMode st12 = Some V12.move ->
  V12.startPos st12 = Some start ->
  V12.startRect st12 = a ->
  V13.interactionMode st13 = Some V13.move ->
  V13.startPosRef st13 = Some start ->
  V13.startRectRef st13 = a ->
  ~ width c == 0 -> ~ height c == 0 ->
  w a <= 100 -> h a <= 100 ->
  let dX := ((clientX e - clientX start) / width c) * 100 in
  let dY := ((clientY e - clientY start) / height c) * 100 in
  let r12 := V12.cropRect (V12.handleMove e (Some c) st12) in
  let r13 := V13.cropRect (V13.handleMoveWithMode e (Some c) st13) in
  (x r12 == clamp (x a + dX) 0 (100 - w a) /\
   y r12 == clamp (y a + dY) 0 (100 - h a) /\
   w r12 = w a /\ h r12 = h a) /\
  (x r13 == clamp (x a + dX) 0 (100 - w a) /\
   y r13 == clamp (y a + dY) 0 (100 - h a) /\
   w r13 = w a /\ h r13 = h a).
Proof.
  intros Hm12 Hp12 Hs12 Hm13 Hp13 Hs13 _ _ Hw Hh dX dY r12 r13.
  subst r12 r13.
  unfold V12.handleMove, V13.handleMoveWithMode.
  rewrite Hm12, Hp12, Hs12, Hm13, Hp13, Hs13.
  cbn [V12.cropRect V13.cropRect V13.setCropRect V12.newRect x y w h].
  fold dX dY. unfold V13.dXof, V13.dYof, V12.dXof, V12.dYof. fold dX dY.
  clearbody dX dY. unfold clamp.
  repeat split; minmax_lra.
Qed.

Lemma move_keeps_size_witness :
  let a := rect_10_10_50_50 in
  let e := mkPos 300 80 in
  let start := mkPos 100 100 in
  let c := container_200_100 in
  let dX := ((clientX e - clientX start) / width c) * 100 in
  let dY := ((clientY e - clientY start) / height c) * 100 in
  let r12 := V12.cropRect (V12.handleMove e (Some c)
               (V12.mkOverlay (Some V12.move) (Some start) a a)) in
  let r13 := V13.cropRect (V13.handleMoveWithMode e (Some c)
               (V13.mkOverlay (Some V13.move) a (Some start) a a)) in
  (x r12 == clamp (x a + dX) 0 (100 - w a) /\
   y r12 == clamp (y a + dY) 0 (100 - h a) /\
   w r12 = w a /\ h r12 = h a) /\
  (x r13 == clamp (x a + dX) 0 (100 - w a) /\
   y r13 == clamp (y a + dY) 0 (100 - h a) /\
   w r13 = w a /\ h r13 = h a).
Proof.
  apply (move_keeps_size
           (V12.mkOverlay (Some V12.move) (Some (mkPos 100 100))
              rect_10_10_50_50 rect_10_10_50_50)
           (V13.mkOverlay (Some V13.move) rect_10_10_50_50
              (Some (mkPos 100 100)) rect_10_10_50_50 rect_10_10_50_50)
           (mkPos 300 80) (mkPos 100 100) container_200_100 rect_10_10_50_50);
    try reflexivity; simpl; lra.
Defined.

(** The [r] rule never writes [x], [y] or [h]; the [l] rule never moves
    the right edge nor writes [y] or [h]. *)
Lemma V21_r_rule_frame (s : CropRect) (dX dY : Q) :
  x (V21.newRect V21.r s dX dY) = x s /\
  y (V21.newRect V21.r s dX dY) = y s /\
  h (V21.newRect V21.r s dX dY) = h s.
Proof. repeat split. Qed.

Lemma V21_l_rule_frame (s : CropRect) (dX dY : Q) :
  right (V21.newRect V21.l s dX dY) == right s /\
  y (V21.newRect V21.l s dX dY) = y s /\
  h (V21.newRect V21.l s dX dY) = h s.
Proof.
  unfold right; cbn [V21.newRect x y w h]; repeat split; lra.
Qed.

(** A drag session over a container of non-zero size ends idle, with the
    rectangle the handle's rule computes from the rectangle the session
    started on. *)
Lemma V21_dragSession_cropRect (type : V21.HandleType) (down move : Pos)
  (c : DOMRect) (st : V21.CropOverlay) :
  ~ width c == 0 -> ~ height c == 0 ->
  V21.cropRect (V21.dragSession type down move (Some c) st) =
  V21.newRect type (V21.cropRect st)
              (V21.dXof move down c) (V21.dYof move down c) /\
  V21.activeHandle (V21.dragSession type down move (Some c) st) = None.
Proof.
  intros Hw Hh.
  unfold V21.dragSession, V21.run; cbn [fold_left V21.handle].
  unfold V21.handlePointerMove, V21.handlePointerDown;
    cbn [V21.activeHandle V21.startPosRef V21.startRectRef].
  destruct (Qeq_bool (width c) 0) eqn:E1.
  { apply Qeq_bool_iff in E1. contradiction. }
  destruct (Qeq_bool (height c) 0) eqn:E2.
  { apply Qeq_bool_iff in E2. contradiction. }
  split; reflexivity.
Qed.

(** An edge drag that no clamp cuts short is undone by the opposite
    drag in a later session. *)
Lemma V21_edge_drag_undone (cur : CropRect) (d dY dY' : Q) :
  validRect V21.minSize cur ->
  (V21.minSize <= w cur + d <= 100 - x cur ->
   let back := V21.newRect V21.r (V21.newRect V21.r cur d dY) (- d) dY' in
   x back == x cur /\ w back == w cur) /\
  (0 <= x cur + d <= x cur + w cur - V21.minSize ->
   let back := V21.newRect V21.l (V21.newRect V21.l cur d dY) (- d) dY' in
   x back == x cur /\ w back == w cur).
Proof.
  unfold validRect, V21.minSize.
  intros (Hx & Hy & Hr & Hb & Hw & Hh).
  split; intros [Hlo Hhi]; cbn [V21.newRect x y w h]; unfold V21.minSize;
    split; minmax_lra.
Qed.

(** C9.  Drag edge [r] in one session and edge [l] in a second one,
    from a valid rectangle [cur].  If the right edge ends the first
    session on the original right edge and the left edge ends the second
    session on the original [x], then the result has the original [x]
    and [w]: the [r] session leaves [x] untouched, the [l] session
    leaves the right edge untouched, and neither touches [y] or [h].
    Each edge is reversible by itself: a drag of [r], or of [l], that no
    clamp cuts short is undone by the opposite drag in a later
    session. *)
Theorem edges_independently_reversible
  (orig cur : CropRect) (c : DOMRect) (down1 move1 down2 move2 : Pos)
  (st : V21.CropOverlay) :
  V21.cropRect st = cur ->
  validRect V21.minSize cur ->
  ~ width c == 0 -> ~ height c == 0 ->
  let st1 := V21.dragSession V21.r down1 move1 (Some c) st in
  let st2 := V21.dragSession V21.l down2 move2 (Some c) st1 in
  right (V21.cropRect st1) == right orig ->
  x (V21.cropRect st2) == x orig ->
  (x (V21.cropRect st2) == x orig /\ w (V21.cropRect st2) == w orig) /\
  x (V21.cropRect st1) = x cur /\
  right (V21.cropRect st2) == right (V21.cropRect st1) /\
  (y (V21.cropRect st2) = y cur /\ h (V21.cropRect st2) = h cur) /\
  V21.activeHandle st2 = None /\
  (forall d dY dY',
     V21.minSize <= w cur + d <= 100 - x cur ->
     let back := V21.newRect V21.r (V21.newRect V21.r cur d dY) (- d) dY' in
     x back == x cur /\ w back == w cur) /\
  (forall d dY dY',
     0 <= x cur + d <= x cur + w cur - V21.minSize ->
     let back := V21.newRect V21.l (V21.newRect V21.l cur d dY) (- d) dY' in
     x back == x cur /\ w back == w cur).
Proof.
  intros Hcur Hvalid Hw Hh st1 st2 Hr Hl.
  destruct (V21_dragSession_cropRect V21.r down1 move1 c st Hw Hh) as [E1 _].
  destruct (V21_dragSession_cropRect V21.l down2 move2 c st1 Hw Hh)
    as [E2 Hidle].
  fold st1 in E1. fold st2 in E2, Hidle. rewrite Hcur in E1.
  destruct (V21_r_rule_frame cur (V21.dXof move1 down1 c)
              (V21.dYof move1 down1 c)) as (Frx & Fry & Frh).
  destruct (V21_l_rule_frame (V21.cropRect st1) (V21.dXof move2 down2 c)
              (V21.dYof move2 down2 c)) as (Flr & Fly & Flh).
  rewrite <- E1 in Frx, Fry, Frh. rewrite <- E2 in Flr, Fly, Flh.
  clearbody st1 st2.
  unfold right in *.
  split; [split; [exact Hl | lra] |].
  split; [exact Frx |]. split; [exact Flr |].
  split; [split; congruence |]. split; [exact Hidle |].
  split; intros d dY dY'; apply (V21_edge_drag_undone cur d dY dY' Hvalid).
Qed.

Lemma edges_independently_reversible_witness :
  let c := container_200_100 in
  let cur := rect_20_10_60_50 in
  let st := V21.mkOverlay None None fullFrame cur in
  let st1 := V21.dragSession V21.r (mkPos 160 50) (mkPos 120 50) (Some c) st in
  let st2 := V21.dragSession V21.l (mkPos 40 50) (mkPos 20 60) (Some c) st1 in
  (x (V21.cropRect st2) == x rect_10_10_50_50 /\
   w (V21.cropRect st2) == w rect_10_10_50_50) /\
  x (V21.cropRect st1) = x cur /\
  right (V21.cropRect st2) == right (V21.cropRect st1) /\
  (y (V21.cropRect st2) = y cur /\ h (V21.cropRect st2) = h cur) /\
  V21.activeHandle st2 = None /\
  (forall d dY dY',
     V21.minSize <= w cur + d <= 100 - x cur ->
     let back := V21.newRect V21.r (V21.newRect V21.r cur d dY) (- d) dY' in
     x back == x cur /\ w back == w cur) /\
  (forall d dY dY',
     0 <= x cur + d <= x cur + w cur - V21.minSize ->
     let back := V21.newRect V21.l (V21.newRect V21.l cur d dY) (- d) dY' in
     x back == x cur /\ w back == w cur).
Proof.
  apply (edges_independently_reversible rect_10_10_50_50 rect_20_10_60_50
           container_200_100 (mkPos 160 50) (mkPos 120 50)
           (mkPos 40 50) (mkPos 20 60)
           (V21.mkOverlay None None fullFrame rect_20_10_60_50)).
  - reflexivity.
  - unfold validRect, V21.minSize; simpl; repeat split; lra.
  - simpl; lra.
  - simpl; lra.
  - vm_compute. reflexivity.
  - vm_compute. reflexivity.
Defined.

(** The two edges can be brought back whenever the clamps leave room:
    with the left edge at least [minSize] to the left of the original
    right edge, the deltas that span the displacements put the right
    edge, then the left edge, back on their original positions. *)
Lemma V21_edges_brought_back (orig cur : CropRect) (dXr dYr dXl dYl : Q) :
  validRect V21.minSize orig -> validRect V21.minSize cur ->
  x cur + V21.minSize <= right orig ->
  dXr == right orig - right cur -> dXl == x orig - x cur ->
  let r1 := V21.newRect V21.r cur dXr dYr in
  let r2 := V21.newRect V21.l r1 dXl dYl in
  right r1 == right orig /\ x r2 == x orig /\ w r2 == w orig.
Proof.
  unfold validRect, right, V21.minSize.
  intros (Hx & Hy & Hr & Hb & Hw & Hh) (Hx' & Hy' & Hr' & Hb' & Hw' & Hh')
         Hroom HdXr HdXl.
  cbn [V21.newRect x y w h]. unfold V21.minSize.
  repeat split; minmax_lra.
Qed.

(** The re-mount that follows the [setCropRect] of a session does not
    change the rectangle the session ends with. *)
Lemma V21_dragSession_remount (type : V21.HandleType) (down move : Pos)
  (container : option DOMRect) (st : V21.CropOverlay) :
  V21.cropRect
    (V21.run [V21.PointerDown type down; V21.PointerMove move container;
              V21.Remount; V21.PointerUp] st) =
  V21.cropRect (V21.dragSession type down move container st).
Proof.
  unfold V21.dragSession, V21.run; cbn [fold_left V21.handle].
  unfold V21.handlePointerUp, V21.remount.
  set (s1 := V21.handlePointerMove move container
               (V21.handlePointerDown type down st)).
  cbn [V21.activeHandle V21.cropRect].
  destruct (V21.activeHandle s1); reflexivity.
Qed.

(* ================================================================== *)
(** * Bitmaps and compositing *)
(* ================================================================== *)

Local Open Scope Z_scope.

Lemma mapPixels_width (f : Z -> Z -> Pixel -> Pixel) (s : Bitmap.t) :
  Bitmap.width (Bitmap.mapPixels f s) = Bitmap.width s.
Proof. reflexivity. Qed.

Lemma mapPixels_height (f : Z -> Z -> Pixel -> Pixel) (s : Bitmap.t) :
  Bitmap.height (Bitmap.mapPixels f s) = Bitmap.height s.
Proof. reflexivity. Qed.

Lemma mapPixels_length (f : Z -> Z -> Pixel -> Pixel) (s : Bitmap.t) :
  length (Bitmap.pixels (Bitmap.mapPixels f s)) = length (Bitmap.pixels s).
Proof.
  unfold Bitmap.mapPixels; simpl.
  rewrite length_map, length_combine, length_seq. apply Nat.min_id.
Qed.

Lemma inside_iff (s : Bitmap.t) (px py : Z) :
  Bitmap.inside s px py = true <->
  0 <= px < Bitmap.width s /\ 0 <= py < Bitmap.height s.
Proof. unfold Bitmap.inside. lia. Qed.

(** The index of an inside pixel is within the pixel list. *)
Lemma index_in_range (wd ht px py : Z) :
  0 <= px < wd -> 0 <= py < ht ->
  (Z.to_nat (py * wd + px) < Z.to_nat (wd * ht))%nat.
Proof. intros Hx Hy. apply Z2Nat.inj_lt; nia. Qed.

Lemma getPixel_mapPixels (f : Z -> Z -> Pixel -> Pixel) (s : Bitmap.t)
  (px py : Z) :
  length (Bitmap.pixels s) = Z.to_nat (Bitmap.width s * Bitmap.height s) ->
  Bitmap.inside s px py = true ->
  Bitmap.getPixel (Bitmap.mapPixels f s) px py =
  f px py (Bitmap.getPixel s px py).
Proof.
  intros Hlen Hin.
  unfold Bitmap.getPixel.
  replace (Bitmap.inside (Bitmap.mapPixels f s) px py) with true
    by (symmetry; exact Hin).
  rewrite Hin. apply inside_iff in Hin. destruct Hin as [Hx Hy].
  cbn [Bitmap.mapPixels Bitmap.pixels Bitmap.width].
  set (wd := Bitmap.width s) in *. set (i := Z.to_nat (py * wd + px)).
  assert (Hi : (i < length (Bitmap.pixels s))%nat).
  { rewrite Hlen. apply index_in_range; assumption. }
  set (g := fun ip : nat * Pixel =>
              f (Z.of_nat (fst ip) mod wd) (Z.of_nat (fst ip) / wd) (snd ip)).
  rewrite (nth_indep _ transparentBlack (g (0%nat, transparentBlack))).
  2:{ rewrite length_map, length_combine, length_seq, Nat.min_id. exact Hi. }
  rewrite map_nth, combine_nth by (rewrite length_seq; reflexivity).
  rewrite seq_nth by exact Hi.
  unfold g; cbn [fst snd]. rewrite Nat.add_0_l.
  assert (Hnn : 0 <= py * wd) by nia.
  replace (Z.of_nat i) with (py * wd + px) by (unfold i; lia).
  f_equal.
  - rewrite Z.add_comm, Z.mod_add by lia. apply Z.mod_small; lia.
  - rewrite Z.add_comm, Z.div_add by lia. rewrite Z.div_small; lia.
Qed.

(** Two bitmaps of the same size with the same pixel at every position
    have the same pixel list. *)
Lemma pixels_ext (s1 s2 : Bitmap.t) :
  Bitmap.width s1 = Bitmap.width s2 ->
  Bitmap.height s1 = Bitmap.height s2 ->
  0 <= Bitmap.width s1 ->
  length (Bitmap.pixels s1) = Z.to_nat (Bitmap.width s1 * Bitmap.height s1) ->
  length (Bitmap.pixels s2) = Z.to_nat (Bitmap.width s2 * Bitmap.height s2) ->
  (forall px py, Bitmap.inside s1 px py = true ->
                 Bitmap.getPixel s1 px py = Bitmap.getPixel s2 px py) ->
  Bitmap.pixels s1 = Bitmap.pixels s2.
Proof.
  intros Hw Hh Hw0 Hl1 Hl2 Hpx.
  apply (nth_ext _ _ transparentBlack transparentBlack).
  { rewrite Hl1, Hl2, Hw, Hh. reflexivity. }
  intros n Hn. rewrite Hl1 in Hn.
  set (wd := Bitmap.width s1) in *. set (ht := Bitmap.height s1) in *.
  assert (Hpos : 0 < wd * ht).
  { destruct (Z_lt_le_dec 0 (wd * ht)) as [|Hle]; [assumption|].
    replace (Z.to_nat (wd * ht)) with 0%nat in Hn by lia. lia. }
  assert (Hwd : 0 < wd).
  { destruct (Z.eq_dec wd 0) as [E | E]; [rewrite E in Hpos; simpl in Hpos |]; lia. }
  assert (Hnz : Z.of_nat n < wd * ht) by lia.
  set (px := Z.of_nat n mod wd). set (py := Z.of_nat n / wd).
  assert (Hx : 0 <= px < wd) by (apply Z.mod_pos_bound; lia).
  assert (Hy : 0 <= py < ht).
  { split; [apply Z.div_pos; lia |].
    apply Z.div_lt_upper_bound; [lia | exact Hnz]. }
  assert (Hn' : n = Z.to_nat (py * wd + px)).
  { unfold px, py. rewrite Z.mul_comm, <- Z_div_mod_eq_full. lia. }
  assert (Hin : Bitmap.inside s1 px py = true).
  { apply inside_iff. fold wd ht. lia. }
  specialize (Hpx px py Hin).
  unfold Bitmap.getPixel in Hpx.
  assert (Hin2 : Bitmap.inside s2 px py = true).
  { apply inside_iff. rewrite <- Hw, <- Hh. fold wd ht. lia. }
  rewrite Hin, Hin2 in Hpx. rewrite <- Hw in Hpx. fold wd in Hpx.
  rewrite <- Hn' in Hpx. exact Hpx.
Qed.

Lemma wf_getPixel (s : Bitmap.t) (px py : Z) :
  Bitmap.wf s -> wf_pixel (Bitmap.getPixel s px py).
Proof.
  intros (Hw & Hh & Hlen & Hall).
  assert (Htb : wf_pixel transparentBlack).
  { unfold wf_pixel, byte; simpl. repeat split; lia. }
  unfold Bitmap.getPixel. destruct (Bitmap.inside s px py); [| exact Htb].
  destruct (nth_in_or_default (Z.to_nat (py * Bitmap.width s + px))
              (Bitmap.pixels s) transparentBlack) as [Hin | Hd].
  - rewrite Forall_forall in Hall. apply Hall, Hin.
  - rewrite Hd. exact Htb.
Qed.

Lemma blank_length (wd ht : Z) :
  length (Bitmap.pixels (Bitmap.blank wd ht)) = Z.to_nat (wd * ht).
Proof. apply repeat_length. Qed.

Lemma getPixel_blank (wd ht px py : Z) :
  Bitmap.getPixel (Bitmap.blank wd ht) px py = transparentBlack.
Proof.
  unfold Bitmap.getPixel. destruct (Bitmap.inside _ px py); [| reflexivity].
  simpl. apply nth_repeat.
Qed.

Lemma canonical_transparent (p : Pixel) :
  wf_pixel p -> alpha p = 0 -> p = transparentBlack.
Proof.
  intros (_ & _ & _ & _ & Hc) Ha. destruct (Hc Ha) as (Hr & Hg & Hb).
  destruct p; simpl in *; subst; reflexivity.
Qed.

(** An opaque source replaces the pixel. *)
Lemma source_over_opaque (src dst : Pixel) :
  opaque src -> source_over src dst = src.
Proof.
  unfold opaque. destruct src as [r g b a]; cbn [alpha]; intros ->.
  unfold source_over; cbn [alpha red green blue].
  replace (255 - 255) with 0 by reflexivity.
  rewrite !Z.mul_0_r, !Z.add_0_r.
  change (255 * 255 =? 0) with false; cbv iota.
  rewrite <- !Z.mul_assoc, !Z.div_mul by discriminate.
  reflexivity.
Qed.

(** A fully transparent source leaves the pixel as it is. *)
Lemma source_over_transparent (src dst : Pixel) :
  alpha src = 0 -> wf_pixel dst -> source_over src dst = dst.
Proof.
  intros Ha Hd. unfold source_over. rewrite Ha.
  rewrite !Z.mul_0_r, !Z.mul_0_l, !Z.add_0_l, Z.sub_0_r.
  destruct (alpha dst * 255 =? 0) eqn:E.
  - symmetry. apply canonical_transparent; [exact Hd | lia].
  - apply Z.eqb_neq in E.
    rewrite <- !Z.mul_assoc, !Z.div_mul by lia.
    destruct dst; reflexivity.
Qed.

(** Drawn onto a cleared pixel, the source shows as it is. *)
Lemma source_over_blank (src : Pixel) :
  wf_pixel src -> source_over src transparentBlack = src.
Proof.
  intros Hs. unfold source_over; cbn [alpha red green blue transparentBlack].
  rewrite !Z.mul_0_r, !Z.mul_0_l, !Z.add_0_r.
  destruct (alpha src * 255 =? 0) eqn:E.
  - symmetry. apply canonical_transparent; [exact Hs | lia].
  - apply Z.eqb_neq in E.
    rewrite <- !Z.mul_assoc, !Z.div_mul by lia.
    destruct src; reflexivity.
Qed.

(* ================================================================== *)
(** * Rationals that are integers *)
(* ================================================================== *)

Lemma inject_Z_min (a b : Z) :
  (inject_Z (Z.min a b) == Qmin (inject_Z a) (inject_Z b))%Q.
Proof.
  destruct (Z.min_spec a b) as [[Hlt ->] | [Hle ->]].
  - rewrite Q.min_l; [reflexivity |]. rewrite <- Zle_Qle. lia.
  - rewrite Q.min_r; [reflexivity |]. rewrite <- Zle_Qle. lia.
Qed.

Lemma toLong_inject_Z (q : Q) (z : Z) : (q == inject_Z z)%Q -> toLong q = z.
Proof.
  intros H. unfold toLong.
  rewrite (Qfloor_comp _ _ H), (Qceiling_comp _ _ H).
  destruct (Qle_bool 0 q); [apply Qfloor_Z | apply Qceiling_Z].
Qed.

Lemma toLong_ge_1 (q : Q) : (1 <= q)%Q -> 1 <= toLong q.
Proof.
  intros H. unfold toLong.
  assert (H0 : Qle_bool 0 q = true) by (apply Qle_bool_iff; lra).
  rewrite H0. change 1 with (Qfloor (inject_Z 1)).
  apply Qfloor_resp_le. exact H.
Qed.

Lemma Qle_bool_inject_Z (q : Q) (a b : Z) (q' : Q) :
  (q == inject_Z a)%Q -> (q' == inject_Z b)%Q ->
  Qle_bool q q' = (a <=? b).
Proof.
  intros Ha Hb. rewrite Ha, Hb.
  destruct (a <=? b) eqn:E.
  - apply Qle_bool_iff. rewrite <- Zle_Qle. lia.
  - destruct (Qle_bool (inject_Z a) (inject_Z b)) eqn:E'; [| reflexivity].
    apply Qle_bool_iff in E'. rewrite <- Zle_Qle in E'. lia.
Qed.

Lemma Qeq_bool_false_pos (q : Q) (z : Z) :
  (q == inject_Z z)%Q -> 0 < z -> Qeq_bool q 0 = false.
Proof.
  intros H Hz. destruct (Qeq_bool q 0) eqn:E; [| reflexivity].
  apply Qeq_bool_iff in E. rewrite H in E.
  change 0%Q with (inject_Z 0) in E.
  apply (proj1 (inject_Z_injective _ _)) in E. lia.
Qed.

(* ================================================================== *)
(** * The obfuscation filter: sample origin and sample size *)
(* ================================================================== *)

Lemma effectSizeOf_pos (size : Z) : 0 < size -> (0 < V21.effectSizeOf size)%Q.
Proof.
  intros H. unfold V21.effectSizeOf, V21.multiplier.
  change 0%Q with (inject_Z 0). rewrite <- Zlt_Qlt. lia.
Qed.

(** In [pixel] mode the clamped origin is the integer
    [max 0 (floor (v / effectSize) * effectSize)]. *)
Lemma startOf_pixel (v : Q) (size : Z) :
  (V21.startOf V21.pixel v (V21.effectSizeOf size) ==
   inject_Z (Z.max 0 (Qfloor (v / V21.effectSizeOf size) * (size * 4))))%Q.
Proof.
  unfold V21.startOf, V21.effectSizeOf, V21.multiplier.
  set (f := Qfloor _). rewrite <- inject_Z_mult.
  rewrite (Qle_bool_inject_Z 0 0 (f * (size * 4)) (inject_Z (f * (size * 4))))
    by reflexivity.
  destruct (0 <=? f * (size * 4)) eqn:E.
  - rewrite Z.max_r by lia. reflexivity.
  - rewrite Z.max_l by lia. reflexivity.
Qed.

Lemma floor_div_nonneg (v e : Q) : (0 <= v)%Q -> (0 < e)%Q -> 0 <= Qfloor (v / e).
Proof.
  intros Hv He. change 0 with (Qfloor (inject_Z 0)).
  apply Qfloor_resp_le. change (inject_Z 0) with 0%Q.
  apply Qle_shift_div_l; [exact He | lra].
Qed.

Lemma sampleOf_Z (es st : Q) (e extent s0 : Z) :
  (es == inject_Z e)%Q -> (st == inject_Z s0)%Q ->
  (V21.sampleOf es extent st == inject_Z (Z.min e (extent - s0)))%Q.
Proof.
  intros He Hs. unfold V21.sampleOf.
  rewrite inject_Z_min. unfold Z.sub.
  rewrite inject_Z_plus, inject_Z_opp, He, Hs. reflexivity.
Qed.

(** [startX], [startY] are never negative, in either mode. *)
Lemma startOf_nonneg (type : V21.MosaicType) (v es : Q) :
  (0 <= V21.startOf type v es)%Q.
Proof.
  unfold V21.startOf.
  match goal with |- context [Qle_bool 0 ?s] => destruct (Qle_bool 0 s) eqn:E end.
  - apply Qle_bool_iff, E.
  - lra.
Qed.

(** C4.  In either mode, when the clamped sample rectangle has a width
    or a height that is zero or negative, [applyMosaicEffect] returns
    with the bitmap exactly as it was: nothing is written and nothing is
    thrown, and the stroke step [draw] that made the call leaves the
    canvas unchanged. *)
Theorem mosaic_empty_sample_skipped {platform : Rasterizer}
  (st : V21.App) (ctx : Bitmap.t) (last : Q * Q) (x y : Q) (size : Z)
  (type : V21.MosaicType) :
  0 < size ->
  V21.isDrawing st = true -> V21.canvas st = Some ctx ->
  V21.lastPos st = Some last -> V21.activeTool st = V21.mosaic ->
  V21.brushSize st = size -> V21.mosaicType st = type ->
  let effectSize := V21.effectSizeOf size in
  let sampleW :=
    V21.sampleOf effectSize (Bitmap.width ctx) (V21.startOf type x effectSize) in
  let sampleH :=
    V21.sampleOf effectSize (Bitmap.height ctx) (V21.startOf type y effectSize) in
  (sampleW <= 0 \/ sampleH <= 0)%Q ->
  V21.applyMosaicEffect ctx x y size type = Returned ctx /\
  exists st', V21.draw x y st = Returned st' /\ V21.canvas st' = Some ctx.
Proof.
  intros _ Hd Hc Hl Ht Hs Hm effectSize sampleW sampleH Hempty.
  assert (Happly : V21.applyMosaicEffect ctx x y size type = Returned ctx).
  { unfold V21.applyMosaicEffect. fold effectSize. fold sampleW. fold sampleH.
    destruct Hempty as [H | H]; apply Qle_bool_iff in H; rewrite H;
      [| rewrite orb_true_r]; reflexivity. }
  split; [exact Happly |].
  unfold V21.draw. rewrite Hd, Hc, Hl, Ht, Hs, Hm, Happly.
  eexists; split; reflexivity.
Qed.

(** C6.  Two points in the same cell of the [effectSize] grid get the
    same [startX] and the same [startY] in [pixel] mode (the side of the
    filled square, [effectSize], depends on the brush size only), and the
    two calls have the same outcome on a given bitmap. *)
Theorem mosaic_same_cell_same_bounds {platform : Rasterizer}
  (ctx : Bitmap.t) (x1 y1 x2 y2 : Q) (size : Z) :
  0 < size ->
  let effectSize := V21.effectSizeOf size in
  Qfloor (x1 / effectSize) = Qfloor (x2 / effectSize) ->
  Qfloor (y1 / effectSize) = Qfloor (y2 / effectSize) ->
  V21.startOf V21.pixel x1 effectSize = V21.startOf V21.pixel x2 effectSize /\
  V21.startOf V21.pixel y1 effectSize = V21.startOf V21.pixel y2 effectSize /\
  V21.applyMosaicEffect ctx x1 y1 size V21.pixel =
  V21.applyMosaicEffect ctx x2 y2 size V21.pixel.
Proof.
  intros _ effectSize Hx Hy.
  assert (Ex : V21.startOf V21.pixel x1 effectSize =
               V21.startOf V21.pixel x2 effectSize).
  { unfold V21.startOf. rewrite Hx. reflexivity. }
  assert (Ey : V21.startOf V21.pixel y1 effectSize =
               V21.startOf V21.pixel y2 effectSize).
  { unfold V21.startOf. rewrite Hy. reflexivity. }
  repeat split; try assumption.
  unfold V21.applyMosaicEffect. fold effectSize. rewrite Ex, Ey. reflexivity.
Qed.

(* ================================================================== *)
(** * Coverage of pixels by rectangles on the pixel grid *)
(* ================================================================== *)

(** A rectangle with integer corners and a positive integer size covers
    a pixel fully or not at all. *)
Lemma coverRect_grid (rx ry rw rh : Q) (X Y E F px py : Z) :
  (rx == inject_Z X)%Q -> (ry == inject_Z Y)%Q ->
  (rw == inject_Z E)%Q -> (rh == inject_Z F)%Q -> 0 < E -> 0 < F ->
  coverRect rx ry rw rh px py =
  if (X <=? px) && (px <? X + E) && (Y <=? py) && (py <? Y + F)
  then Covered else Outside.
Proof.
  intros Hx Hy Hw Hh HE HF. unfold coverRect.
  rewrite (Qeq_bool_false_pos rw E Hw HE), (Qeq_bool_false_pos rh F Hh HF).
  cbn [orb].
  assert (HEq : (0 < inject_Z E)%Q)
    by (change 0%Q with (inject_Z 0); rewrite <- Zlt_Qlt; exact HE).
  assert (HFq : (0 < inject_Z F)%Q)
    by (change 0%Q with (inject_Z 0); rewrite <- Zlt_Qlt; exact HF).
  assert (Hx0 : (Qmin rx (rx + rw) == inject_Z X)%Q)
    by (rewrite Q.min_l; [exact Hx | lra]).
  assert (Hx1 : (Qmax rx (rx + rw) == inject_Z (X + E))%Q)
    by (rewrite Q.max_r, inject_Z_plus; lra).
  assert (Hy0 : (Qmin ry (ry + rh) == inject_Z Y)%Q)
    by (rewrite Q.min_l; [exact Hy | lra]).
  assert (Hy1 : (Qmax ry (ry + rh) == inject_Z (Y + F))%Q)
    by (rewrite Q.max_r, inject_Z_plus; lra).
  assert (Hp1 : forall z, (inject_Z z + 1 == inject_Z (z + 1))%Q)
    by (intros z; rewrite inject_Z_plus; reflexivity).
  assert (Hp0 : forall z, (inject_Z z == inject_Z z)%Q) by reflexivity.
  rewrite (Qle_bool_inject_Z _ X px _ Hx0 (Hp0 px)),
          (Qle_bool_inject_Z _ (px + 1) (X + E) _ (Hp1 px) Hx1),
          (Qle_bool_inject_Z _ Y py _ Hy0 (Hp0 py)),
          (Qle_bool_inject_Z _ (py + 1) (Y + F) _ (Hp1 py) Hy1),
          (Qle_bool_inject_Z _ (px + 1) X _ (Hp1 px) Hx0),
          (Qle_bool_inject_Z _ (X + E) px _ Hx1 (Hp0 px)),
          (Qle_bool_inject_Z _ (py + 1) Y _ (Hp1 py) Hy0),
          (Qle_bool_inject_Z _ (Y + F) py _ Hy1 (Hp0 py)).
  z_compare.
Qed.

Section PaintLemmas.

Context {platform : Rasterizer}.

Lemma paint_width (sh : Shape) (src : Z -> Z -> Pixel) (s : Bitmap.t) :
  Bitmap.width (paint sh src s) = Bitmap.width s.
Proof. reflexivity. Qed.

Lemma paint_height (sh : Shape) (src : Z -> Z -> Pixel) (s : Bitmap.t) :
  Bitmap.height (paint sh src s) = Bitmap.height s.
Proof. reflexivity. Qed.

Lemma paint_length (sh : Shape) (src : Z -> Z -> Pixel) (s : Bitmap.t) :
  length (Bitmap.pixels (paint sh src s)) = length (Bitmap.pixels s).
Proof. apply mapPixels_length. Qed.

Lemma getPixel_paint (sh : Shape) (src : Z -> Z -> Pixel) (s : Bitmap.t)
  (px py : Z) :
  length (Bitmap.pixels s) = Z.to_nat (Bitmap.width s * Bitmap.height s) ->
  Bitmap.inside s px py = true ->
  Bitmap.getPixel (paint sh src s) px py =
  match coverage sh px py with
  | Covered => source_over (src px py) (Bitmap.getPixel s px py)
  | Outside => Bitmap.getPixel s px py
  | Edge => antialias sh px py (src px py) (Bitmap.getPixel s px py)
  end.
Proof. intros Hlen Hin. unfold paint. apply getPixel_mapPixels; assumption. Qed.

End PaintLemmas.

(* ================================================================== *)
(** * The averaging loop *)
(* ================================================================== *)

Lemma length_bytes (ps : list Pixel) :
  length (flat_map bytes ps) = (4 * length ps)%nat.
Proof.
  rewrite (flat_map_constant_length (c := 4%nat)); [lia |].
  intros p _. reflexivity.
Qed.

(** Byte [4 j + c] of the data is channel [c] of pixel [j]. *)
Lemma nth_bytes (ps : list Pixel) (j : nat) :
  nth (4 * j) (flat_map bytes ps) 0 = red (nth j ps transparentBlack) /\
  nth (4 * j + 1) (flat_map bytes ps) 0 = green (nth j ps transparentBlack) /\
  nth (4 * j + 2) (flat_map bytes ps) 0 = blue (nth j ps transparentBlack).
Proof.
  revert j. induction ps as [| p ps IH]; intros j.
  - simpl flat_map. destruct j; cbn [nth]; repeat split;
      match goal with |- nth ?n [] 0 = _ => destruct n; reflexivity end.
  - destruct j as [| j].
    + repeat split.
    + replace (4 * S j)%nat with (S (S (S (S (4 * j))))) by lia.
      cbn [flat_map bytes app nth Nat.add]. apply IH.
Qed.

Lemma loopIndices_bytes (n : nat) :
  V21.loopIndices (4 * n) = map (fun k => (16 * k)%nat) (seq 0 ((n + 3) / 4)).
Proof.
  unfold V21.loopIndices. f_equal. f_equal.
  replace (4 * n + 15)%nat with (3 + (n + 3) * 4)%nat by lia.
  change 16%nat with (4 * 4)%nat.
  rewrite <- Nat.Div0.div_div, Nat.div_add by lia.
  cbn [Nat.div Nat.divmod fst Nat.add]. reflexivity.
Qed.

(** The loop over the bytes of a pixel list adds up the channels of the
    pixels it visits and counts them. *)
Lemma sumLoop_fold (ps : list Pixel) (ks : list nat) (r g b count : Z) :
  fold_left
    (fun (acc : Z * Z * Z * Z) (i : nat) =>
       let '(r, g, b, count) := acc in
       (r + nth i (flat_map bytes ps) 0, g + nth (i + 1) (flat_map bytes ps) 0,
        b + nth (i + 2) (flat_map bytes ps) 0, count + 1))
    (map (fun k => (16 * k)%nat) ks) (r, g, b, count) =
  (r + sumZ (map (fun k => red (nth (4 * k) ps transparentBlack)) ks),
   g + sumZ (map (fun k => green (nth (4 * k) ps transparentBlack)) ks),
   b + sumZ (map (fun k => blue (nth (4 * k) ps transparentBlack)) ks),
   count + Z.of_nat (length ks)).
Proof.
  revert r g b count. induction ks as [| k ks IH]; intros r g b count.
  - cbn [map fold_left sumZ fold_right length Z.of_nat].
    rewrite !Z.add_0_r. reflexivity.
  - cbn [map fold_left]. rewrite IH.
    replace (16 * k)%nat with (4 * (4 * k))%nat by lia.
    destruct (nth_bytes ps (4 * k)) as (-> & -> & ->).
    unfold sumZ. cbn [fold_right length].
    f_equal; [f_equal; [f_equal |] |]; lia.
Qed.

Lemma sumLoop_bytes (ps : list Pixel) :
  V21.sumLoop (flat_map bytes ps) =
  (sumZ (map red (everyFourth ps)), sumZ (map green (everyFourth ps)),
   sumZ (map blue (everyFourth ps)), Z.of_nat (length (everyFourth ps))).
Proof.
  unfold V21.sumLoop. rewrite length_bytes, loopIndices_bytes, sumLoop_fold.
  unfold everyFourth. rewrite !map_map, !length_map. reflexivity.
Qed.

(** What the loop computes is the spec's mean over every fourth pixel. *)
Lemma averageOf_bytes (ps : list Pixel) :
  V21.averageOf (flat_map bytes ps) = meanEveryFourth ps.
Proof.
  unfold V21.averageOf, meanEveryFourth. rewrite sumLoop_bytes.
  destruct (0 <? Z.of_nat (length (everyFourth ps))) eqn:E; [reflexivity |].
  apply Z.ltb_ge in E.
  assert (Hn : length (everyFourth ps) = 0%nat) by lia.
  apply length_zero_iff_nil in Hn. rewrite Hn. reflexivity.
Qed.

Lemma everyFourth_length (ps : list Pixel) :
  ps <> [] -> (0 < length (everyFourth ps))%nat.
Proof.
  intros Hne. unfold everyFourth. rewrite length_map, length_seq.
  destruct ps as [| p ps]; [contradiction |].
  cbn [length]. apply Nat.div_str_pos. lia.
Qed.

Lemma sumZ_bounds (f : Pixel -> Z) (l : list Pixel) :
  Forall (fun p => byte (f p)) l ->
  0 <= sumZ (map f l) <= 255 * Z.of_nat (length l).
Proof.
  induction 1 as [| p l Hp _ IH]; cbn [map sumZ fold_right length].
  - lia.
  - unfold byte in Hp. unfold sumZ in *. lia.
Qed.

Lemma everyFourth_wf (ps : list Pixel) :
  Forall wf_pixel ps -> Forall wf_pixel (everyFourth ps).
Proof.
  intros Hall. unfold everyFourth. apply Forall_map, Forall_forall.
  intros k _.
  destruct (nth_in_or_default (4 * k) ps transparentBlack) as [Hin | ->].
  - rewrite Forall_forall in Hall. apply Hall, Hin.
  - unfold wf_pixel, byte; simpl; repeat split; lia.
Qed.

Lemma div_byte (total n : Z) : 0 < n -> 0 <= total <= 255 * n -> byte (total / n).
Proof.
  intros Hn Ht. unfold byte. split.
  - apply Z.div_pos; lia.
  - apply Z.div_le_upper_bound; lia.
Qed.

(** The mean of a non-empty sample of canvas pixels is a colour. *)
Lemma meanEveryFourth_bytes (ps : list Pixel) :
  ps <> [] -> Forall wf_pixel ps ->
  let '(r, g, b) := meanEveryFourth ps in byte r /\ byte g /\ byte b.
Proof.
  intros Hne Hall. unfold meanEveryFourth.
  assert (Hn := everyFourth_length ps Hne).
  assert (Hwf := everyFourth_wf ps Hall).
  repeat split; apply div_byte; try lia; apply sumZ_bounds;
    (eapply Forall_impl; [| exact Hwf]); intros p Hp; apply Hp.
Qed.

Lemma clampByte_id (v : Z) : byte v -> V21.clampByte v = v.
Proof. unfold byte, V21.clampByte. lia. Qed.

(* ================================================================== *)
(** * The obfuscation filter in [pixel] mode *)
(* ================================================================== *)

Lemma regionPixels_length (s : Bitmap.t) (x0 y0 wd ht : Z) :
  length (regionPixels s x0 y0 wd ht) = (Z.to_nat ht * Z.to_nat wd)%nat.
Proof.
  unfold regionPixels.
  rewrite (flat_map_constant_length (c := Z.to_nat wd)).
  - unfold seqZ. rewrite length_map, length_seq. reflexivity.
  - intros j _. unfold seqZ. rewrite !length_map, length_seq. reflexivity.
Qed.

Lemma regionPixels_nonempty (s : Bitmap.t) (x0 y0 wd ht : Z) :
  0 < wd -> 0 < ht -> regionPixels s x0 y0 wd ht <> [].
Proof.
  intros Hw Hh Hnil. apply (f_equal (@length Pixel)) in Hnil.
  rewrite regionPixels_length in Hnil. simpl in Hnil. nia.
Qed.

Lemma regionPixels_wf (s : Bitmap.t) (x0 y0 wd ht : Z) :
  Bitmap.wf s -> Forall wf_pixel (regionPixels s x0 y0 wd ht).
Proof.
  intros Hwf. unfold regionPixels. apply Forall_flat_map, Forall_forall.
  intros j _. apply Forall_map, Forall_forall. intros i _.
  apply wf_getPixel, Hwf.
Qed.

(** [getImageData] on a rectangle of at least one pixel returns the bytes
    of that rectangle. *)
Lemma getImageData_region (s : Bitmap.t) (sx sy sw sh : Q) :
  1 <= toLong sw -> 1 <= toLong sh ->
  getImageData s sx sy sw sh =
  Returned (flat_map bytes
              (regionPixels s (toLong sx) (toLong sy) (toLong sw) (toLong sh))).
Proof.
  intros Hw Hh. unfold getImageData.
  destruct (Z.eqb_spec (toLong sw) 0); [lia |].
  destruct (Z.eqb_spec (toLong sh) 0); [lia |].
  destruct (Z.ltb_spec (toLong sw) 0); [lia |].
  destruct (Z.ltb_spec (toLong sh) 0); [lia |].
  cbn [orb]. rewrite !Z.abs_eq by lia. reflexivity.
Qed.

Section PixelMode.

Context {platform : Rasterizer}.

Variables (ctx : Bitmap.t) (x y : Q) (size : Z).
Hypothesis Hsize : 0 < size.

Lemma pixel_sampleW :
  (V21.sampleOf (V21.effectSizeOf size) (Bitmap.width ctx)
     (V21.startOf V21.pixel x (V21.effectSizeOf size)) ==
   inject_Z (gridSample (Bitmap.width ctx) x size))%Q.
Proof. apply sampleOf_Z; [reflexivity | apply startOf_pixel]. Qed.

Lemma pixel_sampleH :
  (V21.sampleOf (V21.effectSizeOf size) (Bitmap.height ctx)
     (V21.startOf V21.pixel y (V21.effectSizeOf size)) ==
   inject_Z (gridSample (Bitmap.height ctx) y size))%Q.
Proof. apply sampleOf_Z; [reflexivity | apply startOf_pixel]. Qed.

(** The call in [pixel] mode, with the integers it works on. *)
Lemma applyMosaicEffect_pixel :
  V21.applyMosaicEffect ctx x y size V21.pixel =
  if (gridSample (Bitmap.width ctx) x size <=? 0) ||
     (gridSample (Bitmap.height ctx) y size <=? 0)
  then Returned ctx
  else
    Returned
      (fillRect
         (V21.rgb (meanEveryFourth
                     (regionPixels ctx (gridStart x size) (gridStart y size)
                        (gridSample (Bitmap.width ctx) x size)
                        (gridSample (Bitmap.height ctx) y size))))
         (V21.startOf V21.pixel x (V21.effectSizeOf size))
         (V21.startOf V21.pixel y (V21.effectSizeOf size))
         (V21.effectSizeOf size) (V21.effectSizeOf size) ctx).
Proof.
  unfold V21.applyMosaicEffect.
  rewrite (Qle_bool_inject_Z _ _ 0 0%Q pixel_sampleW) by reflexivity.
  rewrite (Qle_bool_inject_Z _ _ 0 0%Q pixel_sampleH) by reflexivity.
  destruct (Z.leb_spec (gridSample (Bitmap.width ctx) x size) 0) as [| HW];
    [reflexivity |].
  destruct (Z.leb_spec (gridSample (Bitmap.height ctx) y size) 0) as [| HH];
    [reflexivity |].
  cbn [orb].
  assert (Tw := toLong_inject_Z _ _ pixel_sampleW).
  assert (Th := toLong_inject_Z _ _ pixel_sampleH).
  assert (Tx := toLong_inject_Z _ _ (startOf_pixel x size)).
  assert (Ty := toLong_inject_Z _ _ (startOf_pixel y size)).
  fold (gridStart x size) in Tx. fold (gridStart y size) in Ty.
  rewrite getImageData_region by lia.
  rewrite Tw, Th, Tx, Ty, averageOf_bytes. reflexivity.
Qed.

Hypothesis Hwf : Bitmap.wf ctx.

Lemma mosaicBlock_of_call :
  mosaicBlock ctx x y size (gridStart x size) (gridStart y size) (size * 4).
Proof.
  unfold mosaicBlock.
  fold (gridSample (Bitmap.width ctx) x size).
  fold (gridSample (Bitmap.height ctx) y size).
  rewrite applyMosaicEffect_pixel.
  set (SX := gridStart x size). set (SY := gridStart y size).
  set (SW := gridSample (Bitmap.width ctx) x size).
  set (SH := gridSample (Bitmap.height ctx) y size).
  set (E := size * 4).
  destruct Hwf as (Hw0 & Hh0 & Hlen & Hall).
  destruct ((SW <=? 0) || (SH <=? 0)) eqn:Hguard.
  - exists ctx. repeat split. intros px py Hin.
    apply inside_iff in Hin.
    destruct ((SX <=? px) && (px <? SX + E) && (SY <=? py) && (py <? SY + E))
      eqn:Hsq; [| reflexivity].
    exfalso. unfold SW, SH, gridSample in Hguard. fold SX SY E in Hguard. lia.
  - eexists. split; [reflexivity |].
    split; [reflexivity |]. split; [reflexivity |].
    split; [apply paint_length |].
    intros px py Hin.
    unfold fillRect. rewrite getPixel_paint by assumption.
    cbn [coverage].
    rewrite (coverRect_grid _ _ (V21.effectSizeOf size)
               (V21.effectSizeOf size) SX SY E E px py
               (startOf_pixel x size) (startOf_pixel y size)
               (Qeq_refl _) (Qeq_refl _)) by (unfold E; lia).
    destruct ((SX <=? px) && (px <? SX + E) && (SY <=? py) && (py <? SY + E));
      [| reflexivity].
    assert (HW : 0 < SW) by lia. assert (HH : 0 < SH) by lia.
    split; [exact HW |]. split; [exact HH |].
    assert (Hb := meanEveryFourth_bytes (regionPixels ctx SX SY SW SH)
                    (regionPixels_nonempty ctx SX SY SW SH HW HH)
                    (regionPixels_wf ctx SX SY SW SH Hwf)).
    destruct (meanEveryFourth (regionPixels ctx SX SY SW SH)) as [[r g] b].
    destruct Hb as (Hr & Hg & Hb).
    split; [exact Hr |]. split; [exact Hg |]. split; [exact Hb |].
    rewrite source_over_opaque by reflexivity.
    unfold V21.rgb. rewrite !clampByte_id by assumption. reflexivity.
Qed.

End PixelMode.

Lemma wf_uniform (wd ht : Z) (p : Pixel) :
  0 <= wd -> 0 <= ht -> wf_pixel p -> Bitmap.wf (Bitmap.uniform wd ht p).
Proof.
  intros Hw Hh Hp. unfold Bitmap.wf, Bitmap.uniform; cbn.
  repeat split; try assumption.
  - apply repeat_length.
  - apply Forall_forall. intros q Hq. apply repeat_spec in Hq. subst q.
    exact Hp.
Qed.

Lemma wf_opaque_bytes (r g b : Z) :
  byte r -> byte g -> byte b -> wf_pixel (mkPixel r g b 255).
Proof.
  intros Hr Hg Hb. unfold wf_pixel; cbn. repeat split; try apply Hr;
    try apply Hg; try apply Hb; try lia; discriminate.
Qed.

Lemma bitmap_4x2_wf : Bitmap.wf bitmap_4x2.
Proof.
  unfold Bitmap.wf, bitmap_4x2; cbn. repeat split; try lia.
  repeat constructor; unfold byte; cbn; try lia; discriminate.
Qed.

Lemma bitmap_200x100_wf : Bitmap.wf bitmap_200x100.
Proof.
  apply wf_uniform; try lia. apply wf_opaque_bytes; unfold byte; lia.
Qed.

(** C2.  On a surface of positive size, for a point with [x, y >= 0] and
    a brush size [brushSize > 0], [applyMosaicEffect] in [pixel] mode
    works on [effectSize = brushSize * 4], [startX = floor (x /
    effectSize) * effectSize] and [startY] likewise; it returns the
    surface in which the [effectSize] square at [(startX, startY)] is
    filled with the opaque colour whose channels are the floored means,
    over every fourth pixel, of the sample of size [min effectSize
    (width - startX)] by [min effectSize (height - startY)] at [(startX,
    startY)], and in which no other pixel changed.  On a 200 x 100
    surface with [brushSize = 20], a click at [(50, 30)] fills the
    80 x 80 block at [(0, 0)], from an 80 x 80 sample. *)
Theorem mosaic_pixel_block {platform : Rasterizer}
  (ctx ctx200 : Bitmap.t) (x y : Q) (brushSize : Z) :
  Bitmap.wf ctx -> 0 < Bitmap.width ctx -> 0 < Bitmap.height ctx ->
  (0 <= x)%Q -> (0 <= y)%Q -> 0 < brushSize ->
  Bitmap.wf ctx200 -> Bitmap.width ctx200 = 200 -> Bitmap.height ctx200 = 100 ->
  let effectSize := brushSize * 4 in
  mosaicBlock ctx x y brushSize
    (Qfloor (x / inject_Z effectSize) * effectSize)
    (Qfloor (y / inject_Z effectSize) * effectSize) effectSize /\
  (mosaicBlock ctx200 50 30 20 0 0 80 /\
   Z.min 80 (Bitmap.width ctx200 - 0) = 80 /\
   Z.min 80 (Bitmap.height ctx200 - 0) = 80).
Proof.
  intros Hwf _ _ Hx Hy Hsize Hwf200 Hw200 Hh200 effectSize.
  split; [| split].
  - assert (H := mosaicBlock_of_call ctx x y brushSize Hsize Hwf).
    assert (Hes := effectSizeOf_pos brushSize Hsize).
    assert (Fx := floor_div_nonneg x _ Hx Hes).
    assert (Fy := floor_div_nonneg y _ Hy Hes).
    unfold gridStart in H. rewrite !Z.max_r in H by nia. exact H.
  - exact (mosaicBlock_of_call ctx200 50 30 20 eq_refl Hwf200).
  - rewrite Hw200, Hh200. split; reflexivity.
Qed.

Lemma mosaic_pixel_block_witness :
  let effectSize := 20 * 4 in
  mosaicBlock (platform := aliased) bitmap_4x2 (7 # 2) (1 # 4) 20
    (Qfloor ((7 # 2) / inject_Z effectSize) * effectSize)
    (Qfloor ((1 # 4) / inject_Z effectSize) * effectSize) effectSize /\
  (mosaicBlock (platform := aliased) bitmap_200x100 50 30 20 0 0 80 /\
   Z.min 80 (Bitmap.width bitmap_200x100 - 0) = 80 /\
   Z.min 80 (Bitmap.height bitmap_200x100 - 0) = 80).
Proof.
  apply (mosaic_pixel_block (platform := aliased) bitmap_4x2 bitmap_200x100
           (7 # 2) (1 # 4) 20).
  - exact bitmap_4x2_wf.
  - reflexivity.
  - reflexivity.
  - discriminate.
  - discriminate.
  - reflexivity.
  - exact bitmap_200x100_wf.
  - reflexivity.
  - reflexivity.
Defined.

Lemma mosaic_empty_sample_skipped_witness :
  V21.applyMosaicEffect (platform := aliased) bitmap_4x2 100 0 5 V21.pixel =
    Returned bitmap_4x2 /\
  exists st',
    V21.draw (platform := aliased) 100 0
      (strokingApp V21.mosaic 5 V21.pixel (Some bitmap_4x2) bitmap_4x2) =
      Returned st' /\
    V21.canvas st' = Some bitmap_4x2.
Proof.
  apply (mosaic_empty_sample_skipped (platform := aliased)
           (strokingApp V21.mosaic 5 V21.pixel (Some bitmap_4x2) bitmap_4x2)
           bitmap_4x2 (0, 0)%Q 100 0 5 V21.pixel);
    try reflexivity.
  left. vm_compute. discriminate.
Defined.

Lemma mosaic_same_cell_same_bounds_witness :
  V21.startOf V21.pixel 1 (V21.effectSizeOf 5) =
  V21.startOf V21.pixel (7 # 2) (V21.effectSizeOf 5) /\
  V21.startOf V21.pixel 1 (V21.effectSizeOf 5) =
  V21.startOf V21.pixel (1 # 4) (V21.effectSizeOf 5) /\
  V21.applyMosaicEffect (platform := aliased) bitmap_4x2 1 1 5 V21.pixel =
  V21.applyMosaicEffect (platform := aliased) bitmap_4x2 (7 # 2) (1 # 4) 5
    V21.pixel.
Proof.
  apply (mosaic_same_cell_same_bounds (platform := aliased) bitmap_4x2
           1 1 (7 # 2) (1 # 4) 5); reflexivity.
Defined.

(* ================================================================== *)
(** * The fill colour *)
(* ================================================================== *)

Lemma fill_colour_of_region (ps : list Pixel) :
  ps <> [] -> Forall wf_pixel ps ->
  exists r g b count : Z,
    V21.sumLoop (flat_map bytes ps) = (r, g, b, count) /\
    0 < count /\
    V21.averageOf (flat_map bytes ps) = (r / count, g / count, b / count) /\
    byte (r / count) /\ byte (g / count) /\ byte (b / count) /\
    V21.rgb (V21.averageOf (flat_map bytes ps)) =
      mkPixel (r / count) (g / count) (b / count) 255.
Proof.
  intros Hne Hall.
  assert (Hn := everyFourth_length ps Hne).
  assert (Hb := meanEveryFourth_bytes ps Hne Hall).
  exists (sumZ (map red (everyFourth ps))), (sumZ (map green (everyFourth ps))),
         (sumZ (map blue (everyFourth ps))), (Z.of_nat (length (everyFourth ps))).
  rewrite averageOf_bytes. unfold meanEveryFourth in *.
  destruct Hb as (Hr & Hg & Hbl).
  split; [apply sumLoop_bytes |]. split; [lia |]. split; [reflexivity |].
  split; [exact Hr |]. split; [exact Hg |]. split; [exact Hbl |].
  unfold V21.rgb. rewrite !clampByte_id by assumption. reflexivity.
Qed.

Lemma Qle_bool_false_of_pos (q : Q) : (0 < q)%Q -> Qle_bool q 0 = false.
Proof.
  intros H. destruct (Qle_bool q 0) eqn:E; [| reflexivity].
  apply Qle_bool_iff in E. lra.
Qed.

(** Where C10 holds on the code.  When the clamped sample rectangle is
    at least one pixel wide and one pixel high, which in [pixel] mode
    is the case as soon as it is non-empty, the stride-16 loop runs at
    least once, so [count > 0]; the division is by that [count]; the
    channels of the fill colour are integers in [0, 255], so
    [rgb(r,g,b)] is well formed, and the call returns. *)
Theorem mosaic_fill_colour_wellformed {platform : Rasterizer}
  (ctx : Bitmap.t) (x y : Q) (size : Z) (type : V21.MosaicType) :
  Bitmap.wf ctx -> 0 < size ->
  (type = V21.pixel /\ sampleNonEmpty ctx x y size type) \/
    sampleWholePixel ctx x y size type ->
  fillColourWellFormed ctx x y size type /\
  exists ctx', V21.applyMosaicEffect ctx x y size type = Returned ctx'.
Proof.
  intros Hwf Hsize Hsample.
  assert (Hpos : sampleNonEmpty ctx x y size type).
  { destruct Hsample as [[_ H] | [Hw Hh]]; [exact H |].
    unfold sampleNonEmpty. split; lra. }
  assert (Hlong : 1 <= toLong (sampleWOf ctx x size type) /\
                  1 <= toLong (sampleHOf ctx y size type)).
  { destruct Hsample as [[-> [Hw Hh]] | [Hw Hh]].
    - unfold sampleWOf, sampleHOf in *.
      assert (Ew := pixel_sampleW ctx x size).
      assert (Eh := pixel_sampleH ctx y size).
      rewrite (toLong_inject_Z _ _ Ew), (toLong_inject_Z _ _ Eh).
      rewrite Ew in Hw. rewrite Eh in Hh.
      change 0%Q with (inject_Z 0) in Hw, Hh.
      rewrite <- Zlt_Qlt in Hw, Hh. lia.
    - split; apply toLong_ge_1; assumption. }
  destruct Hlong as [Lw Lh]. destruct Hpos as [Pw Ph].
  assert (Hdata := getImageData_region ctx
                     (V21.startOf type x (V21.effectSizeOf size))
                     (V21.startOf type y (V21.effectSizeOf size))
                     _ _ Lw Lh).
  set (ps := regionPixels _ _ _ _ _) in Hdata.
  assert (Hne : ps <> []) by (apply regionPixels_nonempty; lia).
  assert (Hall : Forall wf_pixel ps) by (apply regionPixels_wf, Hwf).
  destruct (fill_colour_of_region ps Hne Hall)
    as (r & g & b & count & Hsum & Hcount & Havg & Hr & Hg & Hb & Hrgb).
  split.
  - unfold fillColourWellFormed.
    exists (flat_map bytes ps), r, g, b, count.
    rewrite Hdata. repeat split; assumption || apply Hr || apply Hg || apply Hb.
  - unfold V21.applyMosaicEffect.
    fold (sampleWOf ctx x size type). fold (sampleHOf ctx y size type).
    rewrite (Qle_bool_false_of_pos _ Pw), (Qle_bool_false_of_pos _ Ph).
    cbn [orb]. rewrite Hdata. destruct type; eexists; reflexivity.
Qed.

Lemma mosaic_fill_colour_wellformed_witness :
  fillColourWellFormed bitmap_4x2 (23 # 2) 1 5 V21.blur /\
  exists ctx',
    V21.applyMosaicEffect (platform := aliased) bitmap_4x2 (23 # 2) 1 5
      V21.blur = Returned ctx'.
Proof.
  apply (mosaic_fill_colour_wellformed (platform := aliased)).
  - exact bitmap_4x2_wf.
  - reflexivity.
  - right. split; vm_compute; discriminate.
Defined.

(** C10, where the code fails it.  In [blur] mode the clamped sample
    can be non-empty and narrower than one pixel: on a canvas of 4 by 2
    pixels, with brush size 5, a point at [x = 13.5] has
    [startX = 3.5] and [sampleW = 0.5], which passes the guard
    [sampleW <= 0].  [getImageData] then gets the width 0 and throws
    [IndexSizeError]: the loop never runs, no fill colour is built, and
    the exception leaves [draw] uncaught. *)
Lemma mosaic_fill_colour_subpixel_sample :
  sampleNonEmpty photo_4x2 (27 # 2) 1 5 V21.blur /\
  ~ fillColourWellFormed photo_4x2 (27 # 2) 1 5 V21.blur /\
  V21.applyMosaicEffect (platform := aliased) photo_4x2 (27 # 2) 1 5
    V21.blur = Thrown IndexSizeError /\
  V21.draw (platform := aliased) (27 # 2) 1
    (strokingApp V21.mosaic 5 V21.blur (Some photo_4x2) photo_4x2) =
    Thrown IndexSizeError.
Proof.
  split; [| split; [| split]].
  - split; vm_compute; reflexivity.
  - intros (data & r & g & b & count & Hdata & _).
    vm_compute in Hdata. discriminate Hdata.
  - vm_compute. reflexivity.
  - vm_compute. reflexivity.
Qed.

(* ================================================================== *)
(** * Coverage of pixels by discs *)
(* ================================================================== *)

Lemma inDisc_iff (cx cy radius qx qy : Q) :
  inDisc cx cy radius qx qy = true <->
  (sq (qx - cx) + sq (qy - cy) <= sq radius)%Q.
Proof. unfold inDisc. apply Qle_bool_iff. Qed.

Lemma squareInDisc_covered (cx cy radius : Q) (px py : Z) :
  squareInDisc cx cy radius px py -> coverDisc cx cy radius px py = Covered.
Proof.
  intros H. unfold coverDisc. cbv zeta.
  assert (C1 : inDisc cx cy radius (inject_Z px) (inject_Z py) = true)
    by (apply inDisc_iff, H; split; lra).
  assert (C2 : inDisc cx cy radius (inject_Z px + 1) (inject_Z py) = true)
    by (apply inDisc_iff, H; split; lra).
  assert (C3 : inDisc cx cy radius (inject_Z px) (inject_Z py + 1) = true)
    by (apply inDisc_iff, H; split; lra).
  assert (C4 : inDisc cx cy radius (inject_Z px + 1) (inject_Z py + 1) = true)
    by (apply inDisc_iff, H; split; lra).
  rewrite C1, C2, C3, C4. reflexivity.
Qed.

Lemma squareOffDisc_outside (cx cy radius : Q) (px py : Z) :
  squareOffDisc cx cy radius px py -> coverDisc cx cy radius px py = Outside.
Proof.
  intros H. unfold coverDisc. cbv zeta.
  destruct (inDisc cx cy radius (inject_Z px) (inject_Z py)) eqn:C1;
  destruct (inDisc cx cy radius (inject_Z px + 1) (inject_Z py)) eqn:C2;
  destruct (inDisc cx cy radius (inject_Z px) (inject_Z py + 1)) eqn:C3;
  destruct (inDisc cx cy radius (inject_Z px + 1) (inject_Z py + 1)) eqn:C4;
  cbn [andb].
  1:{ exfalso.
      apply inDisc_iff in C1, C2, C3, C4.
      assert (M := H (inject_Z px + (1 # 2))%Q (inject_Z py + (1 # 2))%Q).
      assert (Mx : (inject_Z px <= inject_Z px + (1 # 2) <= inject_Z px + 1)%Q)
        by (split; lra).
      assert (My : (inject_Z py <= inject_Z py + (1 # 2) <= inject_Z py + 1)%Q)
        by (split; lra).
      specialize (M Mx My). clear H Mx My.
      set (a := inject_Z px) in *. set (b := inject_Z py) in *.
      clearbody a b. unfold sq in *. nra. }
  all: match goal with
       | |- (if Qle_bool ?a ?b then _ else _) = _ =>
           replace (Qle_bool a b) with true; [reflexivity |]
       end;
       symmetry; apply Qle_bool_iff, H; split_minmax; split; lra.
Qed.

(* ================================================================== *)
(** * The eraser *)
(* ================================================================== *)

(** C3 (as the code has it).  An eraser step at [(x, y)] with an original
    image present draws the original through the circle of radius
    [brushSize * 5]: a pixel wholly outside the circle is unchanged, and
    a pixel wholly inside it whose original pixel is opaque becomes
    bit-identical to the original's.  Without an original the step
    leaves the bitmap exactly as it was. *)
Theorem eraser_restores_opaque {platform : Rasterizer}
  (st : V21.App) (ctx : Bitmap.t) (last : Q * Q) (x y : Q) :
  V21.isDrawing st = true -> V21.canvas st = Some ctx ->
  V21.lastPos st = Some last -> V21.activeTool st = V21.eraser ->
  0 <= V21.brushSize st -> Bitmap.wf ctx ->
  let radius := inject_Z (V21.brushSize st * 5) in
  match V21.originalImageObj st with
  | Some img =>
      exists st' ctx',
        V21.draw x y st = Returned st' /\ V21.canvas st' = Some ctx' /\
        Bitmap.width ctx' = Bitmap.width ctx /\
        Bitmap.height ctx' = Bitmap.height ctx /\
        forall px py, Bitmap.inside ctx px py = true ->
          (squareOffDisc x y radius px py ->
           Bitmap.getPixel ctx' px py = Bitmap.getPixel ctx px py) /\
          (squareInDisc x y radius px py ->
           Bitmap.inside img px py = true ->
           opaque (Bitmap.getPixel img px py) ->
           Bitmap.getPixel ctx' px py = Bitmap.getPixel img px py)
  | None =>
      exists st', V21.draw x y st = Returned st' /\ V21.canvas st' = Some ctx
  end.
Proof.
  intros Hd Hc Hl Ht Hsize Hwf radius.
  unfold V21.draw. rewrite Hd, Hc, Hl, Ht.
  destruct (V21.originalImageObj st) as [img |].
  2:{ eexists; split; reflexivity. }
  unfold V21.eraserMultiplier.
  destruct (Z.ltb_spec (V21.brushSize st * 5) 0) as [Hneg | _]; [lia |].
  eexists. eexists. split; [reflexivity |]. split; [reflexivity |].
  split; [reflexivity |]. split; [reflexivity |].
  intros px py Hin.
  destruct Hwf as (_ & _ & Hlen & _).
  unfold drawImage, imageRect. rewrite getPixel_paint by assumption.
  cbn [coverage]. fold radius. split.
  - intros Hoff. rewrite (squareOffDisc_outside _ _ _ _ _ Hoff). reflexivity.
  - intros Hinside Himg Hopaque.
    rewrite (squareInDisc_covered _ _ _ _ _ Hinside).
    apply inside_iff in Himg.
    rewrite (coverRect_grid _ _ _ _ 0 0 (Bitmap.width img) (Bitmap.height img)
               px py (Qeq_refl _) (Qeq_refl _) (Qeq_refl _) (Qeq_refl _))
      by lia.
    replace ((0 <=? px) && (px <? 0 + Bitmap.width img) &&
             (0 <=? py) && (py <? 0 + Bitmap.height img)) with true
      by (symmetry; rewrite !andb_true_iff; lia).
    cbn [meet]. rewrite !Z.sub_0_r.
    apply source_over_opaque, Hopaque.
Qed.

Lemma eraser_restores_opaque_witness :
  let st := strokingApp V21.eraser 5 V21.pixel (Some original_2x1)
                        painted_2x1 in
  let radius := inject_Z (5 * 5) in
  exists st' ctx',
    V21.draw (platform := aliased) 1 (1 # 2) st = Returned st' /\
    V21.canvas st' = Some ctx' /\
    Bitmap.width ctx' = Bitmap.width painted_2x1 /\
    Bitmap.height ctx' = Bitmap.height painted_2x1 /\
    forall px py, Bitmap.inside painted_2x1 px py = true ->
      (squareOffDisc 1 (1 # 2) radius px py ->
       Bitmap.getPixel ctx' px py = Bitmap.getPixel painted_2x1 px py) /\
      (squareInDisc 1 (1 # 2) radius px py ->
       Bitmap.inside original_2x1 px py = true ->
       opaque (Bitmap.getPixel original_2x1 px py) ->
       Bitmap.getPixel ctx' px py = Bitmap.getPixel original_2x1 px py).
Proof.
  apply (eraser_restores_opaque (platform := aliased)
           (strokingApp V21.eraser 5 V21.pixel (Some original_2x1) painted_2x1)
           painted_2x1 (0, 0)%Q 1 (1 # 2)); try reflexivity.
  - discriminate.
  - unfold Bitmap.wf, painted_2x1; cbn. repeat split; try lia.
    repeat constructor; unfold byte; cbn; try lia; discriminate.
Defined.

(** Against C3 as stated: where the original is transparent, drawing it
    over the canvas changes nothing, so paint over a transparent pixel
    of the original survives the eraser.  The painted canvas is the one a
    brush stroke leaves on the loaded original. *)
Lemma eraser_keeps_paint_over_transparency :
  (exists st',
     V21.draw (platform := aliased) 1 (1 # 2)
       (strokingApp V21.brush 5 V21.pixel (Some original_2x1) original_2x1) =
       Returned st' /\
     V21.canvas st' = Some painted_2x1) /\
  ~ eraserRestoresAll (platform := aliased)
      (strokingApp V21.eraser 5 V21.pixel (Some original_2x1) painted_2x1)
      painted_2x1 original_2x1 1 (1 # 2).
Proof.
  split.
  { eexists. split; vm_compute; reflexivity. }
  intros (st' & ctx' & Hdraw & Hcanvas & Hall).
  vm_compute in Hdraw. injection Hdraw as <-.
  cbn in Hcanvas. injection Hcanvas as <-.
  specialize (Hall 0 0 eq_refl eq_refl).
  assert (Hin : squareInDisc 1 (1 # 2) (inject_Z (5 * 5)) 0 0).
  { intros qx qy [Hx0 Hx1] [Hy0 Hy1]. unfold sq.
    change (inject_Z 0) with 0%Q in *.
    change (inject_Z (5 * 5)) with 25%Q.
    assert (Ex : ((qx - 1) * (qx - 1) <= 1)%Q) by nra.
    assert (Ey : ((qy - (1 # 2)) * (qy - (1 # 2)) <= 1)%Q) by nra.
    lra. }
  specialize (Hall Hin). vm_compute in Hall. discriminate Hall.
Qed.

(* ================================================================== *)
(** * Committing a crop *)
(* ================================================================== *)

Lemma isInteger_inject_Z (q : Q) (z : Z) :
  (q == inject_Z z)%Q -> isInteger q = true.
Proof.
  intros H. unfold isInteger.
  rewrite (Qfloor_comp _ _ H), Qfloor_Z. apply Qeq_bool_iff, H.
Qed.

Lemma bitmap_eq (s1 s2 : Bitmap.t) :
  Bitmap.width s1 = Bitmap.width s2 -> Bitmap.height s1 = Bitmap.height s2 ->
  Bitmap.pixels s1 = Bitmap.pixels s2 -> s1 = s2.
Proof. destruct s1, s2; cbn; intros; subst; reflexivity. Qed.

Section Copies.

Context {platform : Rasterizer}.

(** Painting every pixel of a cleared bitmap with the pixel an image has
    at the same place reproduces the image. *)
Lemma paint_copy_onto_blank (sh : Shape) (img : Bitmap.t) :
  Bitmap.wf img ->
  (forall px py, Bitmap.inside img px py = true -> coverage sh px py = Covered) ->
  paint sh (fun px py => Bitmap.getPixel img (px - 0) (py - 0))
        (Bitmap.blank (Bitmap.width img) (Bitmap.height img)) = img.
Proof.
  intros Hwf Hcov. destruct Hwf as (Hw & Hh & Hlen & Hall).
  apply bitmap_eq; try reflexivity.
  apply pixels_ext; try reflexivity; try assumption.
  - rewrite paint_length. apply blank_length.
  - intros px py Hin. rewrite getPixel_paint.
    + cbn [Bitmap.blank Bitmap.uniform Bitmap.width Bitmap.height
           Bitmap.inside] in Hin.
      rewrite (Hcov px py Hin), !Z.sub_0_r, getPixel_blank.
      apply source_over_blank, wf_getPixel.
      repeat split; assumption.
    + apply blank_length.
    + exact Hin.
Qed.

Lemma imageRect_covers (img : Bitmap.t) (px py : Z) :
  Bitmap.inside img px py = true ->
  coverage (imageRect img 0 0) px py = Covered.
Proof.
  intros Hin. apply inside_iff in Hin. unfold imageRect. cbn [coverage].
  rewrite (coverRect_grid _ _ _ _ 0 0 (Bitmap.width img) (Bitmap.height img)
             px py (Qeq_refl _) (Qeq_refl _) (Qeq_refl _) (Qeq_refl _))
    by lia.
  replace ((0 <=? px) && (px <? 0 + Bitmap.width img) &&
           (0 <=? py) && (py <? 0 + Bitmap.height img)) with true
    by (symmetry; rewrite !andb_true_iff; lia).
  reflexivity.
Qed.

(** Drawn at the origin of a cleared canvas of its own size, an image
    shows as it is. *)
Lemma drawImage_onto_blank (img : Bitmap.t) :
  Bitmap.wf img ->
  drawImage img 0 0 None
            (Bitmap.blank (Bitmap.width img) (Bitmap.height img)) = img.
Proof.
  intros Hwf. unfold drawImage.
  apply paint_copy_onto_blank; [exact Hwf | apply imageRect_covers].
Qed.

(** Copying the whole of a bitmap, unscaled, onto a cleared canvas of
    the same size reproduces the bitmap. *)
Lemma drawImage9_whole_onto_blank (cv : Bitmap.t) (sx sy sw sh : Q) :
  Bitmap.wf cv -> 0 < Bitmap.width cv -> 0 < Bitmap.height cv ->
  (sx == 0)%Q -> (sy == 0)%Q ->
  (sw == inject_Z (Bitmap.width cv))%Q ->
  (sh == inject_Z (Bitmap.height cv))%Q ->
  drawImage9 cv sx sy sw sh 0 0 sw sh
             (Bitmap.blank (Bitmap.width cv) (Bitmap.height cv)) = cv.
Proof.
  intros Hwf HW HH Hsx Hsy Hsw Hsh. unfold drawImage9.
  rewrite (Qeq_bool_false_pos sw _ Hsw HW), (Qeq_bool_false_pos sh _ Hsh HH).
  rewrite (isInteger_inject_Z sx 0 Hsx), (isInteger_inject_Z sy 0 Hsy),
          (isInteger_inject_Z sw _ Hsw), (isInteger_inject_Z sh _ Hsh).
  replace (Qeq_bool sw sw) with true by (symmetry; apply Qeq_bool_iff; reflexivity).
  replace (Qeq_bool sh sh) with true by (symmetry; apply Qeq_bool_iff; reflexivity).
  replace (Qle_bool 0 sw) with true
    by (symmetry; apply Qle_bool_iff; rewrite Hsw;
        change 0%Q with (inject_Z 0); rewrite <- Zle_Qle; lia).
  replace (Qle_bool 0 sh) with true
    by (symmetry; apply Qle_bool_iff; rewrite Hsh;
        change 0%Q with (inject_Z 0); rewrite <- Zle_Qle; lia).
  cbn [orb andb isInteger]. change (isInteger 0) with true. cbn [andb].
  rewrite (Qfloor_comp _ _ Hsx), (Qfloor_comp _ _ Hsy).
  change (Qfloor 0 - Qfloor 0) with 0.
  apply paint_copy_onto_blank; [exact Hwf |].
  intros px py Hin. cbn [coverage].
  rewrite (imageRect_covers cv px py Hin).
  apply inside_iff in Hin.
  rewrite (coverRect_grid 0%Q 0%Q sw sh 0 0 (Bitmap.width cv)
             (Bitmap.height cv) px py (Qeq_refl 0%Q) (Qeq_refl 0%Q) Hsw Hsh)
    by lia.
  replace ((0 <=? px) && (px <? 0 + Bitmap.width cv) &&
           (0 <=? py) && (py <? 0 + Bitmap.height cv)) with true
    by (symmetry; rewrite !andb_true_iff; lia).
  reflexivity.
Qed.

End Copies.

(** C5.  Committing the full-frame crop [{x:0, y:0, w:100, h:100}] on a
    loaded bitmap yields a bitmap of the same width and height with the
    same pixels; the new original is that same bitmap, and the editor
    leaves crop mode. *)
Theorem crop_full_frame_identity {platform : Rasterizer}
  (st : V21.App) (cv original : Bitmap.t) :
  V21.canvas st = Some cv -> V21.originalImageObj st = Some original ->
  V21.appCropRect st = fullFrame ->
  Bitmap.wf cv ->
  0 < Bitmap.width cv < 2 ^ 32 -> 0 < Bitmap.height cv < 2 ^ 32 ->
  exists cv',
    V21.canvas (V21.applyCrop st) = Some cv' /\
    Bitmap.width cv' = Bitmap.width cv /\
    Bitmap.height cv' = Bitmap.height cv /\
    Bitmap.pixels cv' = Bitmap.pixels cv /\
    V21.originalImageObj (V21.applyCrop st) = Some cv' /\
    V21.activeTool (V21.applyCrop st) = V21.none.
Proof.
  intros Hc Ho Hrc Hwf HW HH.
  unfold V21.applyCrop. rewrite Hc, Ho, Hrc. cbv zeta.
  cbn [x y w h fullFrame].
  set (cropX := ((0 / 100) * inject_Z (Bitmap.width cv))%Q).
  set (cropY := ((0 / 100) * inject_Z (Bitmap.height cv))%Q).
  set (cropW := ((100 / 100) * inject_Z (Bitmap.width cv))%Q).
  set (cropH := ((100 / 100) * inject_Z (Bitmap.height cv))%Q).
  assert (EX : (cropX == 0)%Q) by (unfold cropX; field).
  assert (EY : (cropY == 0)%Q) by (unfold cropY; field).
  assert (EW : (cropW == inject_Z (Bitmap.width cv))%Q) by (unfold cropW; field).
  assert (EH : (cropH == inject_Z (Bitmap.height cv))%Q) by (unfold cropH; field).
  assert (TW : toUnsignedLong cropW = Bitmap.width cv).
  { unfold toUnsignedLong. rewrite (toLong_inject_Z _ _ EW).
    apply Z.mod_small. lia. }
  assert (TH : toUnsignedLong cropH = Bitmap.height cv).
  { unfold toUnsignedLong. rewrite (toLong_inject_Z _ _ EH).
    apply Z.mod_small. lia. }
  rewrite TW, TH.
  destruct (Z.eqb_spec (Bitmap.width cv) 0); [lia |].
  destruct (Z.eqb_spec (Bitmap.height cv) 0); [lia |].
  cbn [orb].
  rewrite (drawImage9_whole_onto_blank cv cropX cropY cropW cropH Hwf
             (proj1 HW) (proj1 HH) EX EY EW EH).
  unfold V21.renderImage.
  cbn [V21.imageSrc V21.canvas V21.originalImageObj V21.activeTool].
  rewrite (drawImage_onto_blank cv Hwf).
  exists cv. repeat split; reflexivity.
Qed.

Lemma crop_full_frame_identity_witness :
  let st := strokingApp V21.crop 20 V21.pixel (Some bitmap_4x2) bitmap_4x2 in
  exists cv',
    V21.canvas (V21.applyCrop (platform := aliased) st) = Some cv' /\
    Bitmap.width cv' = Bitmap.width bitmap_4x2 /\
    Bitmap.height cv' = Bitmap.height bitmap_4x2 /\
    Bitmap.pixels cv' = Bitmap.pixels bitmap_4x2 /\
    V21.originalImageObj (V21.applyCrop (platform := aliased) st) = Some cv' /\
    V21.activeTool (V21.applyCrop (platform := aliased) st) = V21.none.
Proof.
  apply (crop_full_frame_identity (platform := aliased)
           (strokingApp V21.crop 20 V21.pixel (Some bitmap_4x2) bitmap_4x2)
           bitmap_4x2 bitmap_4x2); try reflexivity.
  - exact bitmap_4x2_wf.
  - split; reflexivity.
  - split; reflexivity.
Defined.

(* ================================================================== *)
(** * The slider of v2.1.0 *)
(* ================================================================== *)

Local Open Scope Q_scope.

Lemma round_between (q : Q) (lo hi : Z) :
  inject_Z lo <= q <= inject_Z hi ->
  (lo <= V21.TouchSlider.round q <= hi)%Z.
Proof.
  intros [Hl Hh]. unfold V21.TouchSlider.round. split.
  - rewrite <- (Qfloor_Z lo). apply Qfloor_resp_le. lra.
  - assert (F := Qfloor_le (q + (1 # 2))).
    assert (L : inject_Z (Qfloor (q + (1 # 2))) < inject_Z (hi + 1)).
    { rewrite inject_Z_plus. change (inject_Z 1) with 1. lra. }
    rewrite <- Zlt_Qlt in L. lia.
Qed.

Lemma percentage_unit (p : Q) : 0 <= Qmax 0 (Qmin 1 p) <= 1.
Proof. minmax_lra. Qed.

Lemma slider_target_between (lo hi : Z) (p : Q) :
  (lo <= hi)%Z -> 0 <= p <= 1 ->
  inject_Z lo <= inject_Z lo + p * (inject_Z hi - inject_Z lo) <= inject_Z hi.
Proof.
  intros Hlh Hp. rewrite Zle_Qle in Hlh.
  set (a := inject_Z lo) in *. set (c := inject_Z hi) in *.
  clearbody a c. nra.
Qed.

Lemma calculateAndSetValue_between (lo hi : Z) (ref : option DOMRect)
  (cx : Q) (st : V21.TouchSlider.State) :
  (lo <= hi)%Z ->
  (lo <= V21.TouchSlider.value st <= hi)%Z ->
  (lo <= V21.TouchSlider.value
           (V21.TouchSlider.calculateAndSetValue ref (inject_Z lo)
              (inject_Z hi) cx st) <= hi)%Z.
Proof.
  intros Hlh Hv. destruct ref as [rect |];
    unfold V21.TouchSlider.calculateAndSetValue; [| exact Hv].
  cbv zeta. cbn [V21.TouchSlider.value].
  apply round_between, slider_target_between;
    [exact Hlh | apply percentage_unit].
Qed.

Lemma slider_handle_between (lo hi : Z) (ev : V21.TouchSlider.Event)
  (st : V21.TouchSlider.State) :
  (lo <= hi)%Z ->
  (lo <= V21.TouchSlider.value st <= hi)%Z ->
  (lo <= V21.TouchSlider.value
           (V21.TouchSlider.handle (inject_Z lo) (inject_Z hi) ev st) <= hi)%Z.
Proof.
  intros Hlh Hv. destruct ev as [cx ref | cx ref | |]; cbn [V21.TouchSlider.handle].
  - unfold V21.TouchSlider.handlePointerDown.
    apply calculateAndSetValue_between; [exact Hlh | exact Hv].
  - unfold V21.TouchSlider.handlePointerMove.
    destruct (V21.TouchSlider.isDragging st); [| exact Hv].
    apply calculateAndSetValue_between; [exact Hlh | exact Hv].
  - unfold V21.TouchSlider.handlePointerUp.
    destruct (V21.TouchSlider.isDragging st); exact Hv.
  - exact Hv.
Qed.

(** X1. Whatever pointer events the slider receives, and whenever it is
    mounted anew, the value it hands to [onChange] stays between its
    integer bounds [min <= max]: from the initial brush size 20 the
    brush size stays within 5..80. *)
Theorem slider_value_in_range (lo hi : Z)
  (evs : list V21.TouchSlider.Event) (st : V21.TouchSlider.State) :
  (lo <= hi)%Z ->
  (lo <= V21.TouchSlider.value st <= hi)%Z ->
  Forall V21.TouchSlider.sized evs ->
  (lo <= V21.TouchSlider.value
           (V21.TouchSlider.run (inject_Z lo) (inject_Z hi) evs st) <= hi)%Z.
Proof.
  intros Hlh Hv Hs. revert st Hv.
  induction Hs as [| ev evs _ _ IH]; intros st Hv; [exact Hv |].
  cbn. apply IH. apply slider_handle_between; assumption.
Qed.

Lemma slider_value_in_range_witness :
  (5 <= V21.TouchSlider.value
          (V21.TouchSlider.run (inject_Z 5) (inject_Z 80)
             [V21.TouchSlider.PointerDown 100 (Some slider_rect);
              V21.TouchSlider.Remount;
              V21.TouchSlider.PointerMove 400 (Some slider_rect);
              V21.TouchSlider.PointerDown 400 (Some slider_rect);
              V21.TouchSlider.PointerUp]
             (V21.TouchSlider.mkState false 20)) <= 80)%Z.
Proof.
  apply (slider_value_in_range 5 80); [lia | cbn; lia |].
  repeat constructor; cbn; intros H; discriminate H.
Defined.

Lemma round_inject_Z (q : Q) (z : Z) :
  q == inject_Z z -> V21.TouchSlider.round q = z.
Proof.
  intros E.
  assert (H : (z <= V21.TouchSlider.round q <= z)%Z)
    by (apply round_between; lra).
  lia.
Qed.

Lemma round_monotone (q1 q2 : Q) :
  q1 <= q2 -> (V21.TouchSlider.round q1 <= V21.TouchSlider.round q2)%Z.
Proof.
  intros H. unfold V21.TouchSlider.round. apply Qfloor_resp_le. lra.
Qed.

Lemma div_pos_monotone (a c d : Q) : 0 < d -> a <= c -> a / d <= c / d.
Proof.
  intros Hd Hac. apply Qle_shift_div_l; [exact Hd |].
  assert (E : a / d * d == a) by (field; lra). lra.
Qed.

(** X2. Pressing the slider at or left of its left end sets the value
    to [min], at or right of its right end to [max]. *)
Theorem slider_saturates (lo hi : Z) (rect : DOMRect) (cx : Q)
  (st : V21.TouchSlider.State) :
  (lo <= hi)%Z -> 0 < width rect ->
  (cx <= left rect ->
   V21.TouchSlider.value
     (V21.TouchSlider.handlePointerDown (Some rect) (inject_Z lo)
        (inject_Z hi) cx st) = lo) /\
  (left rect + width rect <= cx ->
   V21.TouchSlider.value
     (V21.TouchSlider.handlePointerDown (Some rect) (inject_Z lo)
        (inject_Z hi) cx st) = hi).
Proof.
  intros Hlh Hw.
  unfold V21.TouchSlider.handlePointerDown,
    V21.TouchSlider.calculateAndSetValue.
  cbv zeta. cbn [V21.TouchSlider.value].
  set (p := (cx - left rect) / width rect).
  split; intros Hc; apply round_inject_Z.
  - assert (Hp : p <= 0).
    { assert (M := div_pos_monotone (cx - left rect) 0 (width rect) Hw).
      assert (Z0 : 0 / width rect == 0) by (field; lra).
      unfold p. lra. }
    assert (E : Qmax 0 (Qmin 1 p) == 0) by minmax_lra.
    rewrite E. ring.
  - assert (Hp : 1 <= p).
    { assert (M := div_pos_monotone (width rect) (cx - left rect)
                     (width rect) Hw).
      assert (Z1 : width rect / width rect == 1) by (field; lra).
      unfold p. lra. }
    assert (E : Qmax 0 (Qmin 1 p) == 1) by minmax_lra.
    rewrite E. ring.
Qed.

Lemma slider_saturates_witness :
  (30 <= left slider_rect ->
   V21.TouchSlider.value
     (V21.TouchSlider.handlePointerDown (Some slider_rect) (inject_Z 5)
        (inject_Z 80) 30 (V21.TouchSlider.mkState false 20)) = 5%Z) /\
  (left slider_rect + width slider_rect <= 30 ->
   V21.TouchSlider.value
     (V21.TouchSlider.handlePointerDown (Some slider_rect) (inject_Z 5)
        (inject_Z 80) 30 (V21.TouchSlider.mkState false 20)) = 80%Z).
Proof.
  apply (slider_saturates 5 80 slider_rect 30); [lia | reflexivity].
Defined.

(** X3. Moving the pointer to the right never lowers the value the
    slider sets, and to the left never raises it. *)
Theorem slider_monotone (lo hi : Z) (rect : DOMRect) (cx1 cx2 : Q)
  (st1 st2 : V21.TouchSlider.State) :
  (lo <= hi)%Z -> 0 < width rect -> cx1 <= cx2 ->
  (V21.TouchSlider.value
     (V21.TouchSlider.calculateAndSetValue (Some rect) (inject_Z lo)
        (inject_Z hi) cx1 st1) <=
   V21.TouchSlider.value
     (V21.TouchSlider.calculateAndSetValue (Some rect) (inject_Z lo)
        (inject_Z hi) cx2 st2))%Z.
Proof.
  intros Hlh Hw Hc. unfold V21.TouchSlider.calculateAndSetValue.
  cbv zeta. cbn [V21.TouchSlider.value].
  apply round_monotone.
  assert (Hp := div_pos_monotone (cx1 - left rect) (cx2 - left rect)
                  (width rect) Hw).
  set (p1 := (cx1 - left rect) / width rect) in *.
  set (p2 := (cx2 - left rect) / width rect) in *.
  assert (Hp' : p1 <= p2) by (apply Hp; lra).
  assert (M : Qmax 0 (Qmin 1 p1) <= Qmax 0 (Qmin 1 p2)) by minmax_lra.
  rewrite Zle_Qle in Hlh.
  set (a := inject_Z lo) in *. set (c := inject_Z hi) in *.
  set (m1 := Qmax 0 (Qmin 1 p1)) in *. set (m2 := Qmax 0 (Qmin 1 p2)) in *.
  clearbody a c m1 m2. nra.
Qed.

Lemma slider_monotone_witness :
  (V21.TouchSlider.value
     (V21.TouchSlider.calculateAndSetValue (Some slider_rect) (inject_Z 5)
        (inject_Z 80) 60 (V21.TouchSlider.mkState true 20)) <=
   V21.TouchSlider.value
     (V21.TouchSlider.calculateAndSetValue (Some slider_rect) (inject_Z 5)
        (inject_Z 80) 61 (V21.TouchSlider.mkState true 20)))%Z.
Proof.
  apply (slider_monotone 5 80 slider_rect 60 61);
    [lia | reflexivity | discriminate].
Defined.

(** X4. While no drag is under way (after a release, or after the
    slider was mounted anew by a render of the editor), pointer moves
    and releases change nothing: the value stays until the next press. *)
Theorem slider_idle_ignores_moves (min max : Q)
  (evs : list V21.TouchSlider.Event) (st : V21.TouchSlider.State) :
  V21.TouchSlider.isDragging st = false ->
  Forall sliderIdle evs ->
  V21.TouchSlider.run min max evs st = st.
Proof.
  intros Hd Hs. induction Hs as [| ev evs Hev _ IH]; [reflexivity |].
  cbn [V21.TouchSlider.run fold_left].
  assert (E : V21.TouchSlider.handle min max ev st = st).
  { destruct ev as [cx ref | cx ref | |]; cbn [V21.TouchSlider.handle].
    - destruct Hev.
    - unfold V21.TouchSlider.handlePointerMove. rewrite Hd. reflexivity.
    - unfold V21.TouchSlider.handlePointerUp. rewrite Hd. reflexivity.
    - destruct st as [d v]. cbn in Hd. subst d. reflexivity. }
  rewrite E. exact IH.
Qed.

Lemma slider_idle_ignores_moves_witness :
  let st := V21.TouchSlider.remount
              (V21.TouchSlider.handlePointerDown (Some slider_rect) 5 80 100
                 (V21.TouchSlider.mkState false 20)) in
  V21.TouchSlider.run 5 80
    [V21.TouchSlider.PointerMove 120 (Some slider_rect);
     V21.TouchSlider.PointerMove 150 (Some slider_rect);
     V21.TouchSlider.PointerUp] st = st.
Proof.
  apply slider_idle_ignores_moves; [reflexivity |].
  repeat constructor.
Defined.

(* ================================================================== *)
(** * Strokes: [startDrawing], [draw], [stopDrawing] *)
(* ================================================================== *)

Local Open Scope Z_scope.

Section Strokes.

Context {platform : Rasterizer}.

Lemma applyMosaicEffect_sameFrame (ctx ctx' : Bitmap.t) (x y : Q) (size : Z)
  (type : V21.MosaicType) :
  V21.applyMosaicEffect ctx x y size type = Returned ctx' ->
  sameFrame ctx' ctx.
Proof.
  unfold V21.applyMosaicEffect. cbv zeta.
  destruct (_ || _).
  - intros E. injection E as <-. repeat split.
  - destruct (getImageData _ _ _ _ _) as [data | e]; [| discriminate].
    destruct type; intros E; injection E as <-;
      unfold fillRect, fillDisc, sameFrame;
      rewrite paint_width, paint_height, paint_length; repeat split.
Qed.

(** What a returning [draw] can have done. *)
Lemma draw_returned (x y : Q) (st st' : V21.App) :
  V21.draw x y st = Returned st' ->
  st' = st \/
  exists ctx c',
    V21.canvas st = Some ctx /\ st' = V21.setCanvas c' (x, y) st /\
    (V21.activeTool st <> V21.brush -> sameFrame c' ctx) /\
    (V21.activeTool st = V21.none \/ V21.activeTool st = V21.crop -> c' = ctx).
Proof.
  unfold V21.draw.
  destruct (V21.isDrawing st); [| intros E; injection E as <-; now left].
  destruct (V21.canvas st) as [ctx |]; [| intros E; injection E as <-; now left].
  destruct (V21.lastPos st) as [last |];
    [| intros E; injection E as <-; now left].
  intros E. right. exists ctx.
  destruct (V21.activeTool st) eqn:T.
  - destruct (V21.originalImageObj st); injection E as <-;
      exists ctx; repeat split; auto.
  - exists (strokeLine last (x, y) (V21.brushColor st) (V21.brushSize st) ctx).
    injection E as <-. split; [reflexivity |]. split; [reflexivity |].
    split; [congruence | intros [H | H]; discriminate H].
  - destruct (V21.applyMosaicEffect ctx x y (V21.brushSize st)
                (V21.mosaicType st)) as [c' | e] eqn:M; [| discriminate].
    injection E as <-. exists c'.
    split; [reflexivity |]. split; [reflexivity |].
    split; [intros _; exact (applyMosaicEffect_sameFrame _ _ _ _ _ _ M) |
            intros [H | H]; discriminate H].
  - destruct (V21.originalImageObj st) as [img |].
    + destruct (V21.brushSize st * V21.eraserMultiplier <? 0);
        [discriminate |].
      injection E as <-. eexists.
      split; [reflexivity |]. split; [reflexivity |].
      split; [| intros [H | H]; discriminate H].
      intros _. unfold drawImage, sameFrame.
      rewrite paint_width, paint_height, paint_length. repeat split.
    + injection E as <-. exists ctx. repeat split; auto.
  - destruct (V21.originalImageObj st); injection E as <-;
      exists ctx; repeat split; auto.
Qed.

Lemma strokeStep_cases (ev : V21.StrokeEvent) (st : V21.App) :
  sameSettings (V21.strokeStep ev st) st /\
  (V21.canvas (V21.strokeStep ev st) = V21.canvas st \/
   exists ctx c',
     V21.canvas st = Some ctx /\
     V21.canvas (V21.strokeStep ev st) = Some c' /\
     (V21.activeTool st <> V21.brush -> sameFrame c' ctx) /\
     (V21.activeTool st = V21.none \/ V21.activeTool st = V21.crop ->
      c' = ctx)).
Proof.
  destruct ev as [x y | x y |]; cbn [V21.strokeStep].
  - unfold V21.startDrawing.
    assert (B : sameSettings (V21.beginStroke x y st) st)
      by (repeat split).
    assert (G : sameSettings
                  match V21.draw x y (V21.beginStroke x y st) with
                  | Returned st' => st'
                  | Thrown _ => V21.beginStroke x y st
                  end st /\
                (V21.canvas
                   match V21.draw x y (V21.beginStroke x y st) with
                   | Returned st' => st'
                   | Thrown _ => V21.beginStroke x y st
                   end = V21.canvas st \/
                 exists ctx c',
                   V21.canvas st = Some ctx /\
                   V21.canvas
                     match V21.draw x y (V21.beginStroke x y st) with
                     | Returned st' => st'
                     | Thrown _ => V21.beginStroke x y st
                     end = Some c' /\
                   (V21.activeTool st <> V21.brush -> sameFrame c' ctx) /\
                   (V21.activeTool st = V21.none \/
                    V21.activeTool st = V21.crop -> c' = ctx))).
    { destruct (V21.draw x y (V21.beginStroke x y st)) as [st' | e] eqn:D;
        [| split; [exact B | left; reflexivity]].
      apply draw_returned in D.
      destruct D as [-> | (ctx & c' & Hc & -> & Hf & Hn)];
        [split; [exact B | left; reflexivity] |].
      split; [repeat split |].
      right. exists ctx, c'. cbn in Hc, Hf, Hn.
      split; [exact Hc |]. split; [reflexivity |].
      split; [exact Hf | exact Hn]. }
    destruct (V21.activeTool st);
      try exact G; split; try (left; reflexivity); repeat split.
  - destruct (V21.draw x y st) as [st' | e] eqn:D;
      [| split; [repeat split | left; reflexivity]].
    apply draw_returned in D.
    destruct D as [-> | (ctx & c' & Hc & -> & Hf & Hn)];
      [split; [repeat split | left; reflexivity] |].
    split; [repeat split |].
    right. exists ctx, c'.
    split; [exact Hc |]. split; [reflexivity |].
    split; [exact Hf | exact Hn].
  - split; [repeat split | left; reflexivity].
Qed.

Lemma sameSettings_trans (a b c : V21.App) :
  sameSettings a b -> sameSettings b c -> sameSettings a c.
Proof.
  unfold sameSettings. intros H1 H2.
  repeat match goal with H : _ /\ _ |- _ => destruct H end.
  repeat split; congruence.
Qed.

Lemma sameFrame_trans (a b c : Bitmap.t) :
  sameFrame a b -> sameFrame b c -> sameFrame a c.
Proof.
  unfold sameFrame. intros (A1 & A2 & A3) (B1 & B2 & B3).
  repeat split; congruence.
Qed.

(** X7. No sequence of stroke events (press, move, release on the
    canvas) changes the loaded image, the original kept for the eraser,
    the active tool, the brush colour and size, the mosaic type or the
    crop rectangle: strokes write the canvas bitmap and the two stroke
    refs only. *)
Theorem stroke_keeps_settings (evs : list V21.StrokeEvent) (st : V21.App) :
  sameSettings (V21.strokeRun evs st) st.
Proof.
  revert st. induction evs as [| ev evs IH]; intros st.
  - repeat split.
  - change (V21.strokeRun (ev :: evs) st)
      with (V21.strokeRun evs (V21.strokeStep ev st)).
    apply (sameSettings_trans _ (V21.strokeStep ev st)).
    + apply IH.
    + apply strokeStep_cases.
Qed.

(** X8. With no tool or with the crop tool selected, no sequence of
    stroke events changes the canvas bitmap. *)
Theorem stroke_inactive_tool (evs : list V21.StrokeEvent) (st : V21.App) :
  V21.activeTool st = V21.none \/ V21.activeTool st = V21.crop ->
  V21.canvas (V21.strokeRun evs st) = V21.canvas st.
Proof.
  revert st. induction evs as [| ev evs IH]; intros st Ht; [reflexivity |].
  change (V21.strokeRun (ev :: evs) st)
      with (V21.strokeRun evs (V21.strokeStep ev st)).
  destruct (strokeStep_cases ev st) as [S C].
  assert (Ht' : V21.activeTool (V21.strokeStep ev st) = V21.none \/
                V21.activeTool (V21.strokeStep ev st) = V21.crop).
  { destruct S as (_ & _ & -> & _). exact Ht. }
  rewrite (IH _ Ht').
  destruct C as [C | (ctx & c' & Hc & Hc' & _ & Hn)]; [exact C |].
  rewrite Hc, Hc', (Hn Ht). reflexivity.
Qed.

(** X9. After a release (or the mouse leaving the canvas), moves over
    the canvas draw nothing and leave the editor as the release left
    it, until the next press. *)
Theorem stroke_moves_after_release (pts : list (Q * Q)) (st : V21.App) :
  V21.strokeRun
    (V21.StopDrawing :: map (fun p => V21.Draw (fst p) (snd p)) pts) st =
  V21.stopDrawing st.
Proof.
  cbn [V21.strokeRun fold_left V21.strokeStep].
  induction pts as [| p pts IH]; [reflexivity |].
  cbn [map fold_left V21.strokeStep].
  exact IH.
Qed.

(** X10. With the mosaic or the eraser tool (any tool but the brush,
    whose rasterisation is the platform's), stroke events never resize
    the canvas: after any sequence the bitmap has the width, the height
    and the pixel count it had. *)
Theorem stroke_keeps_frame (evs : list V21.StrokeEvent) (st : V21.App)
  (ctx : Bitmap.t) :
  V21.activeTool st <> V21.brush -> V21.canvas st = Some ctx ->
  exists ctx', V21.canvas (V21.strokeRun evs st) = Some ctx' /\
               sameFrame ctx' ctx.
Proof.
  revert st ctx. induction evs as [| ev evs IH]; intros st ctx Ht Hc.
  - exists ctx. split; [exact Hc | repeat split].
  - change (V21.strokeRun (ev :: evs) st)
      with (V21.strokeRun evs (V21.strokeStep ev st)).
    destruct (strokeStep_cases ev st) as [S C].
    assert (Ht' : V21.activeTool (V21.strokeStep ev st) <> V21.brush).
    { destruct S as (_ & _ & -> & _). exact Ht. }
    destruct C as [C | (c0 & c' & Hc0 & Hc' & Hf & _)].
    + rewrite Hc in C. exact (IH _ ctx Ht' C).
    + destruct (IH _ c' Ht' Hc') as (c2 & E2 & F2).
      exists c2. split; [exact E2 |].
      rewrite Hc in Hc0. injection Hc0 as <-.
      exact (sameFrame_trans _ _ _ F2 (Hf Ht)).
Qed.

Lemma brush_draws_polyline (pts : list (Q * Q)) (st : V21.App)
  (ctx : Bitmap.t) (last : Q * Q) :
  V21.activeTool st = V21.brush -> V21.isDrawing st = true ->
  V21.canvas st = Some ctx -> V21.lastPos st = Some last ->
  V21.canvas
    (V21.strokeRun (map (fun p => V21.Draw (fst p) (snd p)) pts) st) =
  Some (polyline (V21.brushColor st) (V21.brushSize st) last pts ctx).
Proof.
  revert st ctx last.
  induction pts as [| [px py] pts IH]; intros st ctx last Ht Hd Hc Hl.
  - exact Hc.
  - cbn [map V21.strokeRun fold_left V21.strokeStep fst snd polyline].
    unfold V21.draw. rewrite Hd, Hc, Hl, Ht.
    change (fold_left (fun s ev => V21.strokeStep ev s) ?l ?s)
      with (V21.strokeRun l s).
    rewrite (IH _ (strokeLine last (px, py) (V21.brushColor st)
                     (V21.brushSize st) ctx) (px, py));
      try reflexivity; assumption.
Qed.

(** X11. A brush stroke is the polyline through the reported points:
    a press at [p0] followed by moves to [p1 .. pn] strokes the segment
    from [p0] to itself and then each segment from [p(i-1)] to [p(i)],
    in the colour and width of the brush. *)
Theorem brush_stroke_polyline (pts : list (Q * Q)) (st : V21.App)
  (ctx : Bitmap.t) (x0 y0 : Q) :
  V21.activeTool st = V21.brush -> V21.canvas st = Some ctx ->
  V21.canvas
    (V21.strokeRun
       (V21.StartDrawing x0 y0 ::
        map (fun p => V21.Draw (fst p) (snd p)) pts) st) =
  Some (polyline (V21.brushColor st) (V21.brushSize st) (x0, y0)
          ((x0, y0) :: pts) ctx).
Proof.
  intros Ht Hc.
  cbn [V21.strokeRun fold_left V21.strokeStep polyline].
  unfold V21.startDrawing. rewrite Ht.
  unfold V21.draw.
  cbn [V21.beginStroke V21.isDrawing V21.canvas V21.lastPos V21.activeTool
       V21.brushColor V21.brushSize].
  rewrite Hc, Ht.
  change (fold_left (fun s ev => V21.strokeStep ev s) ?l ?s)
    with (V21.strokeRun l s).
  rewrite (brush_draws_polyline pts _
             (strokeLine (x0, y0) (x0, y0) (V21.brushColor st)
                (V21.brushSize st) ctx) (x0, y0));
    try reflexivity.
  exact Ht.
Qed.

End Strokes.

Lemma stroke_inactive_tool_witness :
  V21.canvas
    (V21.strokeRun (platform := aliased)
       [V21.StartDrawing 1 1; V21.Draw 2 1; V21.Draw 3 1; V21.StopDrawing]
       (strokingApp V21.crop 20 V21.pixel (Some bitmap_4x2) bitmap_4x2)) =
  V21.canvas (strokingApp V21.crop 20 V21.pixel (Some bitmap_4x2) bitmap_4x2).
Proof.
  apply (stroke_inactive_tool (platform := aliased)). right. reflexivity.
Defined.

Lemma stroke_keeps_frame_witness :
  exists ctx',
    V21.canvas
      (V21.strokeRun (platform := aliased)
         [V21.StartDrawing 1 1; V21.Draw 2 1; V21.StopDrawing; V21.Draw 3 1]
         (idleApp V21.mosaic bitmap_4x2)) = Some ctx' /\
    sameFrame ctx' bitmap_4x2.
Proof.
  apply (stroke_keeps_frame (platform := aliased)); [discriminate | reflexivity].
Defined.

Lemma brush_stroke_polyline_witness :
  V21.canvas
    (V21.strokeRun (platform := aliased)
       (V21.StartDrawing 1 1 ::
        map (fun p => V21.Draw (fst p) (snd p)) [(2, 1); (3, 1)]%Q)
       (idleApp V21.brush bitmap_4x2)) =
  Some (polyline (platform := aliased) opaqueRed 20 (1, 1)%Q
          [(1, 1); (2, 1); (3, 1)]%Q bitmap_4x2).
Proof.
  apply (brush_stroke_polyline (platform := aliased)
           [(2, 1); (3, 1)]%Q (idleApp V21.brush bitmap_4x2) bitmap_4x2 1 1);
    reflexivity.
Defined.

(* ================================================================== *)
(** * More on the crop overlays *)
(* ================================================================== *)

Local Open Scope Q_scope.

(** ** v1.3.0 in doubles *)

(** On exact numbers the resize of v1.3.0 keeps the six inequalities
    when the pointer's percentage is in the frame. *)
Lemma V13_pct_unit (q : Q) : 0 <= Qmax 0 (Qmin 100 q) <= 100.
Proof. minmax_lra. Qed.

Lemma V13_newRect_valid (mode : V13.Mode) (s : CropRect) (mx my : Q) :
  0 <= mx <= 100 -> 0 <= my <= 100 ->
  validRect V13.minSize s -> validRect V13.minSize (V13.newRect mode s mx my).
Proof.
  unfold validRect.
  intros Hmx Hmy (Hx & Hy & Hr & Hb & Hw & Hh).
  destruct mode; cbn [V13.newRect x y w h]; unfold V13.minSize in *;
    cbv zeta; cbn [x y w h]; repeat split; minmax_lra.
Qed.

Lemma V13_move_valid (s : CropRect) (dX dY : Q) :
  validRect V13.minSize s ->
  validRect V13.minSize
    (mkRect (Qmax 0 (Qmin (100 - w s) (x s + dX)))
            (Qmax 0 (Qmin (100 - h s) (y s + dY))) (w s) (h s)).
Proof.
  unfold validRect.
  intros (Hx & Hy & Hr & Hb & Hw & Hh). cbn [x y w h].
  unfold V13.minSize in *. repeat split; minmax_lra.
Qed.

Lemma V13d_pct_inFrame (q : float) :
  F64.finite q = true -> inFrame (F64.Math.max 0 (F64.Math.min 100 q)).
Proof.
  intros Fq.
  destruct (min_value _ _ finite_100 Fq) as [Fm Em].
  destruct (max_value _ _ finite_0 Fm) as [Fn En].
  split; [exact Fn |]. rewrite En, Em, value_0, value_100.
  apply V13_pct_unit.
Qed.

Lemma V13d_low_value (p len m : float) :
  V13d.exactLow p len m ->
  let n := F64.Math.min m (p + len - V13d.minSize) in
  (F64.finite n = true /\ F64.finite (p + len - n) = true) /\
  F64.value n == Qmin (F64.value m) (F64.value p + F64.value len - V13.minSize) /\
  F64.value (p + len - n) == F64.value p + F64.value len - F64.value n.
Proof.
  unfold V13d.exactLow, F64.exactAdd, F64.exactSub. cbv zeta.
  intros (Fm & (Fa & Ea) & (Fb & Eb) & (Fc & Ec)).
  destruct (min_value _ _ Fm Fb) as [Fn En].
  split; [split; assumption |]. split.
  - rewrite En, Eb, Ea. unfold V13d.minSize, V13.minSize.
    rewrite value_1. reflexivity.
  - rewrite Ec, Ea. reflexivity.
Qed.

Lemma V13d_high_value (p len m : float) :
  V13d.exactHigh p len m ->
  let n := F64.Math.max (p + V13d.minSize) m in
  F64.finite (n - p) = true /\
  F64.value (n - p) ==
    Qmax (F64.value p + V13.minSize) (F64.value m) - F64.value p.
Proof.
  unfold V13d.exactHigh, F64.exactAdd, F64.exactSub. cbv zeta.
  intros (Fm & (Fa & Ea) & (Fb & Eb)).
  destruct (max_value _ _ Fa Fm) as [Fn En].
  split; [exact Fb |].
  rewrite Eb, En, Ea. unfold V13d.minSize, V13.minSize.
  rewrite value_1. reflexivity.
Qed.

Lemma V13d_newRect_value (mode : V13.Mode) (s : F64.CropRect)
  (mx my : float) :
  V13d.exactUpdate mode s mx my ->
  rect_eq (rectValue (V13d.newRect mode s mx my))
          (V13.newRect mode (rectValue s) (F64.value mx) (F64.value my)).
Proof.
  unfold rect_eq.
  destruct mode; cbn [V13d.exactUpdate]; intros E;
    try match type of E with _ /\ _ => destruct E as [E1 E2] end;
    cbn [V13d.newRect V13.newRect rectValue x y w h F64.x F64.y F64.w F64.h];
    cbv zeta;
    cbn [x y w h];
    repeat match goal with
    | H : V13d.exactLow _ _ _ |- _ =>
        apply V13d_low_value in H; cbv zeta in H; destruct H as (_ & ? & ?)
    | H : V13d.exactHigh _ _ _ |- _ =>
        apply V13d_high_value in H; cbv zeta in H; destruct H as [_ ?]
    end;
    repeat split; try reflexivity; try assumption;
    match goal with
    | Hw : F64.value ?t == _ |- F64.value ?t == _ => rewrite Hw
    end;
    try match goal with
    | Hn : F64.value ?n == Qmin _ _ |- context [F64.value ?n] => rewrite Hn
    end; reflexivity.
Qed.

Lemma V13d_newRect_finite (mode : V13.Mode) (s : F64.CropRect)
  (mx my : float) :
  F64.finiteRect s = true -> V13d.exactUpdate mode s mx my ->
  F64.finiteRect (V13d.newRect mode s mx my) = true.
Proof.
  intros F. assert (F' := F). revert F'.
  rewrite !finiteRect_fields. intros (Fx & Fy & Fw & Fh).
  destruct mode; cbn [V13d.exactUpdate]; intros E;
    try match type of E with _ /\ _ => destruct E as [E1 E2] end;
    cbn [V13d.newRect F64.x F64.y F64.w F64.h]; cbv zeta;
    repeat match goal with
    | H : V13d.exactLow _ _ _ |- _ =>
        apply V13d_low_value in H; cbv zeta in H; destruct H as ((? & ?) & _)
    | H : V13d.exactHigh _ _ _ |- _ =>
        apply V13d_high_value in H; cbv zeta in H; destruct H as [? _]
    end;
    repeat split; assumption.
Qed.

Lemma V13d_newRect_valid (mode : V13.Mode) (s : F64.CropRect)
  (mx my : float) :
  inFrame mx -> inFrame my ->
  validRect64 V13.minSize s -> V13d.exactUpdate mode s mx my ->
  validRect64 V13.minSize (V13d.newRect mode s mx my).
Proof.
  intros [_ Hx] [_ Hy] [F V] E.
  split; [apply V13d_newRect_finite; assumption |].
  apply (validRect_rect_eq _ _ _ (V13d_newRect_value mode s mx my E)).
  apply V13_newRect_valid; assumption.
Qed.

Lemma V13d_moved_valid (s : F64.CropRect) (dX dY : float) :
  validRect64 V13.minSize s -> V13d.exactMoved s dX dY ->
  validRect64 V13.minSize (V13d.moved s dX dY).
Proof.
  intros [F V] [Ex Ey].
  apply finiteRect_fields in F. destruct F as (Fx & Fy & Fw & Fh).
  apply V12d_move_value in Ex. apply V12d_move_value in Ey.
  cbv zeta in Ex, Ey. destruct Ex as [Fnx Enx]. destruct Ey as [Fny Eny].
  split.
  - apply finiteRect_fields. cbn [V13d.moved F64.x F64.y F64.w F64.h].
    repeat split; assumption.
  - apply (validRect_rect_eq _ _
             (mkRect (Qmax 0 (Qmin (100 - w (rectValue s))
                                   (x (rectValue s) + F64.value dX)))
                     (Qmax 0 (Qmin (100 - h (rectValue s))
                                   (y (rectValue s) + F64.value dY)))
                     (w (rectValue s)) (h (rectValue s)))).
    + unfold rect_eq.
      cbn [V13d.moved rectValue x y w h F64.x F64.y F64.w F64.h].
      repeat split; try reflexivity; assumption.
    + apply V13_move_valid, V.
Qed.

Lemma V13d_handle_inv (ev : V13d.Event) (st : V13d.CropOverlay) :
  V13d_inv st -> V13d.exactEvent ev st -> V13d_inv (V13d.handle ev st).
Proof.
  intros [Hc Hs] E. destruct ev as [mode e | e c | |]; cbn [V13d.handle].
  - split; exact Hc.
  - unfold V13d.handleMoveWithMode, V13d.handleMove.
    unfold V13d.exactEvent in E.
    destruct (V13d.interactionMode st) as [mode |]; [| split; assumption].
    destruct c as [c |];
      [| destruct mode, (V13d.startPosRef st); split; assumption].
    destruct mode;
      try (destruct E as (Fx & Fy & E);
           destruct (V13d.startPosRef st);
           (split; [| exact Hs]);
           cbn [V13d.setCropRect V13d.cropRect];
           apply V13d_newRect_valid;
           try assumption; apply V13d_pct_inFrame; assumption).
    destruct (V13d.startPosRef st) as [start |].
    + split; [| exact Hs]. cbn [V13d.setCropRect V13d.cropRect].
      apply V13d_moved_valid; assumption.
    + split; [| exact Hs]. cbn [V13d.setCropRect V13d.cropRect V13d.newRect].
      exact Hc.
  - split; assumption.
  - split; exact Hc.
Qed.

Lemma V13d_run_inv (evs : list V13d.Event) (st : V13d.CropOverlay) :
  V13d_inv st -> V13d.exactRun evs st -> V13d_inv (V13d.run evs st).
Proof.
  revert st. induction evs as [| ev evs IH]; intros st Hi He; [exact Hi |].
  destruct He as [He Hr].
  change (V13d.run (ev :: evs) st) with (V13d.run evs (V13d.handle ev st)).
  apply IH; [apply V13d_handle_inv; assumption | exact Hr].
Qed.

(** X14. In v1.3.0, in doubles, a resize none of whose additions and
    subtractions rounds maps a rectangle that satisfies the six
    inequalities (with [minSize = 1]) to one that satisfies them,
    wherever in the frame the pointer is; hence so does the rectangle
    after any sequence of events and re-mounts from the full frame in
    which no update rounds and the pointer's percentages are
    numbers. *)
Theorem V13_crop_rect_invariant (mode : V13.Mode) (s : F64.CropRect)
  (mx my : float) (evs : list V13d.Event) :
  validRect64 V13.minSize s -> inFrame mx -> inFrame my ->
  V13d.exactUpdate mode s mx my ->
  V13d.exactRun evs V13d.mount ->
  validRect64 V13.minSize (V13d.newRect mode s mx my) /\
  validRect64 V13.minSize (V13d.cropRect (V13d.run evs V13d.mount)).
Proof.
  intros V Hx Hy E R. split.
  - apply V13d_newRect_valid; assumption.
  - apply (V13d_run_inv evs V13d.mount); [| exact R].
    split; apply fullFrame64_valid; unfold V13.minSize; lra.
Qed.

Lemma V13_crop_rect_invariant_witness :
  validRect64 V13.minSize (V13d.newRect V13.br rect64_10_10_50_50 70 20) /\
  validRect64 V13.minSize (V13d.cropRect (V13d.run drag13 V13d.mount)).
Proof.
  apply (V13_crop_rect_invariant V13.br rect64_10_10_50_50 70 20 drag13).
  - unfold validRect64, validRect. repeat split; vm_compute; discriminate.
  - split; [reflexivity | split; vm_compute; discriminate].
  - split; [reflexivity | split; vm_compute; discriminate].
  - repeat split; vm_compute; reflexivity.
  - cbn. repeat split; vm_compute; reflexivity.
Defined.

(** X16. In v1.3.0, when no addition or subtraction of the update
    rounds, the dragged edge follows the pointer and the opposite edge
    stays: a pointer at least [minSize] right of the left edge puts the
    right edge under it and leaves [x]; a pointer at least [minSize]
    left of the right edge puts the left edge under it and leaves the
    right edge; likewise for the bottom and the top. *)
Theorem V13_edge_follows_pointer (s : F64.CropRect) (mx my : float) :
  (V13d.exactUpdate V13.r s mx my ->
   F64.value (F64.x s) + V13.minSize <= F64.value mx ->
   right (rectValue (V13d.newRect V13.r s mx my)) == F64.value mx /\
   F64.x (V13d.newRect V13.r s mx my) = F64.x s) /\
  (V13d.exactUpdate V13.l s mx my ->
   F64.value mx <= right (rectValue s) - V13.minSize ->
   F64.value (F64.x (V13d.newRect V13.l s mx my)) == F64.value mx /\
   right (rectValue (V13d.newRect V13.l s mx my)) == right (rectValue s)) /\
  (V13d.exactUpdate V13.b s mx my ->
   F64.value (F64.y s) + V13.minSize <= F64.value my ->
   bottom (rectValue (V13d.newRect V13.b s mx my)) == F64.value my /\
   F64.y (V13d.newRect V13.b s mx my) = F64.y s) /\
  (V13d.exactUpdate V13.t s mx my ->
   F64.value my <= bottom (rectValue s) - V13.minSize ->
   F64.value (F64.y (V13d.newRect V13.t s mx my)) == F64.value my /\
   bottom (rectValue (V13d.newRect V13.t s mx my)) == bottom (rectValue s)).
Proof.
  repeat split; try reflexivity;
    destruct (V13d_newRect_value _ s mx my H) as (Ex & Ey & Ew & Eh);
    revert H0;
    unfold right, bottom;
    cbn [V13.newRect rectValue x y w h] in *; cbv zeta in *;
    cbn [x y w h] in *; unfold V13.minSize in *; intros H0;
    rewrite ?Ex, ?Ey, ?Ew, ?Eh; minmax_lra.
Qed.

Lemma V13_edge_follows_pointer_witness :
  (right (rectValue (V13d.newRect V13.r rect64_10_10_50_50 70 20)) ==
     F64.value 70 /\
   F64.x (V13d.newRect V13.r rect64_10_10_50_50 70 20) =
     F64.x rect64_10_10_50_50) /\
  (F64.value (F64.x (V13d.newRect V13.l rect64_10_10_50_50 5 20)) ==
     F64.value 5 /\
   right (rectValue (V13d.newRect V13.l rect64_10_10_50_50 5 20)) ==
     right (rectValue rect64_10_10_50_50)).
Proof.
  destruct (V13_edge_follows_pointer rect64_10_10_50_50 70 20)
    as (R & _ & _ & _).
  destruct (V13_edge_follows_pointer rect64_10_10_50_50 5 20)
    as (_ & L & _ & _).
  split; [apply R | apply L];
    try (repeat split; vm_compute; reflexivity); vm_compute; discriminate.
Defined.

Lemma V13_newRect_idempotent (mode : V13.Mode) (s : CropRect) (mx my : Q) :
  rect_eq (V13.newRect mode (V13.newRect mode s mx my) mx my)
          (V13.newRect mode s mx my).
Proof.
  unfold rect_eq.
  destruct mode; cbn [V13.newRect x y w h]; unfold V13.minSize;
    cbv zeta; cbn [x y w h]; repeat split; minmax_lra.
Qed.

Lemma V13_newRect_compat (mode : V13.Mode) (r1 r2 : CropRect) (mx my : Q) :
  rect_eq r1 r2 ->
  rect_eq (V13.newRect mode r1 mx my) (V13.newRect mode r2 mx my).
Proof.
  unfold rect_eq. intros (Ex & Ey & Ew & Eh).
  destruct mode; cbn [V13.newRect x y w h]; cbv zeta; cbn [x y w h];
    rewrite ?Ex, ?Ey, ?Ew, ?Eh; repeat split; reflexivity.
Qed.

Lemma rect_eq_trans (r1 r2 r3 : CropRect) :
  rect_eq r1 r2 -> rect_eq r2 r3 -> rect_eq r1 r3.
Proof.
  unfold rect_eq. intros (A1 & A2 & A3 & A4) (B1 & B2 & B3 & B4).
  rewrite A1, A2, A3, A4. repeat split; assumption.
Qed.

Lemma rect_eq_sym (r1 r2 : CropRect) : rect_eq r1 r2 -> rect_eq r2 r1.
Proof.
  unfold rect_eq. intros (A1 & A2 & A3 & A4).
  rewrite A1, A2, A3, A4. repeat split; reflexivity.
Qed.

(** X15. In v1.3.0 a resize is a function of the pointer position: the
    same position applied again changes nothing more, for every handle
    and every rectangle, as long as no addition or subtraction of the
    two updates rounds. *)
Theorem V13_resize_idempotent (mode : V13.Mode) (s : F64.CropRect)
  (mx my : float) :
  V13d.exactUpdate mode s mx my ->
  V13d.exactUpdate mode (V13d.newRect mode s mx my) mx my ->
  rect_eq (rectValue (V13d.newRect mode (V13d.newRect mode s mx my) mx my))
          (rectValue (V13d.newRect mode s mx my)).
Proof.
  intros E1 E2.
  assert (A := V13d_newRect_value mode s mx my E1).
  assert (B := V13d_newRect_value mode _ mx my E2).
  apply (rect_eq_trans _ _ _ B).
  apply (rect_eq_trans _ _ _
           (V13_newRect_compat mode _ _ (F64.value mx) (F64.value my) A)).
  apply (rect_eq_trans _ _ _ (V13_newRect_idempotent mode _ _ _)).
  apply rect_eq_sym, A.
Qed.

Lemma V13_resize_idempotent_witness :
  rect_eq
    (rectValue
       (V13d.newRect V13.tl (V13d.newRect V13.tl rect64_10_10_50_50 5 20) 5 20))
    (rectValue (V13d.newRect V13.tl rect64_10_10_50_50 5 20)).
Proof.
  apply V13_resize_idempotent; repeat split; vm_compute; reflexivity.
Defined.

(** ** v2.1.0: gestures *)

(** Without a handle held, the overlay in doubles keeps its rectangle. *)
Lemma V21d_idle_run (evs : list V21d.Event) (st : V21d.CropOverlay) :
  V21d.activeHandle st = None -> Forall overlayIdle64 evs ->
  V21d.cropRect (V21d.run evs st) = V21d.cropRect st.
Proof.
  intros Ha Hs. revert st Ha.
  induction Hs as [| ev evs Hev _ IH]; intros st Ha; [reflexivity |].
  change (V21d.run (ev :: evs) st) with (V21d.run evs (V21d.handle ev st)).
  assert (E : V21d.cropRect (V21d.handle ev st) = V21d.cropRect st /\
              V21d.activeHandle (V21d.handle ev st) = None).
  { destruct ev as [type e | e c | |]; cbn [V21d.handle].
    - destruct Hev.
    - unfold V21d.handlePointerMove. rewrite Ha. split; [reflexivity | exact Ha].
    - unfold V21d.handlePointerUp. rewrite Ha. split; [reflexivity | exact Ha].
    - split; reflexivity. }
  destruct E as [Ec Ea]. rewrite (IH _ Ea). exact Ec.
Qed.

(** X12. Of a gesture on a handle, the move that first passes the
    guards sets the rectangle: it is the update of the rectangle at the
    press by the delta between the press and that move.  The re-mount
    the move brings (the overlay is declared inside [App], which
    [setCropRect] renders anew) drops the held handle, so the further
    moves of the gesture and its release leave the rectangle as it
    is. *)
Theorem V21_drag_first_move_only (hd : V21.HandleType) (down e : F64.Pos)
  (c : F64.DOMRect) (rest : list V21d.Event) (st : V21d.CropOverlay) :
  (F64.width c =? 0)%float || (F64.height c =? 0)%float = false ->
  Forall overlayIdle64 rest ->
  V21d.cropRect
    (V21d.run (V21d.PointerDown hd down :: V21d.PointerMove e (Some c) ::
               V21d.Remount :: rest) st) =
  V21d.newRect hd (V21d.cropRect st) (V21d.dXof e down c) (V21d.dYof e down c).
Proof.
  intros Hg Hrest.
  change (V21d.run (V21d.PointerDown hd down :: V21d.PointerMove e (Some c) ::
                    V21d.Remount :: rest) st)
    with (V21d.run rest
            (V21d.remount
               (V21d.handlePointerMove e (Some c)
                  (V21d.handlePointerDown hd down st)))).
  rewrite V21d_idle_run by (reflexivity || exact Hrest).
  unfold V21d.handlePointerMove, V21d.handlePointerDown.
  cbn [V21d.activeHandle V21d.startPosRef V21d.startRectRef].
  rewrite Hg. reflexivity.
Qed.

Lemma V21_drag_first_move_only_witness :
  V21d.cropRect
    (V21d.run [V21d.PointerDown V21.r (F64.mkPos 200 50);
               V21d.PointerMove (F64.mkPos 150 50) (Some container64_200_100);
               V21d.Remount;
               V21d.PointerMove (F64.mkPos 100 50) (Some container64_200_100);
               V21d.PointerMove (F64.mkPos 20 50) (Some container64_200_100);
               V21d.PointerUp] V21d.mount) =
  V21d.newRect V21.r (V21d.cropRect V21d.mount)
    (V21d.dXof (F64.mkPos 150 50) (F64.mkPos 200 50) container64_200_100)
    (V21d.dYof (F64.mkPos 150 50) (F64.mkPos 200 50) container64_200_100).
Proof.
  apply (V21_drag_first_move_only V21.r (F64.mkPos 200 50) (F64.mkPos 150 50)
           container64_200_100);
    [vm_compute; reflexivity | repeat constructor].
Defined.

(** X13. While no handle is held (before a press, after a release, or
    after the overlay was mounted anew), pointer moves, releases and
    re-mounts leave the crop rectangle as it is. *)
Theorem V21_idle_keeps_rect (evs : list V21.Event) (st : V21.CropOverlay) :
  V21.activeHandle st = None -> Forall overlayIdle evs ->
  V21.cropRect (V21.run evs st) = V21.cropRect st /\
  V21.activeHandle (V21.run evs st) = None.
Proof.
  intros Ha Hs. revert st Ha.
  induction Hs as [| ev evs Hev _ IH]; intros st Ha; [split; [reflexivity | exact Ha] |].
  change (V21.run (ev :: evs) st) with (V21.run evs (V21.handle ev st)).
  assert (E : V21.cropRect (V21.handle ev st) = V21.cropRect st /\
              V21.activeHandle (V21.handle ev st) = None).
  { destruct ev as [type e | e c | |]; cbn [V21.handle].
    - destruct Hev.
    - unfold V21.handlePointerMove. rewrite Ha. split; [reflexivity | exact Ha].
    - unfold V21.handlePointerUp. rewrite Ha. split; [reflexivity | exact Ha].
    - split; reflexivity. }
  destruct E as [Ec Ea]. destruct (IH _ Ea) as [Ic Ia].
  split; [rewrite Ic; exact Ec | exact Ia].
Qed.

Lemma V21_idle_keeps_rect_witness :
  let st := V21.run [V21.PointerDown V21.r (mkPos 100 100);
                     V21.PointerMove (mkPos 40 70) (Some container_200_100);
                     V21.Remount] V21.mount in
  let evs := [V21.PointerMove (mkPos 20 70) (Some container_200_100);
              V21.PointerUp; V21.Remount;
              V21.PointerMove (mkPos 0 0) (Some container_200_100)] in
  V21.cropRect (V21.run evs st) = V21.cropRect st /\
  V21.activeHandle (V21.run evs st) = None.
Proof.
  apply V21_idle_keeps_rect; [reflexivity | repeat constructor].
Defined.

(* ================================================================== *)
(** * Cropping, loading and tool selection *)
(* ================================================================== *)

Local Open Scope Z_scope.

(** Every entry of the pixel list is the pixel of a place on the
    bitmap. *)
Lemma nth_as_getPixel (s : Bitmap.t) (n : nat) :
  0 <= Bitmap.width s ->
  length (Bitmap.pixels s) = Z.to_nat (Bitmap.width s * Bitmap.height s) ->
  (n < length (Bitmap.pixels s))%nat ->
  exists px py,
    Bitmap.inside s px py = true /\
    nth n (Bitmap.pixels s) transparentBlack = Bitmap.getPixel s px py.
Proof.
  intros Hw0 Hl Hn. rewrite Hl in Hn.
  set (wd := Bitmap.width s) in *. set (ht := Bitmap.height s) in *.
  assert (Hpos : 0 < wd * ht) by lia.
  assert (Hwd : 0 < wd).
  { destruct (Z.eq_dec wd 0) as [E | E];
      [rewrite E in Hpos; simpl in Hpos |]; lia. }
  assert (Hnz : Z.of_nat n < wd * ht) by lia.
  exists (Z.of_nat n mod wd), (Z.of_nat n / wd).
  set (px := Z.of_nat n mod wd). set (py := Z.of_nat n / wd).
  assert (Hx : 0 <= px < wd) by (apply Z.mod_pos_bound; lia).
  assert (Hy : 0 <= py < ht).
  { split; [apply Z.div_pos; lia |].
    apply Z.div_lt_upper_bound; [lia | exact Hnz]. }
  assert (Hn' : n = Z.to_nat (py * wd + px)).
  { unfold px, py. rewrite Z.mul_comm, <- Z_div_mod_eq_full. lia. }
  assert (Hin : Bitmap.inside s px py = true).
  { apply inside_iff. fold wd ht. lia. }
  split; [exact Hin |].
  unfold Bitmap.getPixel. rewrite Hin. fold wd. rewrite <- Hn'. reflexivity.
Qed.

Lemma wf_of_getPixel (s : Bitmap.t) :
  0 <= Bitmap.width s -> 0 <= Bitmap.height s ->
  length (Bitmap.pixels s) = Z.to_nat (Bitmap.width s * Bitmap.height s) ->
  (forall px py, Bitmap.inside s px py = true ->
                 wf_pixel (Bitmap.getPixel s px py)) ->
  Bitmap.wf s.
Proof.
  intros Hw Hh Hl Hp. repeat split; try assumption.
  apply Forall_forall. intros p Hin.
  destruct (In_nth _ _ transparentBlack Hin) as (n & Hn & <-).
  destruct (nth_as_getPixel s n Hw Hl Hn) as (px & py & Hi & ->).
  exact (Hp px py Hi).
Qed.

Lemma toUnsignedLong_inject_Z (q : Q) (z : Z) :
  (q == inject_Z z)%Q -> 0 <= z < 2 ^ 32 -> toUnsignedLong q = z.
Proof.
  intros E Hz. unfold toUnsignedLong. rewrite (toLong_inject_Z _ _ E).
  apply Z.mod_small. exact Hz.
Qed.


Section Cropping.

Context {platform : Rasterizer}.

(** The unscaled copy of the [cw] by [ch] pixels at [(cx, cy)] onto a
    cleared canvas of that size. *)
Lemma drawImage9_region_onto_blank (cv : Bitmap.t) (sx sy sw sh : Q)
  (cx cy cw ch : Z) :
  Bitmap.wf cv ->
  (sx == inject_Z cx)%Q -> (sy == inject_Z cy)%Q ->
  (sw == inject_Z cw)%Q -> (sh == inject_Z ch)%Q ->
  0 <= cx -> 0 <= cy -> 0 < cw -> 0 < ch ->
  cx + cw <= Bitmap.width cv -> cy + ch <= Bitmap.height cv ->
  let temp := drawImage9 cv sx sy sw sh 0 0 sw sh (Bitmap.blank cw ch) in
  Bitmap.width temp = cw /\ Bitmap.height temp = ch /\ Bitmap.wf temp /\
  forall px py, Bitmap.inside temp px py = true ->
    Bitmap.getPixel temp px py = Bitmap.getPixel cv (px + cx) (py + cy).
Proof.
  intros Hwf Hsx Hsy Hsw Hsh Hcx Hcy Hcw Hch HW HH.
  unfold drawImage9.
  rewrite (Qeq_bool_false_pos sw _ Hsw Hcw), (Qeq_bool_false_pos sh _ Hsh Hch).
  rewrite (isInteger_inject_Z sx _ Hsx), (isInteger_inject_Z sy _ Hsy),
          (isInteger_inject_Z sw _ Hsw), (isInteger_inject_Z sh _ Hsh).
  replace (Qeq_bool sw sw) with true by (symmetry; apply Qeq_bool_iff; reflexivity).
  replace (Qeq_bool sh sh) with true by (symmetry; apply Qeq_bool_iff; reflexivity).
  replace (Qle_bool 0 sw) with true
    by (symmetry; apply Qle_bool_iff; rewrite Hsw;
        change 0%Q with (inject_Z 0); rewrite <- Zle_Qle; lia).
  replace (Qle_bool 0 sh) with true
    by (symmetry; apply Qle_bool_iff; rewrite Hsh;
        change 0%Q with (inject_Z 0); rewrite <- Zle_Qle; lia).
  cbn [orb andb]. change (isInteger 0) with true. cbn [andb].
  rewrite (Qfloor_comp _ _ Hsx), (Qfloor_comp _ _ Hsy), !Qfloor_Z.
  change (Qfloor 0) with 0. cbv zeta.
  set (sh' := Inter (Rect 0 0 sw sh) (imageRect cv (0 - cx) (0 - cy))).
  set (src := fun px py => Bitmap.getPixel cv (px - (0 - cx)) (py - (0 - cy))).
  assert (Hpx : forall px py,
             Bitmap.inside (paint sh' src (Bitmap.blank cw ch)) px py = true ->
             Bitmap.getPixel (paint sh' src (Bitmap.blank cw ch)) px py =
             Bitmap.getPixel cv (px + cx) (py + cy)).
  { intros px py Hin.
    assert (Hin' : Bitmap.inside (Bitmap.blank cw ch) px py = true).
    { unfold Bitmap.inside in *.
      rewrite paint_width, paint_height in Hin. exact Hin. }
    rewrite getPixel_paint by (try apply blank_length; exact Hin').
    apply inside_iff in Hin'.
    cbn [Bitmap.blank Bitmap.uniform Bitmap.width Bitmap.height] in Hin'.
    unfold sh', imageRect. cbn [coverage].
    rewrite (coverRect_grid 0%Q 0%Q sw sh 0 0 cw ch px py
               (Qeq_refl 0%Q) (Qeq_refl 0%Q) Hsw Hsh) by lia.
    rewrite (coverRect_grid _ _ _ _ (0 - cx) (0 - cy) (Bitmap.width cv)
               (Bitmap.height cv) px py (Qeq_refl _) (Qeq_refl _)
               (Qeq_refl _) (Qeq_refl _)) by lia.
    replace ((0 <=? px) && (px <? 0 + cw) && (0 <=? py) && (py <? 0 + ch))
      with true by (symmetry; rewrite !andb_true_iff; lia).
    replace ((0 - cx <=? px) && (px <? 0 - cx + Bitmap.width cv) &&
             (0 - cy <=? py) && (py <? 0 - cy + Bitmap.height cv))
      with true by (symmetry; rewrite !andb_true_iff; lia).
    cbn [meet]. rewrite getPixel_blank. unfold src.
    replace (px - (0 - cx)) with (px + cx) by lia.
    replace (py - (0 - cy)) with (py + cy) by lia.
    apply source_over_blank, wf_getPixel, Hwf. }
  split; [apply paint_width |]. split; [apply paint_height |].
  split; [| exact Hpx].
  apply wf_of_getPixel.
  - rewrite paint_width. cbn. lia.
  - rewrite paint_height. cbn. lia.
  - rewrite paint_length, paint_width, paint_height. apply blank_length.
  - intros px py Hin. rewrite (Hpx px py Hin). apply wf_getPixel, Hwf.
Qed.

(** [applyCrop] on a crop rectangle that falls on the pixel grid. *)
Lemma applyCrop_aligned (st : V21.App) (cv original : Bitmap.t)
  (cx cy cw ch : Z) :
  V21.canvas st = Some cv -> V21.originalImageObj st = Some original ->
  Bitmap.wf cv ->
  (x (V21.appCropRect st) / 100 * inject_Z (Bitmap.width cv) == inject_Z cx)%Q ->
  (y (V21.appCropRect st) / 100 * inject_Z (Bitmap.height cv) == inject_Z cy)%Q ->
  (w (V21.appCropRect st) / 100 * inject_Z (Bitmap.width cv) == inject_Z cw)%Q ->
  (h (V21.appCropRect st) / 100 * inject_Z (Bitmap.height cv) == inject_Z ch)%Q ->
  0 <= cx -> 0 <= cy -> 0 < cw < 2 ^ 32 -> 0 < ch < 2 ^ 32 ->
  cx + cw <= Bitmap.width cv -> cy + ch <= Bitmap.height cv ->
  exists cv',
    V21.canvas (V21.applyCrop st) = Some cv' /\
    V21.originalImageObj (V21.applyCrop st) = Some cv' /\
    V21.imageSrc (V21.applyCrop st) = Some cv' /\
    V21.activeTool (V21.applyCrop st) = V21.none /\
    V21.isSettingsOpen (V21.applyCrop st) = false /\
    Bitmap.width cv' = cw /\ Bitmap.height cv' = ch /\ Bitmap.wf cv' /\
    forall px py, Bitmap.inside cv' px py = true ->
      Bitmap.getPixel cv' px py = Bitmap.getPixel cv (px + cx) (py + cy).
Proof.
  intros Hc Ho Hwf EX EY EW EH Hcx Hcy Hcw Hch HW HH.
  unfold V21.applyCrop. rewrite Hc, Ho. cbv zeta.
  rewrite (toUnsignedLong_inject_Z _ _ EW) by lia.
  rewrite (toUnsignedLong_inject_Z _ _ EH) by lia.
  destruct (Z.eqb_spec cw 0); [lia |].
  destruct (Z.eqb_spec ch 0); [lia |].
  cbn [orb].
  destruct (drawImage9_region_onto_blank cv _ _ _ _ cx cy cw ch Hwf
              EX EY EW EH Hcx Hcy (proj1 Hcw) (proj1 Hch) HW HH)
    as (Tw & Th & Twf & Tpx).
  set (temp := drawImage9 cv _ _ _ _ 0 0 _ _ (Bitmap.blank cw ch)) in *.
  unfold V21.renderImage.
  cbn [V21.imageSrc V21.canvas V21.originalImageObj V21.activeTool
       V21.isSettingsOpen].
  rewrite (drawImage_onto_blank temp Twf).
  exists temp. do 5 (split; [reflexivity |]).
  split; [exact Tw |]. split; [exact Th |]. split; [exact Twf | exact Tpx].
Qed.

(** X17. A crop whose four products [cropX], [cropY], [cropW], [cropH],
    computed in doubles, are whole numbers of pixels inside the canvas
    extracts that part of the canvas: the new bitmap is [cropW] by
    [cropH], its pixel at [(px, py)] is the old pixel at
    [(px + cropX, py + cropY)], it becomes the original the eraser
    restores from, and the editor goes back to no tool with the panel
    closed. *)
Theorem crop_extracts_region (rc : F64.CropRect) (st : V21.App)
  (cv original : Bitmap.t) (cx cy cw ch : Z) :
  V21.canvas st = Some cv -> V21.originalImageObj st = Some original ->
  Bitmap.wf cv ->
  Bitmap.width cv < 2 ^ 32 -> Bitmap.height cv < 2 ^ 32 ->
  isPixel (V21d.cropX rc cv) cx -> isPixel (V21d.cropY rc cv) cy ->
  isPixel (V21d.cropW rc cv) cw -> isPixel (V21d.cropH rc cv) ch ->
  0 <= cx -> 0 <= cy -> 0 < cw -> 0 < ch ->
  cx + cw <= Bitmap.width cv -> cy + ch <= Bitmap.height cv ->
  exists cv',
    V21.canvas (V21d.applyCrop rc st) = Some cv' /\
    V21.originalImageObj (V21d.applyCrop rc st) = Some cv' /\
    V21.activeTool (V21d.applyCrop rc st) = V21.none /\
    V21.isSettingsOpen (V21d.applyCrop rc st) = false /\
    Bitmap.width cv' = cw /\ Bitmap.height cv' = ch /\
    forall px py, 0 <= px < cw -> 0 <= py < ch ->
      Bitmap.getPixel cv' px py = Bitmap.getPixel cv (px + cx) (py + cy).
Proof.
  intros Hc Ho Hwf HW32 HH32 [FX EX] [FY EY] [FW EW] [FH EH]
         Hcx Hcy Hcw Hch HW HH.
  unfold V21d.applyCrop. rewrite Hc, Ho. cbv zeta.
  rewrite FX, FY, FW, FH. cbn [andb].
  rewrite (toUnsignedLong_inject_Z _ _ EW) by lia.
  rewrite (toUnsignedLong_inject_Z _ _ EH) by lia.
  destruct (Z.eqb_spec cw 0); [lia |].
  destruct (Z.eqb_spec ch 0); [lia |].
  cbn [orb].
  destruct (drawImage9_region_onto_blank cv _ _ _ _ cx cy cw ch Hwf
              EX EY EW EH Hcx Hcy Hcw Hch HW HH)
    as (Tw & Th & Twf & Tpx).
  set (temp := drawImage9 cv _ _ _ _ 0 0 _ _ (Bitmap.blank cw ch)) in *.
  unfold V21.renderImage.
  cbn [V21.imageSrc V21.canvas V21.originalImageObj V21.activeTool
       V21.isSettingsOpen].
  rewrite (drawImage_onto_blank temp Twf).
  exists temp. do 4 (split; [reflexivity |]).
  split; [exact Tw |]. split; [exact Th |].
  intros px py Hx Hy. apply Tpx, inside_iff. rewrite Tw, Th. lia.
Qed.


(** X19. Selecting the crop tool and applying the crop at once changes
    nothing in the picture: the selection resets the rectangle to the
    full frame, and the crop reproduces the canvas. *)
Theorem crop_tool_then_apply (st : V21.App) (cv original : Bitmap.t) :
  V21.activeTool st <> V21.crop ->
  V21.canvas st = Some cv -> V21.originalImageObj st = Some original ->
  Bitmap.wf cv ->
  0 < Bitmap.width cv < 2 ^ 32 -> 0 < Bitmap.height cv < 2 ^ 32 ->
  V21.appCropRect (V21.handleToolSelect V21.crop st) = fullFrame /\
  V21.canvas (V21.applyCrop (V21.handleToolSelect V21.crop st)) = Some cv /\
  V21.originalImageObj (V21.applyCrop (V21.handleToolSelect V21.crop st)) =
    Some cv.
Proof.
  intros Ht Hc Ho Hwf HW HH.
  assert (E : V21.handleToolSelect V21.crop st =
              V21.mkApp (V21.imageSrc st) (V21.originalImageObj st) V21.crop
                true (V21.brushColor st) (V21.brushSize st)
                (V21.mosaicType st) fullFrame (V21.canvas st)
                (V21.isDrawing st) (V21.lastPos st)).
  { unfold V21.handleToolSelect.
    destruct (V21.activeTool st); try reflexivity. contradiction Ht. reflexivity. }
  rewrite E. split; [reflexivity |].
  set (st1 := V21.mkApp _ _ _ _ _ _ _ _ _ _ _).
  destruct (applyCrop_aligned st1 cv original 0 0 (Bitmap.width cv)
              (Bitmap.height cv))
    as (cv' & A & B & _ & _ & _ & Ew & Eh & Hwf' & Hpx);
    try (cbn; assumption); try lia;
    try (cbn [st1 V21.appCropRect x y w h fullFrame]; field).
  assert (Ecv : cv' = cv).
  { destruct Hwf' as (W0 & H0 & L' & _). destruct Hwf as (_ & _ & L & _).
    apply bitmap_eq; try assumption.
    apply pixels_ext; try assumption.
    intros px py Hin. rewrite (Hpx px py Hin), !Z.add_0_r. reflexivity. }
  rewrite A, B, Ecv. split; reflexivity.
Qed.

(** X20. Loading a file shows it: when the chosen file has decoded
    into an image whose pixels are opaque or transparent black, the
    canvas holds exactly the image, whatever it held before, the image
    is also the original the eraser restores from, no tool is selected
    and the settings panel is closed. *)
Theorem load_shows_image (img : Bitmap.t) (st : V21.App) :
  Bitmap.wf img -> withoutBlending img = true ->
  V21.canvas (V21.handleFileChange (Some img) st) = Some img /\
  V21.originalImageObj (V21.handleFileChange (Some img) st) = Some img /\
  V21.activeTool (V21.handleFileChange (Some img) st) = V21.none /\
  V21.isSettingsOpen (V21.handleFileChange (Some img) st) = false.
Proof.
  intros Hwf _. unfold V21.handleFileChange, V21.renderImage.
  cbn [V21.imageSrc V21.canvas V21.originalImageObj].
  destruct (V21.canvas st);
    cbn [V21.canvas V21.originalImageObj V21.activeTool V21.isSettingsOpen];
    rewrite (drawImage_onto_blank img Hwf); repeat split.
Qed.

End Cropping.

Lemma photo_4x2_wf : Bitmap.wf photo_4x2.
Proof.
  unfold Bitmap.wf, photo_4x2; cbn. repeat split; try lia.
  repeat constructor; unfold byte; cbn; try lia; discriminate.
Qed.

Lemma crop_extracts_region_witness :
  exists cv',
    V21.canvas (V21d.applyCrop (platform := aliased) rect64_25_0_50_50
                  (croppingApp rect_25_0_50_50 photo_4x2)) = Some cv' /\
    V21.originalImageObj (V21d.applyCrop (platform := aliased)
                  rect64_25_0_50_50
                  (croppingApp rect_25_0_50_50 photo_4x2)) = Some cv' /\
    V21.activeTool (V21d.applyCrop (platform := aliased) rect64_25_0_50_50
                  (croppingApp rect_25_0_50_50 photo_4x2)) = V21.none /\
    V21.isSettingsOpen (V21d.applyCrop (platform := aliased)
                  rect64_25_0_50_50
                  (croppingApp rect_25_0_50_50 photo_4x2)) = false /\
    Bitmap.width cv' = 2 /\ Bitmap.height cv' = 1 /\
    forall px py, 0 <= px < 2 -> 0 <= py < 1 ->
      Bitmap.getPixel cv' px py = Bitmap.getPixel photo_4x2 (px + 1) (py + 0).
Proof.
  apply (crop_extracts_region (platform := aliased) rect64_25_0_50_50
           (croppingApp rect_25_0_50_50 photo_4x2) photo_4x2 photo_4x2
           1 0 2 1);
    try reflexivity; try exact photo_4x2_wf;
    try (split; vm_compute; reflexivity); cbn; lia.
Defined.


Lemma crop_tool_then_apply_witness :
  V21.appCropRect
    (V21.handleToolSelect V21.crop (idleApp V21.mosaic bitmap_4x2)) =
    fullFrame /\
  V21.canvas
    (V21.applyCrop (platform := aliased)
       (V21.handleToolSelect V21.crop (idleApp V21.mosaic bitmap_4x2))) =
    Some bitmap_4x2 /\
  V21.originalImageObj
    (V21.applyCrop (platform := aliased)
       (V21.handleToolSelect V21.crop (idleApp V21.mosaic bitmap_4x2))) =
    Some bitmap_4x2.
Proof.
  apply (crop_tool_then_apply (platform := aliased)
           (idleApp V21.mosaic bitmap_4x2) bitmap_4x2 bitmap_4x2);
    try reflexivity; try exact bitmap_4x2_wf; try discriminate;
    split; reflexivity.
Defined.

Lemma load_shows_image_witness :
  let st := V21.handleFileChange (platform := aliased) (Some photo_4x2)
              (idleApp V21.brush bitmap_200x100) in
  V21.canvas st = Some photo_4x2 /\
  V21.originalImageObj st = Some photo_4x2 /\
  V21.activeTool st = V21.none /\
  V21.isSettingsOpen st = false.
Proof.
  apply (load_shows_image (platform := aliased));
    [exact photo_4x2_wf | reflexivity].
Defined.

Lemma Tool_eqb_refl (tool : V21.Tool) : V21.Tool_eqb tool tool = true.
Proof. destruct tool; reflexivity. Qed.

(** X21. Tapping the button of the tool that is already active only
    shows or hides its settings panel: a second tap restores the editor
    exactly, crop rectangle included, and the pictures are not
    touched. *)
Theorem tool_reselect_round_trip (tool : V21.Tool) (st : V21.App) :
  V21.activeTool st = tool ->
  V21.handleToolSelect tool (V21.handleToolSelect tool st) = st /\
  V21.isSettingsOpen (V21.handleToolSelect tool st) =
    negb (V21.isSettingsOpen st) /\
  V21.appCropRect (V21.handleToolSelect tool st) = V21.appCropRect st /\
  V21.canvas (V21.handleToolSelect tool st) = V21.canvas st.
Proof.
  intros <-. destruct st as [src orig tl open col size mt rc cv dr lp].
  unfold V21.handleToolSelect. cbn [V21.activeTool V21.isSettingsOpen].
  rewrite Tool_eqb_refl. cbn [V21.activeTool V21.isSettingsOpen].
  rewrite Tool_eqb_refl, negb_involutive. repeat split.
Qed.

Lemma tool_reselect_round_trip_witness :
  let st := croppingApp rect_25_0_50_50 bitmap_4x2 in
  V21.handleToolSelect V21.crop (V21.handleToolSelect V21.crop st) = st /\
  V21.isSettingsOpen (V21.handleToolSelect V21.crop st) =
    negb (V21.isSettingsOpen st) /\
  V21.appCropRect (V21.handleToolSelect V21.crop st) = V21.appCropRect st /\
  V21.canvas (V21.handleToolSelect V21.crop st) = V21.canvas st.
Proof.
  apply tool_reselect_round_trip. reflexivity.
Defined.

(* ================================================================== *)
(** * More on the mosaic *)
(* ================================================================== *)

Lemma sumZ_const (f : Pixel -> Z) (c : Pixel) (l : list Pixel) :
  Forall (fun p => p = c) l -> sumZ (map f l) = f c * Z.of_nat (length l).
Proof.
  intros Hall. unfold sumZ.
  induction Hall as [| p l Hp _ IH]; cbn [map fold_right length]; [lia |].
  rewrite IH, Hp. lia.
Qed.

Lemma everyFourth_Forall (P : Pixel -> Prop) (ps : list Pixel) :
  Forall P ps -> Forall P (everyFourth ps).
Proof.
  intros Hall. unfold everyFourth. apply Forall_map, Forall_forall.
  intros k Hk. apply in_seq in Hk.
  rewrite Forall_forall in Hall. apply Hall, nth_In.
  assert (M := Nat.Div0.mul_div_le (length ps + 3) 4). lia.
Qed.

Lemma meanEveryFourth_const (c : Pixel) (ps : list Pixel) :
  ps <> [] -> Forall (fun p => p = c) ps ->
  meanEveryFourth ps = (red c, green c, blue c).
Proof.
  intros Hne Hall. unfold meanEveryFourth.
  assert (Hn := everyFourth_length ps Hne).
  assert (Hc := everyFourth_Forall _ ps Hall). cbv zeta.
  rewrite !(sumZ_const _ c _ Hc), !Z.div_mul by lia. reflexivity.
Qed.

Lemma regionPixels_Forall (P : Pixel -> Prop) (s : Bitmap.t)
  (x0 y0 wd ht : Z) :
  (forall i j, 0 <= i < wd -> 0 <= j < ht ->
               P (Bitmap.getPixel s (x0 + i) (y0 + j))) ->
  Forall P (regionPixels s x0 y0 wd ht).
Proof.
  intros H. unfold regionPixels, seqZ.
  apply Forall_flat_map, Forall_forall. intros j Hj.
  apply Forall_map, Forall_forall. intros i Hi.
  apply in_map_iff in Hj. destruct Hj as (nj & <- & Hj).
  apply in_map_iff in Hi. destruct Hi as (ni & <- & Hi).
  apply in_seq in Hj. apply in_seq in Hi. apply H; lia.
Qed.

Lemma rgb_of_rgb (t : Z * Z * Z) :
  V21.rgb (red (V21.rgb t), green (V21.rgb t), blue (V21.rgb t)) = V21.rgb t.
Proof.
  destruct t as [[r g] b]. unfold V21.rgb. cbn [red green blue].
  assert (I : forall v, V21.clampByte (V21.clampByte v) = V21.clampByte v)
    by (intros v; apply clampByte_id; unfold byte, V21.clampByte; lia).
  rewrite !I. reflexivity.
Qed.

Section MosaicMore.

Context {platform : Rasterizer}.

Lemma fillRect_grid (c : Pixel) (rx ry rw rh : Q) (X Y E F : Z)
  (s : Bitmap.t) (px py : Z) :
  length (Bitmap.pixels s) = Z.to_nat (Bitmap.width s * Bitmap.height s) ->
  (rx == inject_Z X)%Q -> (ry == inject_Z Y)%Q ->
  (rw == inject_Z E)%Q -> (rh == inject_Z F)%Q -> 0 < E -> 0 < F ->
  opaque c -> Bitmap.inside s px py = true ->
  Bitmap.getPixel (fillRect c rx ry rw rh s) px py =
  if (X <=? px) && (px <? X + E) && (Y <=? py) && (py <? Y + F)
  then c else Bitmap.getPixel s px py.
Proof.
  intros Hlen Hx Hy Hw Hh HE HF Hop Hin.
  unfold fillRect. rewrite getPixel_paint by assumption. cbn [coverage].
  rewrite (coverRect_grid rx ry rw rh X Y E F px py) by assumption.
  destruct ((X <=? px) && (px <? X + E) && (Y <=? py) && (py <? Y + F));
    [apply source_over_opaque; exact Hop | reflexivity].
Qed.

(** X22. The pixel mosaic is idempotent on its cell: once a call has
    flattened a block, a further call from any point of the same grid
    cell, with the same brush size, leaves the canvas exactly as it
    is. *)
Theorem mosaic_pixel_idempotent (ctx ctx1 : Bitmap.t) (x y x' y' : Q)
  (size : Z) :
  Bitmap.wf ctx -> 0 < size ->
  Qfloor (x' / V21.effectSizeOf size) = Qfloor (x / V21.effectSizeOf size) ->
  Qfloor (y' / V21.effectSizeOf size) = Qfloor (y / V21.effectSizeOf size) ->
  V21.applyMosaicEffect ctx x y size V21.pixel = Returned ctx1 ->
  V21.applyMosaicEffect ctx1 x' y' size V21.pixel = Returned ctx1.
Proof.
  intros Hwf Hsize Fx Fy H1.
  rewrite applyMosaicEffect_pixel in H1. rewrite applyMosaicEffect_pixel.
  assert (Gx : gridStart x' size = gridStart x size)
    by (unfold gridStart; rewrite Fx; reflexivity).
  assert (Gy : gridStart y' size = gridStart y size)
    by (unfold gridStart; rewrite Fy; reflexivity).
  assert (Sx : forall e, gridSample e x' size = gridSample e x size)
    by (intros e; unfold gridSample; rewrite Gx; reflexivity).
  assert (Sy : forall e, gridSample e y' size = gridSample e y size)
    by (intros e; unfold gridSample; rewrite Gy; reflexivity).
  rewrite !Sx, !Sy, Gx, Gy.
  assert (X0 : 0 <= gridStart x size) by (unfold gridStart; lia).
  assert (Y0 : 0 <= gridStart y size) by (unfold gridStart; lia).
  set (SX := gridStart x size) in *. set (SY := gridStart y size) in *.
  destruct Hwf as (Hw0 & Hh0 & Hlen & Hall).
  destruct ((gridSample (Bitmap.width ctx) x size <=? 0) ||
            (gridSample (Bitmap.height ctx) y size <=? 0)) eqn:Hguard.
  - injection H1 as <-. rewrite Hguard. reflexivity.
  - set (SW := gridSample (Bitmap.width ctx) x size) in *.
    set (SH := gridSample (Bitmap.height ctx) y size) in *.
    set (c := V21.rgb (meanEveryFourth (regionPixels ctx SX SY SW SH))) in *.
    assert (Hop : opaque c)
      by (unfold c, V21.rgb;
          destruct (meanEveryFourth _) as [[r g] b]; reflexivity).
    assert (HSW : 0 < SW <= size * 4 /\ SX + SW <= Bitmap.width ctx)
      by (unfold SW, gridSample in *; fold SX; lia).
    assert (HSH : 0 < SH <= size * 4 /\ SY + SH <= Bitmap.height ctx)
      by (unfold SH, gridSample in *; fold SY; lia).
    assert (P1 : forall px py, Bitmap.inside ctx px py = true ->
               Bitmap.getPixel ctx1 px py =
               if (SX <=? px) && (px <? SX + size * 4) &&
                  (SY <=? py) && (py <? SY + size * 4)
               then c else Bitmap.getPixel ctx px py).
    { intros px py Hin. injection H1 as <-.
      apply fillRect_grid; try assumption; try lia;
        try apply startOf_pixel; reflexivity. }
    assert (W1 : Bitmap.width ctx1 = Bitmap.width ctx)
      by (injection H1 as <-; apply paint_width).
    assert (H1' : Bitmap.height ctx1 = Bitmap.height ctx)
      by (injection H1 as <-; apply paint_height).
    assert (L1 : length (Bitmap.pixels ctx1) = length (Bitmap.pixels ctx))
      by (injection H1 as <-; apply paint_length).
    clear H1. rewrite W1, H1'. fold SW SH. rewrite Hguard.
    assert (R : Forall (fun p => p = c) (regionPixels ctx1 SX SY SW SH)).
    { apply regionPixels_Forall. intros i j Hi Hj.
      rewrite P1 by (apply inside_iff; lia).
      replace ((SX <=? SX + i) && (SX + i <? SX + size * 4) &&
               (SY <=? SY + j) && (SY + j <? SY + size * 4)) with true
        by (symmetry; rewrite !andb_true_iff; lia).
      reflexivity. }
    rewrite (meanEveryFourth_const c) by
      (try exact R; apply regionPixels_nonempty; lia).
    unfold c at 1 2 3. rewrite rgb_of_rgb. fold c.
    f_equal. apply bitmap_eq; try apply paint_width; try apply paint_height.
    assert (L1' : length (Bitmap.pixels ctx1) =
                  Z.to_nat (Bitmap.width ctx1 * Bitmap.height ctx1))
      by (rewrite L1, W1, H1'; exact Hlen).
    apply pixels_ext.
    + apply paint_width.
    + apply paint_height.
    + unfold fillRect. rewrite paint_width, W1. exact Hw0.
    + unfold fillRect.
      rewrite paint_length, paint_width, paint_height. exact L1'.
    + exact L1'.
    + intros px py Hin.
      assert (Hin1 : Bitmap.inside ctx1 px py = true).
      { unfold Bitmap.inside, fillRect in *.
        rewrite paint_width, paint_height in Hin. exact Hin. }
      assert (Hin0 : Bitmap.inside ctx px py = true).
      { unfold Bitmap.inside in *. rewrite W1, H1' in Hin1. exact Hin1. }
      rewrite (fillRect_grid c _ _ (V21.effectSizeOf size)
                 (V21.effectSizeOf size) (gridStart x' size) (gridStart y' size)
                 (size * 4) (size * 4) ctx1 px py L1'
                 (startOf_pixel x' size) (startOf_pixel y' size)
                 (Qeq_refl _) (Qeq_refl _)) by (try assumption; lia).
      rewrite Gx, Gy. fold SX SY. rewrite (P1 px py Hin0).
      destruct ((SX <=? px) && (px <? SX + size * 4) &&
                (SY <=? py) && (py <? SY + size * 4)); reflexivity.
Qed.

End MosaicMore.

Lemma mosaic_pixel_idempotent_witness :
  exists ctx1,
    V21.applyMosaicEffect (platform := aliased) bitmap_4x2 1 1 5 V21.pixel =
      Returned ctx1 /\
    V21.applyMosaicEffect (platform := aliased) ctx1 (7 # 2) (1 # 4) 5
      V21.pixel = Returned ctx1.
Proof.
  eexists. split; [vm_compute; reflexivity |].
  apply (mosaic_pixel_idempotent (platform := aliased) bitmap_4x2 _
           1 1 (7 # 2) (1 # 4) 5);
    [exact bitmap_4x2_wf | lia | reflexivity | reflexivity |
     vm_compute; reflexivity].
Defined.

Lemma map_nth_seq (ps : list Pixel) :
  map (fun k => nth k ps transparentBlack) (seq 0 (length ps)) = ps.
Proof.
  apply (nth_ext _ _ transparentBlack transparentBlack).
  - rewrite length_map, length_seq. reflexivity.
  - intros n Hn. rewrite length_map, length_seq in Hn.
    rewrite (nth_indep _ _ (nth 0%nat ps transparentBlack))
      by (rewrite length_map, length_seq; exact Hn).
    rewrite (map_nth (fun k => nth k ps transparentBlack)).
    rewrite seq_nth by exact Hn. reflexivity.
Qed.

Lemma sumAll_fold (ps : list Pixel) (ks : list nat) (r g b : Z) :
  fold_left
    (fun (acc : Z * Z * Z) (i : nat) =>
       let '(r, g, b) := acc in
       (r + nth i (flat_map bytes ps) 0, g + nth (i + 1) (flat_map bytes ps) 0,
        b + nth (i + 2) (flat_map bytes ps) 0))
    (map (fun k => (4 * k)%nat) ks) (r, g, b) =
  (r + sumZ (map (fun k => red (nth k ps transparentBlack)) ks),
   g + sumZ (map (fun k => green (nth k ps transparentBlack)) ks),
   b + sumZ (map (fun k => blue (nth k ps transparentBlack)) ks)).
Proof.
  revert r g b. induction ks as [| k ks IH]; intros r g b.
  - cbn [map fold_left sumZ fold_right]. rewrite !Z.add_0_r. reflexivity.
  - cbn [map fold_left]. rewrite IH.
    destruct (nth_bytes ps k) as (-> & -> & ->).
    unfold sumZ. cbn [fold_right].
    f_equal; [f_equal |]; lia.
Qed.

Lemma sumAll_bytes (ps : list Pixel) :
  V12.sumAll (flat_map bytes ps) =
  (sumZ (map red ps), sumZ (map green ps), sumZ (map blue ps)).
Proof.
  unfold V12.sumAll. rewrite length_bytes.
  replace ((4 * length ps + 3) / 4)%nat with (length ps).
  2:{ replace (4 * length ps + 3)%nat with (3 + length ps * 4)%nat by lia.
      rewrite Nat.div_add by lia. reflexivity. }
  rewrite sumAll_fold.
  rewrite <- !(map_map (fun k => nth k ps transparentBlack)), map_nth_seq.
  reflexivity.
Qed.

Lemma meanAll_bytes (ps : list Pixel) :
  ps <> [] -> Forall wf_pixel ps ->
  let '(r, g, b) := meanAll ps in byte r /\ byte g /\ byte b.
Proof.
  intros Hne Hall. unfold meanAll.
  assert (Hn : (0 < length ps)%nat)
    by (destruct ps; [contradiction | cbn; lia]).
  repeat split; apply div_byte; try lia; apply sumZ_bounds;
    (eapply Forall_impl; [| exact Hall]); intros p Hp; apply Hp.
Qed.

Section MosaicShapes.

Context {platform : Rasterizer}.


(** X24. The mosaic of v1.2.0, for a brush size above zero: the call
    returns and keeps the size of the canvas; the pixels of the
    [size * 2] square of the grid cell of the point become one opaque
    colour, every other pixel stays.  The colour is the floored mean
    over all pixels of that square, the square not being cut to the
    canvas: where it reaches off the canvas, the pixels read there are
    transparent black and count in the mean. *)
Theorem V12_mosaic_block (ctx : Bitmap.t) (x y : Q) (size : Z) :
  Bitmap.wf ctx -> 0 < size ->
  let pixelSize := size * 2 in
  let startX := Qfloor (x / inject_Z pixelSize) * pixelSize in
  let startY := Qfloor (y / inject_Z pixelSize) * pixelSize in
  exists ctx',
    V12.applyMosaic ctx x y size = Returned ctx' /\
    sameFrame ctx' ctx /\
    let '(r, g, b) :=
      meanAll (regionPixels ctx startX startY pixelSize pixelSize) in
    byte r /\ byte g /\ byte b /\
    forall px py, Bitmap.inside ctx px py = true ->
      Bitmap.getPixel ctx' px py =
      if (startX <=? px) && (px <? startX + pixelSize) &&
         (startY <=? py) && (py <? startY + pixelSize)
      then mkPixel r g b 255 else Bitmap.getPixel ctx px py.
Proof.
  intros Hwf Hsize pixelSize startX startY.
  assert (HP : 0 < pixelSize) by (unfold pixelSize; lia).
  unfold V12.applyMosaic. fold pixelSize. cbv zeta.
  set (sx := (inject_Z (Qfloor (x / inject_Z pixelSize)) *
              inject_Z pixelSize)%Q).
  set (sy := (inject_Z (Qfloor (y / inject_Z pixelSize)) *
              inject_Z pixelSize)%Q).
  assert (Ex : (sx == inject_Z startX)%Q)
    by (unfold sx, startX; rewrite inject_Z_mult; reflexivity).
  assert (Ey : (sy == inject_Z startY)%Q)
    by (unfold sy, startY; rewrite inject_Z_mult; reflexivity).
  assert (Tp : toLong (inject_Z pixelSize) = pixelSize)
    by (apply toLong_inject_Z; reflexivity).
  rewrite getImageData_region by (rewrite Tp; lia).
  rewrite Tp, (toLong_inject_Z _ _ Ex), (toLong_inject_Z _ _ Ey).
  set (ps := regionPixels ctx startX startY pixelSize pixelSize).
  assert (Hne : ps <> []) by (apply regionPixels_nonempty; lia).
  assert (Hall : Forall wf_pixel ps) by (apply regionPixels_wf, Hwf).
  assert (Hb := meanAll_bytes ps Hne Hall).
  rewrite sumAll_bytes, length_bytes.
  replace (Z.of_nat (4 * length ps) / 4) with (Z.of_nat (length ps))
    by (rewrite Nat2Z.inj_mul, Z.mul_comm, Z.div_mul; lia).
  unfold meanAll in *. cbv zeta in Hb.
  destruct Hb as (Hr & Hg & Hb).
  eexists. split; [reflexivity |]. split.
  { unfold sameFrame, fillRect.
    rewrite paint_width, paint_height, paint_length. repeat split. }
  split; [exact Hr |]. split; [exact Hg |]. split; [exact Hb |].
  intros px py Hin. destruct Hwf as (_ & _ & Hlen & _).
  rewrite (fillRect_grid _ sx sy (inject_Z pixelSize) (inject_Z pixelSize)
             startX startY pixelSize pixelSize ctx px py Hlen Ex Ey
             (Qeq_refl _) (Qeq_refl _) HP HP) by (try reflexivity; exact Hin).
  unfold V21.rgb. rewrite !clampByte_id by assumption. reflexivity.
Qed.

End MosaicShapes.


Lemma V12_mosaic_block_witness :
  let pixelSize := 2 * 2 in
  let startX := Qfloor (1 / inject_Z pixelSize) * pixelSize in
  let startY := Qfloor (1 / inject_Z pixelSize) * pixelSize in
  exists ctx',
    V12.applyMosaic (platform := aliased) bitmap_4x2 1 1 2 = Returned ctx' /\
    sameFrame ctx' bitmap_4x2 /\
    let '(r, g, b) :=
      meanAll (regionPixels bitmap_4x2 startX startY pixelSize pixelSize) in
    byte r /\ byte g /\ byte b /\
    forall px py, Bitmap.inside bitmap_4x2 px py = true ->
      Bitmap.getPixel ctx' px py =
      if (startX <=? px) && (px <? startX + pixelSize) &&
         (startY <=? py) && (py <? startY + pixelSize)
      then mkPixel r g b 255 else Bitmap.getPixel bitmap_4x2 px py.
Proof.
  apply (V12_mosaic_block (platform := aliased) bitmap_4x2 1 1 2);
    [exact bitmap_4x2_wf | lia].
Defined.
